(** * lxd: exec-over-WebSocket sessions and the devlxd guest socket

    A shallow embedding of [lxd/container_exec.go] (the exec session:
    [Metadata], [Connect], [Do], [containerExecPost]) and of the devlxd
    source ([configKeyGet], [metadataGet], [findContainerForPid]), with the
    properties of the design document stated and settled against it.

    Conventions.  Go's [int] and [int32] are [Z]; a Go [map] read by key is a
    stdpp [gmap]; a Go [map] that is ranged over is ranged in an order given
    as an explicit list, because Go leaves that order unspecified; a call
    that can fail returns [res]; what the operating system, the database and
    the container library answer is a field of an environment record. *)

From Stdlib Require Import ZArith Ascii String List Lia DecimalString DecimalPos DecimalZ.
From stdpp Require Import base option list gmap strings fin_maps.

Local Open Scope string_scope.
Local Open Scope Z_scope.

(** ** Errors and results *)

(** What [strconv] found wrong with a number: [strconv.ErrSyntax] or
    [strconv.ErrRange]. *)
Inductive numCause : Type :=
| ErrSyntax
| ErrRange.

(** An error raised by a collaborator (the kernel, the database, the
    container library, the WebSocket upgrader), of which only the message
    is kept, or the [*strconv.NumError] of a number that does not parse,
    kept by its fields [Num] and [Err]: its message, which names the
    function and quotes the input, is made by [strconv]. *)
Inductive syserr : Type :=
| SysErr (msg : string)
| NumError (num : string) (cause : numCause).

(** Go's [error] values met in the two files.  [os.ErrPermission] and
    [pidNotInContainerErr] are package-level values compared by identity:
    no collaborator can return them, hence their own constructors. *)
Inductive error : Type :=
| ErrPermission
| pidNotInContainerErr
| Errorf (msg : string)
| ErrSys (e : syserr).

Inductive res (E A : Type) : Type :=
| Ok (a : A)
| Err (e : E).
Arguments Ok {E A} a.
Arguments Err {E A} e.

Definition sysres (A : Type) : Type := res syserr A.
Definition result (A : Type) : Type := res error A.

(** [x, err := f(); if err != nil { return nil, err }]. *)
Definition lift {A} (r : sysres A) : result A :=
  match r with
  | Ok a => Ok a
  | Err e => Err (ErrSys e)
  end.

(** ** Strings: the [strings] and [fmt] functions the source calls *)

(** [strings.HasPrefix(s, prefix)]. *)
Definition HasPrefix (s pre : string) : bool := String.prefix pre s.

(** [strings.Split(s, sep)] for a one-byte separator: the pieces between
    the separators, empty pieces included; always at least one piece. *)
Fixpoint Split (s : string) (sep : ascii) : list string :=
  match s with
  | EmptyString => [EmptyString]
  | String c rest =>
      if Ascii.eqb c sep then EmptyString :: Split rest sep
      else match Split rest sep with
           | [] => [String c EmptyString]
           | p :: ps => String c p :: ps
           end
  end.

(** [parts[len(parts)-1]]. *)
Definition lastPart (parts : list string) : string := List.last parts EmptyString.

(** No character of the string is [ch]. *)
Definition without (ch : ascii) (s : string) : Prop :=
  Forall (λ x, x ≠ ch) (list_ascii_of_string s).

(** The character can stand as the verb of a directive that has no flag,
    width, precision or operand index: a character of ASCII that is not a
    percent sign, a flag (number sign, zero, plus, minus, space), a
    digit, a dot, a star or an opening square bracket. *)
Definition isVerb (ch : ascii) : bool :=
  let n := nat_of_ascii ch in
  (n <? 128)%nat
  && negb ((48 <=? n)%nat && (n <=? 57)%nat)
  && negb (existsb (Ascii.eqb ch) ["%"; "#"; "+"; "-"; " "; "."; "*"; "["]%char).

(** What [fmt] appends for the operands no directive has used:
    [%!(EXTRA string=a, string=b)]. *)
Definition extraOperands (args : list string) : string :=
  match args with
  | [] => EmptyString
  | _ => "%!(EXTRA " +:+ String.concat ", " ((λ a, "string=" +:+ a) <$> args) +:+ ")"
  end.

(** [fmt.Sprintf] with string operands, for the formats whose directives
    are a percent sign and one character.  Text outside the directives is
    copied.  Two percent signs give one.  A verb with no operand left
    gives [%!verb(MISSING)], a percent sign that ends the format gives
    [%!(NOVERB)], and the verbs [s] and [v] give their operand as it is.
    [None] is a format this description does not cover (a flag, a width, a
    precision, an index, a verb outside ASCII, or a verb other than [s] and
    [v] that has an operand): nothing is said of what [fmt] prints then. *)
Fixpoint Sprintf (format : string) (args : list string) : option string :=
  match format with
  | EmptyString => Some (extraOperands args)
  | String "%" EmptyString => Some ("%!(NOVERB)" +:+ extraOperands args)
  | String "%" (String verb rest) =>
      if Ascii.eqb verb "%" then String "%" <$> Sprintf rest args
      else if isVerb verb then
        match args with
        | [] => (λ text, "%!" +:+ String verb "(MISSING)" +:+ text) <$> Sprintf rest []
        | a :: args' =>
            if Ascii.eqb verb "s" || Ascii.eqb verb "v"
            then (λ text, a +:+ text) <$> Sprintf rest args'
            else None
        end
      else None
  | String ch rest => String ch <$> Sprintf rest args
  end.

(** [strconv.Itoa]: the decimal digits, with a leading minus sign for a
    negative number. *)
Definition Itoa (i : Z) : string := NilZero.string_of_int (Z.to_int i).

Definition maxInt : Z := 2 ^ 63 - 1.
Definition minInt : Z := - 2 ^ 63.

(** [strconv.Atoi] on a 64-bit platform: an optional sign, then at least
    one decimal digit and nothing else; a value outside [int] is a range
    error.  The error names the input. *)
Definition Atoi (s : string) : sysres Z :=
  let parsed :=
    match s with
    | String ch digits =>
        if Ascii.eqb ch "+" then option_map Decimal.Pos (NilZero.uint_of_string digits)
        else NilZero.int_of_string s
    | EmptyString => None
    end in
  match parsed with
  | None => Err (NumError s ErrSyntax)
  | Some d =>
      let v := Z.of_int d in
      if (minInt <=? v) && (v <=? maxInt) then Ok v
      else Err (NumError s ErrRange)
  end.

(** The conversion [int32(x)]: the low 32 bits, read as signed. *)
Definition int32 (x : Z) : Z := (x + 2 ^ 31) mod 2 ^ 32 - 2 ^ 31.

(** ** Containers as the daemon hands them to the handlers *)

(** The uid/gid shift table of a container; [ShiftIntoNs] is computed by
    the idmap package, outside these files, so the table carries it. *)
Record IdmapSet : Type := {
  ShiftIntoNs : Z → Z → Z * Z
}.

(** What the two files read of the go-lxc handle [c.c]. *)
Record lxcContainer : Type := {
  Running : bool;
  InitPid : Z
}.

(** [lxdContainer]: the fields the two files read. *)
Record lxdContainer : Type := {
  name : string;
  config : gmap string string;
  c : lxcContainer;
  idmapset : option IdmapSet
}.

(** ** devlxd: the HTTP handlers *)

Module DevLxd.

Definition StatusOK : Z := 200.
Definition StatusForbidden : Z := 403.
Definition StatusNotFound : Z := 404.

(** [content interface{}]: the handlers store a string or a list of
    strings. *)
Inductive content : Type :=
| CString (s : string)
| CStrings (l : list string).

Record DevLxdResponse : Type := {
  resp_content : content;
  code : Z;
  ctype : string
}.

Definition OkResponse (ct : content) (ctype : string) : DevLxdResponse :=
  {| resp_content := ct; code := StatusOK; ctype := ctype |}.

(** [configKeyGet.f]; [key] is [mux.Vars(r)["key"]]. *)
Definition configKeyGet (c : lxdContainer) (key : string) : DevLxdResponse :=
  if negb (HasPrefix key "user.") then
    {| resp_content := CString "not authorized"; code := StatusForbidden; ctype := "raw" |}
  else
    match config c !! key with
    | None =>
        {| resp_content := CString "not found"; code := StatusNotFound; ctype := "raw" |}
    | Some value => OkResponse (CString value) "raw"
    end.

Definition newline : string := String (ascii_of_nat 10) EmptyString.

Definition metadataFormat : string :=
  "#cloud-config" +:+ newline +:+ "instance-id: %s" +:+ newline
  +:+ "local-hostname: %s" +:+ newline +:+ "%s".

(** [metadataGet.f]; reading a missing key of a Go map gives the zero
    value, the empty string.  The format is the literal of the source and
    has its three operands, so [Sprintf] gives the text. *)
Definition metadataGet (c : lxdContainer) : DevLxdResponse :=
  let value := default EmptyString (config c !! "user.meta-data") in
  OkResponse
    (CString (default EmptyString (Sprintf metadataFormat [name c; name c; value])))
    "raw".

(** [configGet.f].  The range over [c.config] goes through [keys], an
    enumeration of the keys of the config ([visitsConfig]) in the order Go
    happens to take.  The format is the literal of the source and has its
    operand, so [Sprintf] gives a text for every key. *)
Definition configGet (c : lxdContainer) (keys : list string) : DevLxdResponse :=
  let filtered :=
    omap (λ k, match config c !! k with
               | Some _ =>
                   if HasPrefix k "user." then Sprintf "/1.0/config/%s" [k]
                   else None
               | None => None
               end) keys in
  OkResponse (CStrings filtered) "json".

Definition visitsConfig (c : lxdContainer) (keys : list string) : Prop :=
  keys ≡ₚ (map_to_list (config c)).*1.

(** The three header lines of the meta-data document for a container
    name, each ended by a line feed. *)
Definition header (n : string) : string :=
  "#cloud-config" +:+ newline +:+ "instance-id: " +:+ n +:+ newline
  +:+ "local-hostname: " +:+ n +:+ newline.

(** *** Containers of the scenarios *)

(** The container of the scenarios of the design document: one [user.]
    key and one key outside that namespace. *)
Definition c1 : lxdContainer :=
  {| name := "c1";
     config := <["user.foo" := "bar"]> (<["limits.memory" := "1GB"]> ∅);
     c := {| Running := true; InitPid := 4242 |};
     idmapset := None |}.

(** The container of scenario S6: [c1] with a [user.meta-data] entry. *)
Definition c1meta : lxdContainer :=
  {| name := "c1";
     config := <["user.meta-data" := "foo: bar"]> (config c1);
     c := c c1;
     idmapset := None |}.

(** [c1] with two values that hold a percent sign. *)
Definition c1percent : lxdContainer :=
  {| name := "c1";
     config := <["user.load" := "100%"]>
                 (<["user.meta-data" := "password: 100%sure"]> (config c1));
     c := c c1;
     idmapset := None |}.

End DevLxd.

(** ** devlxd: from the peer's PID to its container *)

Module Resolver.

(** What the resolver asks of the world: files and symbolic links under
    [/proc], the container database and the container loader.  The answers
    are those of one instant: a file read twice reads the same. *)
Record Daemon : Type := {
  ReadFile : string → sysres string;
  Readlink : string → sysres string;
  dbListContainers : sysres (list string);
  newLxdContainer : string → sysres lxdContainer
}.

(** [fmt.Sprintf("/proc/%d/<file>", pid)]. *)
Definition procPath (pid : Z) (file : string) : string :=
  "/proc/" +:+ Itoa pid +:+ "/" +:+ file.

Definition sentinel : string := "[lxc monitor]".

(** The class [\s] of Go's regexp: tab, line feed, form feed, carriage
    return, space. *)
Definition isSpace (ch : ascii) : bool :=
  let n := nat_of_ascii ch in
  (n =? 9)%nat || (n =? 10)%nat || (n =? 12)%nat || (n =? 13)%nat || (n =? 32)%nat.

(** The class [[0-9]]. *)
Definition isDigit (ch : ascii) : bool :=
  let n := nat_of_ascii ch in
  (48 <=? n)%nat && (n <=? 57)%nat.

Fixpoint skipSpaces (s : string) : string :=
  match s with
  | String ch rest => if isSpace ch then skipSpaces rest else s
  | EmptyString => s
  end.

Fixpoint takeDigits (s : string) : string :=
  match s with
  | String ch rest => if isDigit ch then String ch (takeDigits rest) else EmptyString
  | EmptyString => EmptyString
  end.

Fixpoint dropChars (n : nat) (s : string) : string :=
  match n, s with
  | S n', String _ rest => dropChars n' rest
  | _, _ => s
  end.

(** [re.FindStringSubmatch(line)], reduced to its group 1, for the pattern
    of the source: the text PPid: followed by a starred [\s] and by a group
    of starred digits.  The pattern is not anchored and both starred parts
    match the empty string, so the match is at the leftmost PPid: of the
    line; the stars are greedy.  [None] is Go's [nil]: the line holds no
    PPid: at all. *)
Fixpoint FindStringSubmatch (line : string) : option string :=
  if HasPrefix line "PPid:" then
    Some (takeDigits (skipSpaces (dropChars 5 line)))
  else
    match line with
    | String _ rest => FindStringSubmatch rest
    | EmptyString => None
    end.

(** What the inner loop over the lines of [status] leaves behind. *)
Inductive ppidScan : Type :=
| PPidFound (pid : Z)
| PPidError (e : syserr)
| PPidAbsent.

(** The inner [for _, line := range] over the lines of status: the first line
    that matches decides; [Atoi] of its group 1 either fails, which
    returns the error, or gives the next pid, which breaks. *)
Fixpoint scanStatus (lines : list string) : ppidScan :=
  match lines with
  | [] => PPidAbsent
  | line :: rest =>
      match FindStringSubmatch line with
      | Some digits =>
          match Atoi digits with
          | Err e => PPidError e
          | Ok r => PPidFound (int32 r)
          end
      | None => scanStatus rest
      end
  end.

Definition lf : ascii := ascii_of_nat 10.
Definition space : ascii := ascii_of_nat 32.

(** How [for pid > 1 { ... }] is left: by a [return], or by its condition
    with the pid it then holds. *)
Inductive walkOutcome : Type :=
| WalkReturn (r : result lxdContainer)
| WalkDone (pid : Z).

Section WithDaemon.

Variable d : Daemon.

(** The loop [for pid > 1].  A status file without a [PPid:] line leaves
    [pid] as it is and the loop goes round again, so the loop is run on
    fuel: [None] means the fuel ran out before the loop was left. *)
Fixpoint walk (fuel : nat) (pid : Z) : option walkOutcome :=
  match fuel with
  | O => None
  | S fuel' =>
      if 1 <? pid then
        match ReadFile d (procPath pid "cmdline") with
        | Err e => Some (WalkReturn (Err (ErrSys e)))
        | Ok cmdline =>
            if HasPrefix cmdline sentinel then
              let parts := Split cmdline space in
              Some (WalkReturn (lift (newLxdContainer d (lastPart parts))))
            else
              match ReadFile d (procPath pid "status") with
              | Err e => Some (WalkReturn (Err (ErrSys e)))
              | Ok status =>
                  match scanStatus (Split status lf) with
                  | PPidError e => Some (WalkReturn (Err (ErrSys e)))
                  | PPidFound pid' => walk fuel' pid'
                  | PPidAbsent => walk fuel' pid
                  end
              end
        end
      else Some (WalkDone pid)
  end.

(** [for _, container := range containers] of the fallback. *)
Fixpoint scanContainers (origPidNs : string) (containers : list string)
  : result lxdContainer :=
  match containers with
  | [] => Err pidNotInContainerErr
  | container :: rest =>
      match newLxdContainer d container with
      | Err e => Err (ErrSys e)
      | Ok ct =>
          match Readlink d (procPath (InitPid (c ct)) "ns/pid") with
          | Err e => Err (ErrSys e)
          | Ok pidNs =>
              if String.eqb origPidNs pidNs then Ok ct
              else scanContainers origPidNs rest
          end
      end
  end.

(** The code after the loop. *)
Definition fallback (origpid : Z) : result lxdContainer :=
  match Readlink d (procPath origpid "ns/pid") with
  | Err e => Err (ErrSys e)
  | Ok origPidNs =>
      match dbListContainers d with
      | Err e => Err (ErrSys e)
      | Ok containers => scanContainers origPidNs containers
      end
  end.

Definition findContainerForPid (fuel : nat) (pid : Z) : option (result lxdContainer) :=
  match walk fuel pid with
  | None => None
  | Some (WalkReturn r) => Some r
  | Some (WalkDone _) => Some (fallback pid)
  end.

(** The walk started at [pid] gets to [top] without an error, without a
    monitor and through a [PPid:] line at every step. *)
Inductive climbs : Z → Z → Prop :=
| climbs_here (pid : Z) : climbs pid pid
| climbs_up (pid ppid top : Z) (cmdline status : string) :
    1 < pid →
    ReadFile d (procPath pid "cmdline") = Ok cmdline →
    HasPrefix cmdline sentinel = false →
    ReadFile d (procPath pid "status") = Ok status →
    scanStatus (Split status lf) = PPidFound ppid →
    climbs ppid top →
    climbs pid top.

(** The container named [container] loads, the PID-namespace link of its
    init reads, and it is not [origPidNs]. *)
Definition misses (origPidNs container : string) : Prop :=
  ∃ ct pidNs,
    newLxdContainer d container = Ok ct
    ∧ Readlink d (procPath (InitPid (c ct)) "ns/pid") = Ok pidNs
    ∧ pidNs ≠ origPidNs.

End WithDaemon.

(** The document's name of a monitor: the last of the pieces of the
    command line that white space separates. *)
Definition finalWhitespaceToken (cmdline : string) : string :=
  List.last (String.words cmdline) EmptyString.

(** The document's first step, for one peer: a monitor on the way up
    gives the container named by [finalWhitespaceToken]. *)
Definition monitorStepAsDocumented (d : Daemon) (pid : Z) : Prop :=
  ∀ top cmdline,
    climbs d pid top → 1 < top →
    ReadFile d (procPath top "cmdline") = Ok cmdline →
    HasPrefix cmdline sentinel = true →
    ∃ fuel, findContainerForPid d fuel pid
            = Some (lift (newLxdContainer d (finalWhitespaceToken cmdline))).

(** The parent of a process as [/proc] gives it: the number of the line
    of [status] that begins with PPid:, the field the kernel writes. *)
Definition parentField (line : string) : option string :=
  if HasPrefix line "PPid:" then Some (takeDigits (skipSpaces (dropChars 5 line)))
  else None.

Fixpoint parentOf (lines : list string) : ppidScan :=
  match lines with
  | [] => PPidAbsent
  | line :: rest =>
      match parentField line with
      | Some digits =>
          match Atoi digits with
          | Err e => PPidError e
          | Ok r => PPidFound (int32 r)
          end
      | None => parentOf rest
      end
  end.

(** The document's walk: the parent chain of [/proc] from [pid] up to
    [top], through processes that are no monitors. *)
Inductive parentChain (d : Daemon) : Z → Z → Prop :=
| chain_here (pid : Z) : parentChain d pid pid
| chain_up (pid ppid top : Z) (cmdline status : string) :
    1 < pid →
    ReadFile d (procPath pid "cmdline") = Ok cmdline →
    HasPrefix cmdline sentinel = false →
    ReadFile d (procPath pid "status") = Ok status →
    parentOf (Split status lf) = PPidFound ppid →
    parentChain d ppid top →
    parentChain d pid top.

(** The document's second step, for one peer: when the parent chain gets
    to a process not above 1 without a monitor, the answer is the first
    listed container whose init has the PID-namespace link of the peer. *)
Definition fallbackStepAsDocumented (d : Daemon) (pid : Z) : Prop :=
  ∀ top origPidNs (before : list string) n (after : list string) ct,
    parentChain d pid top → top ≤ 1 →
    Readlink d (procPath pid "ns/pid") = Ok origPidNs →
    dbListContainers d = Ok (before ++ n :: after)%list →
    Forall (misses d origPidNs) before →
    newLxdContainer d n = Ok ct →
    Readlink d (procPath (InitPid (c ct)) "ns/pid") = Ok origPidNs →
    ∃ fuel0, ∀ fuel, (fuel0 ≤ fuel)%nat → findContainerForPid d fuel pid = Some (Ok ct).

(** *** Hosts of the scenarios *)

Definition tab : string := String (ascii_of_nat 9) EmptyString.
Definition nl : string := String lf EmptyString.

Definition noent : syserr := SysErr "no such file or directory".

(** A file system given by its entries. *)
Fixpoint lookupPath (entries : list (string * string)) (path : string) : sysres string :=
  match entries with
  | [] => Err noent
  | (p, content) :: rest =>
      if String.eqb path p then Ok content else lookupPath rest path
  end.

Definition statusOf (comm : string) (ppid : Z) : string :=
  "Name:" +:+ tab +:+ comm +:+ nl +:+ "State:" +:+ tab +:+ "S (sleeping)" +:+ nl
  +:+ "Pid:" +:+ tab +:+ "0" +:+ nl +:+ "PPid:" +:+ tab +:+ Itoa ppid +:+ nl.

Definition stoppedContainer (n : string) : lxdContainer :=
  {| name := n; config := ∅; c := {| Running := false; InitPid := -1 |};
     idmapset := None |}.

Definition loadFrom (known : list lxdContainer) (n : string) : sysres lxdContainer :=
  match List.find (λ ct, String.eqb (name ct) n) known with
  | Some ct => Ok ct
  | None => Err (SysErr "no such container")
  end.

(** A host with the running container [c1] (init 4242, monitor 100) and the
    stopped container [c0], listed first.  Process 300 is a shell under
    the init of [c1]; process 400 was started in [c1] from outside, its
    parent is process 1 of the host; process 1 itself is in the host's PID
    namespace. *)
Definition host : Daemon :=
  {| ReadFile := lookupPath
       [(procPath 300 "cmdline", "/bin/sh");
        (procPath 300 "status", statusOf "sh" 4242);
        (procPath 4242 "cmdline", "/sbin/init");
        (procPath 4242 "status", statusOf "init" 100);
        (procPath 100 "cmdline", "[lxc monitor] /var/lib/lxd/containers c1");
        (procPath 100 "status", statusOf "lxc" 1);
        (procPath 400 "cmdline", "/bin/bash");
        (procPath 400 "status", statusOf "bash" 1)];
     Readlink := lookupPath
       [(procPath 300 "ns/pid", "pid:[4026532201]");
        (procPath 400 "ns/pid", "pid:[4026532201]");
        (procPath 4242 "ns/pid", "pid:[4026532201]");
        (procPath 1 "ns/pid", "pid:[4026531836]")];
     dbListContainers := Ok ["c0"; "c1"];
     newLxdContainer := loadFrom [stoppedContainer "c0"; DevLxd.c1] |}.

(** The same host once [c0] runs too (init 150, in its own namespace). *)
Definition hostAllRunning : Daemon :=
  {| ReadFile := ReadFile host;
     Readlink := λ path,
       if String.eqb path (procPath 150 "ns/pid") then Ok "pid:[4026532100]"
       else Readlink host path;
     dbListContainers := Ok ["c0"; "c1"];
     newLxdContainer := loadFrom
       [{| name := "c0"; config := ∅; c := {| Running := true; InitPid := 150 |};
           idmapset := None |}; DevLxd.c1] |}.

(** A host on which the title of the monitor of [c1] has a tab before the
    name. *)
Definition hostTab : Daemon :=
  {| ReadFile := lookupPath
       [(procPath 100 "cmdline", "[lxc monitor] /var/lib/lxd/containers" +:+ tab +:+ "c1")];
     Readlink := lookupPath [];
     dbListContainers := Ok ["c1"];
     newLxdContainer := loadFrom [DevLxd.c1] |}.

(** The container [c0] when it runs: init 150. *)
Definition c0 : lxdContainer :=
  {| name := "c0"; config := ∅; c := {| Running := true; InitPid := 150 |};
     idmapset := None |}.

(** A host with the running containers [c0] (init 150) and [c1] (init
    4242, monitor 100).  Process 500 is in the PID namespace of [c0] and
    its parent is process 1; it has given itself the name PPid:100, which
    the kernel writes on the first line of its status. *)
Definition hostSpoof : Daemon :=
  {| ReadFile := lookupPath
       [(procPath 500 "cmdline", "/bin/sh");
        (procPath 500 "status", statusOf "PPid:100" 1);
        (procPath 100 "cmdline", "[lxc monitor] /var/lib/lxd/containers c1");
        (procPath 100 "status", statusOf "lxc" 1)];
     Readlink := lookupPath
       [(procPath 500 "ns/pid", "pid:[4026532100]");
        (procPath 150 "ns/pid", "pid:[4026532100]");
        (procPath 4242 "ns/pid", "pid:[4026532201]")];
     dbListContainers := Ok ["c0"; "c1"];
     newLxdContainer := loadFrom [c0; DevLxd.c1] |}.

(** The host [host] when its container [c1] has the config of
    [c1percent]. *)
Definition hostPercent : Daemon :=
  {| ReadFile := ReadFile host;
     Readlink := Readlink host;
     dbListContainers := dbListContainers host;
     newLxdContainer := loadFrom [stoppedContainer "c0"; DevLxd.c1percent] |}.

(** The string is made of decimal digits only. *)
Definition allDigits (s : string) : Prop :=
  Forall (λ ch, isDigit ch = true) (list_ascii_of_string s).

(** The host [host] seen by a daemon that can read no namespace link and
    whose database does not answer. *)
Definition hostBlind : Daemon :=
  {| ReadFile := ReadFile host;
     Readlink := λ _, Err (SysErr "permission denied");
     dbListContainers := Err (SysErr "database is locked");
     newLxdContainer := newLxdContainer host |}.

(** The host [host] when only the database does not answer. *)
Definition hostNoDb : Daemon :=
  {| ReadFile := ReadFile host;
     Readlink := Readlink host;
     dbListContainers := Err (SysErr "database is locked");
     newLxdContainer := newLxdContainer host |}.

(** [findContainerForPid] returns [r]: every run of the loop that is given
    enough rounds ends with [r]. *)
Definition resolves (d : Daemon) (pid : Z) (r : result lxdContainer) : Prop :=
  ∃ fuel0, ∀ fuel, (fuel0 ≤ fuel)%nat → findContainerForPid d fuel pid = Some r.

(** A host with processes whose [/proc] entries are incomplete: 600 has
    gone (no entry at all); 601 has a command line but no readable status;
    602 has named itself PPid: so that the first matching line of its
    status is the name line, with no digits; 603 has a status without any
    parent line; 604 is a child of 603. *)
Definition hostBroken : Daemon :=
  {| ReadFile := lookupPath
       [(procPath 601 "cmdline", "/bin/a");
        (procPath 602 "cmdline", "/bin/b");
        (procPath 602 "status",
           "Name:" +:+ tab +:+ "PPid:" +:+ nl +:+ "PPid:" +:+ tab +:+ "1" +:+ nl);
        (procPath 603 "cmdline", "/bin/c");
        (procPath 603 "status", "Name:" +:+ tab +:+ "c" +:+ nl);
        (procPath 604 "cmdline", "/bin/d");
        (procPath 604 "status", statusOf "d" 603)];
     Readlink := lookupPath [];
     dbListContainers := Ok [];
     newLxdContainer := loadFrom [] |}.

End Resolver.

(** ** devlxd: the connections and their peers *)

Module ConnPid.

(** [http.ConnState]; [StateOther] stands for any value the [switch] does
    not name. *)
Inductive ConnState : Type :=
| StateNew
| StateActive
| StateIdle
| StateHijacked
| StateClosed
| StateOther.

(** [ConnPidMapper.ConnStateHandler] on the map [m.m], a connection being
    known by its identity; [getPid] is what [getPid(unixConn)] answers if
    it is called. *)
Definition ConnStateHandler (m : gmap nat Z) (conn : nat) (state : ConnState)
  (getPid : sysres Z) : gmap nat Z :=
  match state with
  | StateNew =>
      match getPid with
      | Err _ => m
      | Ok pid => <[conn := pid]> m
      end
  | StateActive => m
  | StateIdle => m
  | StateHijacked => delete conn m
  | StateClosed => delete conn m
  | StateOther => m
  end.

(** One call of the handler by the HTTP server. *)
Record transition : Type := {
  onConn : nat;
  toState : ConnState;
  peerCred : sysres Z
}.

(** The map after the server has reported the transitions in turn. *)
Definition serve (m : gmap nat Z) (ts : list transition) : gmap nat Z :=
  foldl (λ m t, ConnStateHandler m (onConn t) (toState t) (peerCred t)) m ts.

(** The transition ends the life of its connection for the server. *)
Definition gone (t : transition) : Prop :=
  toState t = StateClosed ∨ toState t = StateHijacked.

(** The transition leaves the entry of connection [conn] as it is: it is
    about another connection, or it is a state that changes nothing, or a
    new-connection report whose credentials could not be read. *)
Definition quiet (conn : nat) (t : transition) : Prop :=
  onConn t ≠ conn
  ∨ toState t = StateActive ∨ toState t = StateIdle ∨ toState t = StateOther
  ∨ (toState t = StateNew ∧ ∃ e, peerCred t = Err e).

(** A day of the server: connection 1 comes from process 300, serves two
    requests and closes, while connection 2 comes from process 400 and
    stays; connection 3 comes from a peer whose credentials do not read. *)
Definition day : list transition :=
  [{| onConn := 1; toState := StateNew; peerCred := Ok 300 |};
   {| onConn := 1; toState := StateActive; peerCred := Ok 300 |};
   {| onConn := 2; toState := StateNew; peerCred := Ok 400 |};
   {| onConn := 3; toState := StateNew; peerCred := Err (SysErr "bad file descriptor") |};
   {| onConn := 1; toState := StateIdle; peerCred := Ok 300 |};
   {| onConn := 2; toState := StateActive; peerCred := Ok 400 |};
   {| onConn := 1; toState := StateActive; peerCred := Ok 300 |};
   {| onConn := 1; toState := StateClosed; peerCred := Ok 300 |};
   {| onConn := 2; toState := StateIdle; peerCred := Ok 400 |}].

End ConnPid.

(** ** devlxd: from a request to its answer *)

Module DevLxdServer.
Import DevLxd Resolver.

(** [err.Error()]; [numErrorText] is the message [strconv] makes for a
    [*strconv.NumError]. *)
Definition errorText (numErrorText : string → numCause → string) (err : error) : string :=
  match err with
  | ErrPermission => "permission denied"
  | pidNotInContainerErr => "pid not in container?"
  | Errorf msg => msg
  | ErrSys (SysErr msg) => msg
  | ErrSys (NumError num cause) => numErrorText num cause
  end.

(** [fmt.Sprintf("%s", resp.content)]: a string as it is, a list of
    strings between square brackets with spaces between. *)
Definition contentText (ct : content) : string :=
  match ct with
  | CString s => s
  | CStrings l => "[" +:+ String.concat " " l +:+ "]"
  end.

(** The call [hoistReq] ends with on the response writer; [Panic] is the
    failed assertion [resp.content.(string)]. *)
Inductive written : Type :=
| HttpError (msg : string) (status : Z)
| WriteJSON (ct : content)
| Fprintf (format : string)
| Panic.

(** The Content-Type [hoistReq] has set before that call, if any. *)
Record reply : Type := {
  contentType : option string;
  body : written
}.

(** The part of [hoistReq] after [resp := f(c, r)]. *)
Definition render (resp : DevLxdResponse) : reply :=
  if negb (code resp =? StatusOK) then
    {| contentType := Some "application/octet-stream";
       body := HttpError (contentText (resp_content resp)) (code resp) |}
  else if String.eqb (ctype resp) "json" then
    {| contentType := Some "application/json"; body := WriteJSON (resp_content resp) |}
  else
    {| contentType := Some "application/octet-stream";
       body := match resp_content resp with
               | CString s => Fprintf s
               | CStrings _ => Panic
               end |}.

(** The function [hoistReq] returns, for the handler [f] already given its
    request, the map [pidMapper.m] and the connection under the response
    writer; [None] when the resolution runs out of rounds. *)
Definition hoistReq (numErrorText : string → numCause → string)
  (f : lxdContainer → DevLxdResponse) (d : Daemon)
  (pidMap : gmap nat Z) (conn : nat) (fuel : nat) : option reply :=
  match pidMap !! conn with
  | None =>
      Some {| contentType := None;
              body := HttpError (errorText numErrorText pidNotInContainerErr) 500 |}
  | Some pid =>
      match findContainerForPid d fuel pid with
      | None => None
      | Some (Err err) =>
          Some {| contentType := None;
                  body := HttpError (errorText numErrorText err) 500 |}
      | Some (Ok ct) => Some (render (f ct))
      end
  end.

(** The body the client reads when [hoistReq] has ended with
    [fmt.Fprintf(w, format)]: the format printed with no operand.  [None]
    is a format that [Sprintf] does not cover, or a body made by
    [http.Error] or [WriteJSON], which write outside these files. *)
Definition printed (r : reply) : option string :=
  match body r with
  | Fprintf format => Sprintf format []
  | _ => None
  end.

(** The document's GET /1.0/config/{key} for a key that is there: the
    body is the value as it is. *)
Definition valueServedRaw : Prop :=
  ∀ ct key value,
    HasPrefix key "user." = true → config ct !! key = Some value →
    printed (render (configKeyGet ct key)) = Some value.

(** The document's GET /1.0/meta-data: the body is the three lines and
    then the value of [user.meta-data] as it is. *)
Definition metadataServedVerbatim : Prop :=
  ∀ ct,
    printed (render (metadataGet ct))
    = Some (header (name ct) +:+ default EmptyString (config ct !! "user.meta-data")).

End DevLxdServer.

(** ** shared: the logger *)

Module Log.

(** The levels of log15, the most severe first. *)
Inductive Lvl : Type :=
| LvlCrit
| LvlError
| LvlWarn
| LvlInfo
| LvlDebug.

Definition lvlRank (l : Lvl) : nat :=
  match l with
  | LvlCrit => 0
  | LvlError => 1
  | LvlWarn => 2
  | LvlInfo => 3
  | LvlDebug => 4
  end.

(** Where a handler writes: [SyslogHandler(tag, ...)], [FileHandler(path,
    ...)], [StderrHandler]. *)
Inductive Sink : Type :=
| SyslogSink (tag : string)
| FileSink (path : string)
| StderrSink.

(** A handler of the list: its sink, and the level of the
    [LvlFilterHandler] put around it, if one is. *)
Record Handler : Type := {
  sink : Sink;
  maxLvl : option Lvl
}.

(** [LvlFilterHandler(max, h)] hands to [h] the records whose level is
    [max] or more severe. *)
Definition passes (h : Handler) (l : Lvl) : bool :=
  match maxLvl h with
  | None => true
  | Some m => (lvlRank l <=? lvlRank m)%nat
  end.

(** The handler [SetLogger] makes for a sink: filtered at [LvlError]
    unless [debug]. *)
Definition handlerFor (debug : bool) (s : Sink) : Handler :=
  {| sink := s; maxLvl := if debug then None else Some LvlError |}.

Definition isEmptyName (name : string) : bool :=
  match name with
  | EmptyString => true
  | _ => false
  end.

(** A sink asked for by name, made with [log.Must]: [None] is the panic of
    [Must] when the sink does not open. *)
Definition named (opens : Sink → bool) (debug : bool) (name : string)
  (mk : string → Sink) : option (list Handler) :=
  match name with
  | EmptyString => Some []
  | _ => if opens (mk name) then Some [handlerFor debug (mk name)] else None
  end.

(** [SetLogger]: the handlers given to [MultiHandler], in their order;
    [None] when a [Must] panics. *)
Definition SetLogger (opens : Sink → bool) (syslog logfile : string)
  (verbose debug : bool) : option (list Handler) :=
  match named opens debug syslog SyslogSink with
  | None => None
  | Some sys =>
      match named opens debug logfile FileSink with
      | None => None
      | Some file =>
          Some (sys ++ file
                ++ (if verbose || debug then [handlerFor debug StderrSink] else []))%list
      end
  end.

(** A record of level [l] sent to the logger: what is written where.
    [None] is the [nil] logger of before [SetLogger]. *)
Definition emit (Log : option (list Handler)) (l : Lvl) (msg : string)
  : list (Sink * string) :=
  match Log with
  | None => []
  | Some handlers =>
      (λ h, (sink h, msg)) <$> List.filter (λ h, passes h l) handlers
  end.

(** [Logf] and [Debugf].  The callers pass any format and operands of any
    type, so [fmt.Sprintf] is taken here as it is: [sprintf] is the
    function of the library, over whatever the operands are. *)
Definition Logf {A} (sprintf : string → list A → string) (Log : option (list Handler))
  (format : string) (args : list A) : list (Sink * string) :=
  emit Log LvlInfo (sprintf format args).

Definition Debugf {A} (sprintf : string → list A → string) (Log : option (list Handler))
  (format : string) (args : list A) : list (Sink * string) :=
  emit Log LvlDebug (sprintf format args).

(** The sinks a call of [SetLogger] names or implies. *)
Definition sinksOf (syslog logfile : string) (stderr : bool) : list Sink :=
  ((if isEmptyName syslog then [] else [SyslogSink syslog])
   ++ (if isEmptyName logfile then [] else [FileSink logfile])
   ++ (if stderr then [StderrSink] else []))%list.

End Log.

(** ** The exec session *)

Module Exec.

(** A WebSocket connection, known by its identity. *)
Definition Conn : Type := nat.

(** [lxc.AttachOptions]: the fields the file writes. *)
Record AttachOptions : Type := {
  ClearEnv : bool;
  Env : list string;
  Cwd : string;
  StdinFd : Z;
  StdoutFd : Z;
  StderrFd : Z
}.

(** A [chan bool] made with capacity 1, as the number of values it holds. *)
Definition chan : Type := nat.

(** [ch <- true]: [None] when the channel is full and the sender blocks. *)
Definition chanSend (ch : chan) : option chan :=
  if (ch <? 1)%nat then Some (S ch) else None.

(** [execWs].  In [conns] a key bound to [None] is a key bound to Go's
    [nil]; [doneCh] is the field [done]. *)
Record execWs : Type := {
  command : list string;
  container : lxcContainer;
  rootUid : Z;
  rootGid : Z;
  options : AttachOptions;
  conns : gmap Z (option Conn);
  allConnected : chan;
  controlConnected : chan;
  interactive : bool;
  doneCh : chan;
  fds : gmap Z string
}.

Definition set_conns (v : gmap Z (option Conn)) (s : execWs) : execWs :=
  {| command := command s; container := container s; rootUid := rootUid s;
     rootGid := rootGid s; options := options s; conns := v;
     allConnected := allConnected s; controlConnected := controlConnected s;
     interactive := interactive s; doneCh := doneCh s; fds := fds s |}.

Definition set_allConnected (v : chan) (s : execWs) : execWs :=
  {| command := command s; container := container s; rootUid := rootUid s;
     rootGid := rootGid s; options := options s; conns := conns s;
     allConnected := v; controlConnected := controlConnected s;
     interactive := interactive s; doneCh := doneCh s; fds := fds s |}.

Definition set_controlConnected (v : chan) (s : execWs) : execWs :=
  {| command := command s; container := container s; rootUid := rootUid s;
     rootGid := rootGid s; options := options s; conns := conns s;
     allConnected := allConnected s; controlConnected := v;
     interactive := interactive s; doneCh := doneCh s; fds := fds s |}.

(** *** Ranging over a map

    [for k, v := range m] visits every key of [m] once, in an order Go does
    not fix.  The order is an argument: a list of keys, which [visits]
    requires to be an enumeration of the keys of the map. *)
Definition rangeMap {V} (m : gmap Z V) (keys : list Z) : list (Z * V) :=
  omap (λ k, (λ v, (k, v)) <$> m !! k) keys.

Definition visits {V} (m : gmap Z V) (keys : list Z) : Prop :=
  keys ≡ₚ (map_to_list m).*1.

(** *** Metadata *)

Definition fdKey (fd : Z) : string :=
  if fd =? -1 then "control" else Itoa fd.

(** [Metadata]: [shared.Jmap{"fds": fds}], with [fds] filled by the range
    over [s.fds]; a later assignment to a key would overwrite an earlier
    one. *)
Definition Metadata (s : execWs) (keys : list Z) : gmap string (gmap string string) :=
  let fdsJmap :=
    foldl (λ acc '(fd, secret), <[fdKey fd := secret]> acc) ∅ (rangeMap (fds s) keys) in
  {[ "fds" := fdsJmap ]}.

(** Modelled from the spec: the reader of the advertised metadata is the
    client, which is not in these files.  It reads the key [control] as
    index -1 and any other key as the decimal number it spells, and keeps
    the secrets. *)
Definition decodeKey (k : string) : option Z :=
  if String.eqb k "control" then Some (-1)
  else match Atoi k with
       | Ok i => Some i
       | Err _ => None
       end.

Definition decodeFds (m : gmap string string) : gmap Z string :=
  list_to_map (omap (λ '(k, secret), (λ i, (i, secret)) <$> decodeKey k) (map_to_list m)).

(** *** Connect *)

(** How a call of [Connect] ends: it returns [nil] or an error, or it stays
    blocked in a send on a full channel. *)
Inductive ending : Type :=
| Return (err : option error)
| BlockedOnSend.

(** [upgraded] tells whether [WebsocketUpgrader.Upgrade] was called;
    [session] is the session as the call leaves it. *)
Record connected : Type := {
  ret : ending;
  upgraded : bool;
  session : execWs
}.

(** [for i, c := range s.conns { if i != -1 && c == nil { return nil } }]
    finds or does not find such an entry, whatever the order. *)
Definition someUnattached (cs : gmap Z (option Conn)) : bool :=
  existsb (λ '(i, cn), negb (i =? -1) && bool_decide (cn = None)) (map_to_list cs).

(** The body of the [if secret == fdSecret]; [upgrade] is what the upgrader
    answers when it is called. *)
Definition attach (s : execWs) (fd : Z) (upgrade : sysres Conn) : connected :=
  match upgrade with
  | Err e => {| ret := Return (Some (ErrSys e)); upgraded := true; session := s |}
  | Ok conn =>
      let s1 := set_conns (<[fd := Some conn]> (conns s)) s in
      if fd =? -1 then
        match chanSend (controlConnected s1) with
        | Some ch =>
            {| ret := Return None; upgraded := true; session := set_controlConnected ch s1 |}
        | None => {| ret := BlockedOnSend; upgraded := true; session := s1 |}
        end
      else if someUnattached (conns s1) then
        {| ret := Return None; upgraded := true; session := s1 |}
      else
        match chanSend (allConnected s1) with
        | Some ch =>
            {| ret := Return None; upgraded := true; session := set_allConnected ch s1 |}
        | None => {| ret := BlockedOnSend; upgraded := true; session := s1 |}
        end
  end.

(** [for fd, fdSecret := range s.fds], then [return os.ErrPermission]. *)
Fixpoint connectLoop (s : execWs) (secret : string) (upgrade : sysres Conn)
  (pairs : list (Z * string)) : connected :=
  match pairs with
  | [] => {| ret := Return (Some ErrPermission); upgraded := false; session := s |}
  | (fd, fdSecret) :: rest =>
      if String.eqb secret fdSecret then attach s fd upgrade
      else connectLoop s secret upgrade rest
  end.

Definition Connect (s : execWs) (keys : list Z) (secret : string)
  (upgrade : sysres Conn) : connected :=
  connectLoop s secret upgrade (rangeMap (fds s) keys).

(** Modelled from the spec: the caller that turns the error of [Connect]
    into an HTTP status is not in these files; the comment above
    [return os.ErrPermission] and the document give 403 for it.  Other
    errors are internal errors. *)
Definition httpStatus (err : error) : Z :=
  match err with
  | ErrPermission => 403
  | _ => 500
  end.

(** *** Do: allocating the standard streams *)

(** An [*os.File] by its descriptor; [None] is the nil pointer, whose
    [Fd()] is the all-ones [uintptr]. *)
Definition File : Type := option Z.

Definition Fd (f : File) : Z :=
  match f with
  | Some n => n
  | None => 2 ^ 64 - 1
  end.

(** The calls of [Do] into [shared] that allocate descriptors. *)
Inductive syscall : Type :=
| CallOpenPty (uid gid : Z)
| CallPipe.

(** What [shared.OpenPty] and the successive [shared.Pipe] calls answer:
    a pair of files, the first of which the source stores in [ptys]. *)
Record Kernel : Type := {
  OpenPty : Z → Z → sysres (Z * Z);
  Pipe : nat → sysres (Z * Z)
}.

Record stdio : Type := {
  ptys : list File;
  ttys : list File;
  attachOptions : AttachOptions
}.

Definition set_fds (stdin stdout stderr : Z) (o : AttachOptions) : AttachOptions :=
  {| ClearEnv := ClearEnv o; Env := Env o; Cwd := Cwd o;
     StdinFd := stdin; StdoutFd := stdout; StderrFd := stderr |}.

(** [for i := 0; i < len(ttys); i++ { ptys[i], ttys[i], err = shared.Pipe() ... }]
    from index [i] on, [n] rounds left; the error of a failed call ends [Do]. *)
Fixpoint openPipes (k : Kernel) (n i : nat) : list syscall * sysres (list (Z * Z)) :=
  match n with
  | O => ([], Ok [])
  | S n' =>
      match Pipe k i with
      | Err e => ([CallPipe], Err e)
      | Ok p =>
          let '(calls, r) := openPipes k n' (S i) in
          (CallPipe :: calls,
           match r with
           | Ok ps => Ok (p :: ps)
           | Err e => Err e
           end)
      end
  end.

(** [Do] once [<-s.allConnected] has been received, up to the line before
    [controlExit := ...]:
    the allocation calls made, and either the files and the options or
    the error [Do] returns at once.  In interactive mode the error of
    [OpenPty] is not looked at. *)
Definition DoOpen (k : Kernel) (s : execWs) : list syscall * result stdio :=
  if interactive s then
    let '(pty, tty) :=
      match OpenPty k (rootUid s) (rootGid s) with
      | Ok (p, t) => (Some p, Some t)
      | Err _ => (None, None)
      end in
    ([CallOpenPty (rootUid s) (rootGid s)],
     Ok {| ptys := [pty]; ttys := [tty];
           attachOptions := set_fds (Fd tty) (Fd tty) (Fd tty) (options s) |})
  else
    let '(calls, r) := openPipes k 3 0 in
    (calls,
     match r with
     | Err e => Err (ErrSys e)
     | Ok ps =>
         let ptys := (λ p, Some (fst p)) <$> ps in
         let ttys := (λ p, Some (snd p)) <$> ps in
         Ok {| ptys := ptys; ttys := ttys;
               attachOptions :=
                 set_fds (Fd (default None (ptys !! 0%nat)))
                         (Fd (default None (ttys !! 1%nat)))
                         (Fd (default None (ttys !! 2%nat))) (options s) |}
     end).

(** *** Do in batch mode: the threads after the allocation

    The threads of a batch session are [Do] itself and the goroutines of
    indices 1 and 2 (the goroutine of index 0 feeds the child's stdin and
    never touches [stdEOF]).  [stdEOF] is made without capacity: a send and
    a receive on it happen together. *)

(** Where [Do] stands: in [runCommand]; before the three [ttys[i].Close()];
    at [<-stdEOF]; before the two closing loops; returned. *)
Inductive mainPc : Type :=
| AtRunCommand
| AtCloseTtys
| AtRecvEOF
| AtCleanup
| Returned.

(** Where the goroutine of an output index stands: waiting for
    [WebsocketSendStream] to finish; at [stdEOF <- true], its end of the
    pipe closed; over. *)
Inductive bridgePc : Type :=
| Copying
| AtSendEOF
| Finished.

(** One output stream: the bytes the child wrote that are still in the
    pipe, the bytes sent to the WebSocket, whether [ptys[i]] is open, and
    the goroutine. *)
Record outStream : Type := {
  pipeBuf : string;
  delivered : string;
  ptyOpen : bool;
  pc : bridgePc
}.

Record batch : Type := {
  main : mainPc;
  out1 : outStream;
  out2 : outStream
}.

Inductive outIdx : Type :=
| Stdout
| Stderr.

Definition out (i : outIdx) (st : batch) : outStream :=
  match i with
  | Stdout => out1 st
  | Stderr => out2 st
  end.

Definition set_out (i : outIdx) (o : outStream) (st : batch) : batch :=
  match i with
  | Stdout => {| main := main st; out1 := o; out2 := out2 st |}
  | Stderr => {| main := main st; out1 := out1 st; out2 := o |}
  end.

Definition set_main (m : mainPc) (st : batch) : batch :=
  {| main := m; out1 := out1 st; out2 := out2 st |}.

(** The write ends of the pipes are closed once the child is gone and [Do]
    has closed its own copies. *)
Definition writersClosed (st : batch) : bool :=
  match main st with
  | AtRunCommand | AtCloseTtys => false
  | _ => true
  end.

Inductive event : Type :=
| ChildWrite (i : outIdx) (data : string)
| ChildExit
| MainCloseTtys
| BridgeRead (i : outIdx)
| BridgeEOF (i : outIdx)
| BridgeReadError (i : outIdx)
| RecvEOF (i : outIdx)
| MainCleanup.

Definition isEmpty (s : string) : bool :=
  match s with
  | EmptyString => true
  | _ => false
  end.

(** One step of a batch session; [None] when the event cannot happen in
    the state.

    Modelled from the spec: [shared.WebsocketSendStream] is not in these
    files.  Following the document, it reads its file in chunks and sends
    each as a frame ([BridgeRead]), and on end of file or on a read error
    it finishes ([BridgeEOF], [BridgeReadError]); the goroutine then closes
    [ptys[i]] and stands at its send.  The steps of [Do] are those of the
    source: [ChildExit] is [runCommand] returning, [RecvEOF i] is the one
    [<-stdEOF] meeting the send of goroutine [i], [MainCleanup] is the two
    closing loops and the [return]. *)
Definition step (st : batch) (ev : event) : option batch :=
  match ev with
  | ChildWrite i data =>
      match main st with
      | AtRunCommand =>
          let o := out i st in
          Some (set_out i {| pipeBuf := pipeBuf o +:+ data; delivered := delivered o;
                             ptyOpen := ptyOpen o; pc := pc o |} st)
      | _ => None
      end
  | ChildExit =>
      match main st with
      | AtRunCommand => Some (set_main AtCloseTtys st)
      | _ => None
      end
  | MainCloseTtys =>
      match main st with
      | AtCloseTtys => Some (set_main AtRecvEOF st)
      | _ => None
      end
  | BridgeRead i =>
      let o := out i st in
      match pc o with
      | Copying =>
          if ptyOpen o && negb (isEmpty (pipeBuf o)) then
            Some (set_out i {| pipeBuf := EmptyString;
                               delivered := delivered o +:+ pipeBuf o;
                               ptyOpen := true; pc := Copying |} st)
          else None
      | _ => None
      end
  | BridgeEOF i =>
      let o := out i st in
      match pc o with
      | Copying =>
          if ptyOpen o && isEmpty (pipeBuf o) && writersClosed st then
            Some (set_out i {| pipeBuf := pipeBuf o; delivered := delivered o;
                               ptyOpen := false; pc := AtSendEOF |} st)
          else None
      | _ => None
      end
  | BridgeReadError i =>
      let o := out i st in
      match pc o with
      | Copying =>
          if negb (ptyOpen o) then
            Some (set_out i {| pipeBuf := pipeBuf o; delivered := delivered o;
                               ptyOpen := false; pc := AtSendEOF |} st)
          else None
      | _ => None
      end
  | RecvEOF i =>
      let o := out i st in
      match main st, pc o with
      | AtRecvEOF, AtSendEOF =>
          Some (set_main AtCleanup
                  (set_out i {| pipeBuf := pipeBuf o; delivered := delivered o;
                                ptyOpen := ptyOpen o; pc := Finished |} st))
      | _, _ => None
      end
  | MainCleanup =>
      match main st with
      | AtCleanup =>
          let close o := {| pipeBuf := pipeBuf o; delivered := delivered o;
                            ptyOpen := false; pc := pc o |} in
          Some {| main := Returned; out1 := close (out1 st); out2 := close (out2 st) |}
      | _ => None
      end
  end.

(** A schedule: the events in the order they happen. *)
Fixpoint run (st : batch) (evs : list event) : option batch :=
  match evs with
  | [] => Some st
  | ev :: rest =>
      match step st ev with
      | Some st' => run st' rest
      | None => None
      end
  end.

(** The session when [Do] enters [runCommand]: pipes empty and open, both
    goroutines started. *)
Definition started : batch :=
  let fresh := {| pipeBuf := EmptyString; delivered := EmptyString;
                  ptyOpen := true; pc := Copying |} in
  {| main := AtRunCommand; out1 := fresh; out2 := fresh |}.

(** The schedule of scenario S2 in which the stdout bridge wins: the child
    writes to both pipes and exits, [Do] closes its write ends, the stdout
    bridge drains its pipe, meets end of file and hands its signal to [Do],
    which cleans up and returns; the stderr bridge has not run yet. *)
Definition stdoutFirst : list event :=
  [ChildWrite Stdout "out"; ChildWrite Stderr "err"; ChildExit; MainCloseTtys;
   BridgeRead Stdout; BridgeEOF Stdout; RecvEOF Stdout; MainCleanup].

(** [Do] has returned its result. *)
Definition hasReturned (st : batch) : bool :=
  match main st with
  | Returned => true
  | _ => false
  end.

(** The goroutine of an output index is over: its bridge has finished and
    its signal was received. *)
Definition bridgeOver (i : outIdx) (st : batch) : bool :=
  match pc (out i st) with
  | Finished => true
  | _ => false
  end.

(** [Do] does wait for one signal: it is past [<-stdEOF] only when the
    goroutine of some output index is over. *)
Definition oneBridgeOver (st : batch) : Prop :=
  match main st with
  | AtCleanup | Returned => bridgeOver Stdout st = true ∨ bridgeOver Stderr st = true
  | _ => True
  end.

(** The document's reading of the end of a batch session: whenever [Do]
    has returned, the goroutines of both output indices are over. *)
Definition waitsForBothBridges : Prop :=
  ∀ evs st, run started evs = Some st → hasReturned st = true →
    bridgeOver Stdout st = true ∧ bridgeOver Stderr st = true.

(** *** containerExecPost *)

(** [commandPostContent], the decoded body.  [Environment] is the map in
    the order its range visits it; a nil map is the empty list. *)
Record commandPostContent : Type := {
  Command : list string;
  WaitForWS : bool;
  Interactive : bool;
  Environment : list (string * string)
}.

(** The request: [mux.Vars(r)["name"]] and what [ioutil.ReadAll(r.Body)]
    answers. *)
Record Request : Type := {
  varsName : string;
  readBody : sysres string
}.

(** The collaborators of the handler: the container loader, the JSON
    decoder into [commandPostContent], the successive answers of
    [shared.RandomCryptoString], and [lxc.DefaultAttachOptions]. *)
Record Daemon : Type := {
  newLxdContainer : string → sysres lxdContainer;
  Unmarshal : string → sysres commandPostContent;
  RandomCryptoString : nat → sysres string;
  DefaultAttachOptions : AttachOptions
}.

(** The closure [run] by what it captures. *)
Record runClosure : Type := {
  runContainer : lxcContainer;
  runCommand : list string;
  runOptions : AttachOptions
}.

Inductive Response : Type :=
| SmartError (err : error)
| BadRequest (err : error)
| InternalError (err : error)
| AsyncResponseWithWs (ws : execWs)
| AsyncResponse (run : runClosure).

(** [opts := lxc.DefaultAttachOptions; opts.ClearEnv = true; opts.Env = []string{}]
    and the loop over [post.Environment].  The format of an entry is the
    literal of the source and has its two operands, so [Sprintf] gives the
    text. *)
Definition postOptions (dflt : AttachOptions) (env : list (string * string)) : AttachOptions :=
  foldl (λ opts '(k, v),
           {| ClearEnv := ClearEnv opts;
              Env := Env opts ++ [default EmptyString (Sprintf "%s=%s" [k; v])];
              Cwd := if String.eqb k "HOME" then v else Cwd opts;
              StdinFd := StdinFd opts; StdoutFd := StdoutFd opts;
              StderrFd := StderrFd opts |})
        {| ClearEnv := true; Env := []; Cwd := Cwd dflt;
           StdinFd := StdinFd dflt; StdoutFd := StdoutFd dflt;
           StderrFd := StderrFd dflt |}
        env.

(** [ws.conns] as the handler fills it. *)
Definition initialConns (isInteractive : bool) : gmap Z (option Conn) :=
  let base : gmap Z (option Conn) := <[0 := None]> (<[-1 := None]> ∅) in
  if isInteractive then base else <[2 := None]> (<[1 := None]> base).

(** [for i := -1; i < len(ws.conns)-1; i++ { ws.fds[i], err = shared.RandomCryptoString() ... }]
    from index [i] on, [n] rounds left, [call] random strings drawn so far. *)
Fixpoint fillFds (rand : nat → sysres string) (n : nat) (i : Z) (call : nat)
  (acc : gmap Z string) : sysres (gmap Z string) :=
  match n with
  | O => Ok acc
  | S n' =>
      match rand call with
      | Err e => Err e
      | Ok secret => fillFds rand n' (i + 1) (S call) (<[i := secret]> acc)
      end
  end.

Definition containerExecPost (d : Daemon) (r : Request) : Response :=
  match newLxdContainer d (varsName r) with
  | Err e => SmartError (ErrSys e)
  | Ok ct =>
      if negb (Running (c ct)) then BadRequest (Errorf "Container is not running.")
      else
        match readBody r with
        | Err e => BadRequest (ErrSys e)
        | Ok buf =>
            match Unmarshal d buf with
            | Err e => BadRequest (ErrSys e)
            | Ok post =>
                let opts := postOptions (DefaultAttachOptions d) (Environment post) in
                if WaitForWS post then
                  let '(uid, gid) :=
                    match idmapset ct with
                    | Some idmap => ShiftIntoNs idmap 0 0
                    | None => (0, 0)
                    end in
                  let cs := initialConns (Interactive post) in
                  match fillFds (RandomCryptoString d) (size cs) (-1) 0 ∅ with
                  | Err e => InternalError (ErrSys e)
                  | Ok secrets =>
                      AsyncResponseWithWs
                        {| command := Command post; container := c ct;
                           rootUid := uid; rootGid := gid; options := opts;
                           conns := cs; allConnected := 0%nat;
                           controlConnected := 0%nat;
                           interactive := Interactive post; doneCh := 0%nat;
                           fds := secrets |}
                  end
                else
                  AsyncResponse {| runContainer := c ct; runCommand := Command post;
                                   runOptions := opts |}
            end
        end
  end.

(** *** Sessions of the scenarios *)

(** A batch session whose index 0 is attached to connection 7 and whose
    other indices are still free. *)
Definition halfAttached : execWs :=
  {| command := ["/bin/cat"];
     container := {| Running := true; InitPid := 4242 |};
     rootUid := 0; rootGid := 0;
     options := {| ClearEnv := true; Env := []; Cwd := "/";
                   StdinFd := 0; StdoutFd := 1; StderrFd := 2 |};
     conns := <[0 := Some 7%nat]> (initialConns false);
     allConnected := 0%nat; controlConnected := 0%nat;
     interactive := false; doneCh := 0%nat;
     fds := <[-1 := "secret-control"]> (<[0 := "secret-0"]>
              (<[1 := "secret-1"]> (<[2 := "secret-2"]> ∅))) |}.

(** A daemon for the scenarios: the one container [c1], running and
    without an idmap; a decoder that knows three bodies, named here by what
    their JSON text says; random strings that are told apart by the call
    that drew them. *)
Definition scenarioDaemon : Daemon :=
  {| newLxdContainer := λ n,
       if String.eqb n "c1" then Ok DevLxd.c1 else Err (SysErr "no such container");
     Unmarshal := λ buf,
       if String.eqb buf "interactive cat" then
         Ok {| Command := ["/bin/cat"]; WaitForWS := true; Interactive := true;
               Environment := [] |}
       else if String.eqb buf "batch sh" then
         Ok {| Command := ["/bin/sh"; "-c"; "echo out; echo err 1>&2"];
               WaitForWS := true; Interactive := false; Environment := [] |}
       else if String.eqb buf "empty argv" then
         Ok {| Command := []; WaitForWS := false; Interactive := false;
               Environment := [] |}
       else Err (SysErr "invalid character");
     RandomCryptoString := λ call, Ok ("secret-" +:+ Itoa (Z.of_nat call));
     DefaultAttachOptions :=
       {| ClearEnv := false; Env := []; Cwd := "/";
          StdinFd := 0; StdoutFd := 1; StderrFd := 2 |} |}.

Definition postTo (container body : string) : Request :=
  {| varsName := container; readBody := Ok body |}.

(** The session the handler makes for the interactive body. *)
Definition interactiveSession : execWs :=
  {| command := ["/bin/cat"];
     container := c DevLxd.c1;
     rootUid := 0; rootGid := 0;
     options := {| ClearEnv := true; Env := []; Cwd := "/";
                   StdinFd := 0; StdoutFd := 1; StderrFd := 2 |};
     conns := initialConns true;
     allConnected := 0%nat; controlConnected := 0%nat;
     interactive := true; doneCh := 0%nat;
     fds := <[0 := "secret-1"]> (<[-1 := "secret-0"]> ∅) |}.

(** A kernel that hands out fresh descriptors. *)
Definition scenarioKernel : Kernel :=
  {| OpenPty := λ _ _, Ok (10, 11);
     Pipe := λ i, Ok (20 + 2 * Z.of_nat i, 21 + 2 * Z.of_nat i) |}.

(** A kernel that opens a PTY for the owner 0:0 only. *)
Definition rootOnlyKernel : Kernel :=
  {| OpenPty := λ uid gid,
       if (uid =? 0) && (gid =? 0) then Ok (10, 11)
       else Err (SysErr "operation not permitted");
     Pipe := Pipe scenarioKernel |}.

(** The document's reading of a second attachment to an index, for one
    call: the call fails and the connection attached before stays. *)
Definition secondAttachRefused (s : execWs) (keys : list Z) (fd : Z)
  (secret : string) (upgrade : sysres Conn) : Prop :=
  ∀ old, fds s !! fd = Some secret → conns s !! fd = Some (Some old) →
    (∃ err, ret (Connect s keys secret upgrade) = Return (Some err))
    ∧ conns (session (Connect s keys secret upgrade)) !! fd = Some (Some old).

(** *** Do in interactive mode: the reader of the control channel *)

(** [websocket.CloseMessage]. *)
Definition CloseMessage : Z := 8.

(** What one round of the loop is answered: by [NextReader] a message type
    and perhaps an error, by [ioutil.ReadAll] the bytes of the message or
    an error. *)
Record frame : Type := {
  messageType : Z;
  nextReaderErr : option syserr;
  readAll : sysres string
}.

(** [shared.ContainerExecControl], whose field [Command] is here
    [ControlCommand]. *)
Record ContainerExecControl : Type := {
  ControlCommand : string;
  Args : gmap string string
}.

(** A call [shared.SetSize(fd, width, height)]. *)
Inductive resize : Type :=
| Resize (fd width height : Z).

(** What the reader has done when the frames are used up: the calls of
    [SetSize] in their order, and whether it has left its loop ([false]: it
    waits in [NextReader]). *)
Record controlRun : Type := {
  resizes : list resize;
  ended : bool
}.

(** [strconv.Atoi(command.Args[key])]; a missing key reads as the empty
    string. *)
Definition dimension (cmd : ContainerExecControl) (key : string) : sysres Z :=
  Atoi (default EmptyString (Args cmd !! key)).

Definition resized (call : resize) (run : controlRun) : controlRun :=
  {| resizes := call :: resizes run; ended := ended run |}.

(** The [for] loop of the reader.  [unmarshal] is [json.Unmarshal] into a
    [ContainerExecControl], [setSize] what [shared.SetSize] answers, [fd]
    the descriptor of [ptys[0]].  The error of [SetSize] lives in the block
    of the [if] and is only logged: the [err] tested at the end of the
    round is that of [ReadAll], which is [nil] there. *)
Fixpoint controlLoop (unmarshal : string → sysres ContainerExecControl)
  (setSize : Z → Z → Z → sysres unit) (fd : Z) (frames : list frame) : controlRun :=
  match frames with
  | [] => {| resizes := []; ended := false |}
  | f :: rest =>
      if messageType f =? CloseMessage then {| resizes := []; ended := true |}
      else
        match nextReaderErr f with
        | Some _ => {| resizes := []; ended := true |}
        | None =>
            match readAll f with
            | Err _ => {| resizes := []; ended := true |}
            | Ok buf =>
                match unmarshal buf with
                | Err _ => controlLoop unmarshal setSize fd rest
                | Ok cmd =>
                    if String.eqb (ControlCommand cmd) "window-resize" then
                      match dimension cmd "width" with
                      | Err _ => controlLoop unmarshal setSize fd rest
                      | Ok width =>
                          match dimension cmd "height" with
                          | Err _ => controlLoop unmarshal setSize fd rest
                          | Ok height =>
                              match setSize fd width height with
                              | Ok _ | Err _ =>
                                  resized (Resize fd width height)
                                          (controlLoop unmarshal setSize fd rest)
                              end
                          end
                      end
                    else controlLoop unmarshal setSize fd rest
                end
            end
        end
  end.

(** Which of the two channels of the [select] is ready first. *)
Inductive controlStart : Type :=
| ControlAttached
| SessionOver.

(** The goroutine: the [select], then the loop. *)
Definition controlReader (unmarshal : string → sysres ContainerExecControl)
  (setSize : Z → Z → Z → sysres unit) (fd : Z) (start : controlStart)
  (frames : list frame) : controlRun :=
  match start with
  | SessionOver => {| resizes := []; ended := true |}
  | ControlAttached => controlLoop unmarshal setSize fd frames
  end.

(** The frame ends the loop: a close message, or an error of [NextReader]
    or of [ReadAll]. *)
Definition closing (f : frame) : Prop :=
  messageType f = CloseMessage
  ∨ is_Some (nextReaderErr f)
  ∨ ∃ e, readAll f = Err e.

(** The frame is read whole and asks for the size [width] by [height]. *)
Definition asksResize (unmarshal : string → sysres ContainerExecControl)
  (f : frame) (width height : Z) : Prop :=
  messageType f ≠ CloseMessage ∧ nextReaderErr f = None
  ∧ ∃ buf cmd, readAll f = Ok buf ∧ unmarshal buf = Ok cmd
      ∧ ControlCommand cmd = "window-resize"
      ∧ dimension cmd "width" = Ok width ∧ dimension cmd "height" = Ok height.

(** The frame is read whole and asks nothing that can be done: it does
    not decode, or its command is not window-resize, or one of its
    dimensions is not a number. *)
Definition asksNothing (unmarshal : string → sysres ContainerExecControl)
  (f : frame) : Prop :=
  messageType f ≠ CloseMessage ∧ nextReaderErr f = None
  ∧ ∃ buf, readAll f = Ok buf
      ∧ ((∃ e, unmarshal buf = Err e)
         ∨ ∃ cmd, unmarshal buf = Ok cmd
             ∧ (ControlCommand cmd ≠ "window-resize"
                ∨ (∃ e, dimension cmd "width" = Err e)
                ∨ (∃ e, dimension cmd "height" = Err e))).

(** A decoder and frames for the scenarios: bodies are named by what
    their JSON text says. *)
Definition scenarioControl (buf : string) : sysres ContainerExecControl :=
  if String.eqb buf "resize 80x24" then
    Ok {| ControlCommand := "window-resize";
          Args := <["width" := "80"]> (<["height" := "24"]> ∅) |}
  else if String.eqb buf "resize wide" then
    Ok {| ControlCommand := "window-resize";
          Args := <["width" := "wide"]> (<["height" := "24"]> ∅) |}
  else if String.eqb buf "resize 132x43" then
    Ok {| ControlCommand := "window-resize";
          Args := <["width" := "132"]> (<["height" := "43"]> ∅) |}
  else Err (SysErr "invalid character").

Definition textFrame (buf : string) : frame :=
  {| messageType := 1; nextReaderErr := None; readAll := Ok buf |}.

Definition closeFrame : frame :=
  {| messageType := CloseMessage; nextReaderErr := None; readAll := Ok EmptyString |}.

(** A terminal whose size cannot be set. *)
Definition noTerminal (fd width height : Z) : sysres unit :=
  Err (SysErr "inappropriate ioctl for device").

(** *** Do in batch mode: what the one receive allows *)

(** The one value [Do] takes from [stdEOF] comes from one goroutine: before
    the receive no goroutine is over, after it exactly one is. *)
Definition oneSignalTaken (st : batch) : Prop :=
  match main st with
  | AtCleanup | Returned =>
      (bridgeOver Stdout st = true ∧ bridgeOver Stderr st = false)
      ∨ (bridgeOver Stdout st = false ∧ bridgeOver Stderr st = true)
  | _ => bridgeOver Stdout st = false ∧ bridgeOver Stderr st = false
  end.

(** A schedule in which both bridges drain their pipes before [Do] takes
    the signal of the stdout goroutine. *)
Definition bothDrained : list event :=
  [ChildWrite Stdout "out"; ChildWrite Stderr "err"; ChildExit; MainCloseTtys;
   BridgeRead Stdout; BridgeRead Stderr; BridgeEOF Stdout; BridgeEOF Stderr;
   RecvEOF Stdout; MainCleanup].

(** *** Runs of attachments *)

(** One successful call of [Connect]: the order of its range over [s.fds],
    the secret presented, the connection the upgrader answered. *)
Record attachment : Type := {
  rangeOrder : list Z;
  presented : string;
  answered : Conn
}.

(** The session after the calls, one after the other. *)
Fixpoint attachAll (s : execWs) (calls : list attachment) : execWs :=
  match calls with
  | [] => s
  | a :: rest =>
      attachAll (session (Connect s (rangeOrder a) (presented a) (Ok (answered a)))) rest
  end.

(** Index [i] is a standard stream of the session that has no connection
    yet. *)
Definition unattached (s : execWs) (i : Z) : Prop :=
  i ≠ -1 ∧ conns s !! i = Some None.

(** The signal is in step with the attachments: [allConnected] is empty
    while some standard stream has no connection, and holds one value once
    none is left. *)
Definition signalInStep (s : execWs) : Prop :=
  (allConnected s = 0%nat ∧ ∃ i, unattached s i)
  ∨ (allConnected s = 1%nat ∧ ∀ i, ¬ unattached s i).

(** The call is made with a secret of the session, its range visiting the
    whole secret table. *)
Definition admitted (s : execWs) (a : attachment) : Prop :=
  visits (fds s) (rangeOrder a) ∧ ∃ fd, fds s !! fd = Some (presented a).

(** No two indices of the session share a secret. *)
Definition distinctSecrets (s : execWs) : Prop :=
  ∀ i j secret, fds s !! i = Some secret → fds s !! j = Some secret → i = j.

(** The session the handler makes for the batch body. *)
Definition batchSession : execWs :=
  {| command := ["/bin/sh"; "-c"; "echo out; echo err 1>&2"];
     container := c DevLxd.c1;
     rootUid := 0; rootGid := 0;
     options := {| ClearEnv := true; Env := []; Cwd := "/";
                   StdinFd := 0; StdoutFd := 1; StderrFd := 2 |};
     conns := initialConns false;
     allConnected := 0%nat; controlConnected := 0%nat;
     interactive := false; doneCh := 0%nat;
     fds := <[2 := "secret-3"]> (<[1 := "secret-2"]>
              (<[0 := "secret-1"]> (<[-1 := "secret-0"]> ∅))) |}.

(** A client that attaches stderr, then stdin, then stdout, the range of
    each call going its own way. *)
Definition threeAttachments : list attachment :=
  [{| rangeOrder := [-1; 0; 1; 2]; presented := "secret-3"; answered := 32%nat |};
   {| rangeOrder := [2; 1; 0; -1]; presented := "secret-1"; answered := 30%nat |};
   {| rangeOrder := [0; 2; -1; 1]; presented := "secret-2"; answered := 31%nat |}].

End Exec.

(** * Properties *)

(** ** Strings and numbers *)

Lemma append_cons (ch : ascii) (s t : string) : String ch s +:+ t = String ch (s +:+ t).
Proof. reflexivity. Qed.

Lemma append_empty_l (t : string) : EmptyString +:+ t = t.
Proof. reflexivity. Qed.

Lemma append_empty_r (s : string) : s +:+ EmptyString = s.
Proof. induction s as [|ch s IH]; [reflexivity | now rewrite append_cons, IH]. Qed.

Lemma append_assoc (s1 s2 s3 : string) : (s1 +:+ s2) +:+ s3 = s1 +:+ (s2 +:+ s3).
Proof.
  induction s1 as [|ch s1 IH]; [reflexivity | now rewrite !append_cons, IH].
Qed.

(** Push appends to the right and through the characters of literals. *)
Ltac string_norm :=
  repeat (rewrite ?append_assoc, ?append_cons, ?append_empty_l, ?append_empty_r).

Lemma without_cons (ch x : ascii) (s : string) :
  without ch (String x s) ↔ x ≠ ch ∧ without ch s.
Proof. unfold without. simpl. apply (Forall_cons (λ y, y ≠ ch)). Qed.

Lemma without_app_l (ch : ascii) (a b : string) : without ch (a +:+ b) → without ch a.
Proof.
  induction a as [|x a IH]; [constructor|].
  rewrite append_cons, !without_cons. intros [? ?]. auto.
Qed.

Lemma without_app (ch : ascii) (a b : string) :
  without ch a → without ch b → without ch (a +:+ b).
Proof.
  induction a as [|x a IH]; [done|].
  rewrite append_cons, !without_cons. intros [? ?] ?. auto.
Qed.

(** A string written in the file holds no [ch]. *)
Ltac without_literal :=
  unfold without; simpl; repeat (constructor; [discriminate|]); constructor.

(** A character that is no percent sign is copied. *)
Lemma Sprintf_literal (ch : ascii) (rest : string) (args : list string) :
  ch ≠ "%"%char → Sprintf (String ch rest) args = String ch <$> Sprintf rest args.
Proof.
  intros Hne. destruct ch as [[] [] [] [] [] [] [] []]; try reflexivity.
  by destruct Hne.
Qed.

(** A format without a percent sign and without operands is printed as it
    is. *)
Lemma Sprintf_plain (format : string) :
  without "%" format → Sprintf format [] = Some format.
Proof.
  induction format as [|ch format IH]; [reflexivity|].
  intros [Hne H]%without_cons. rewrite Sprintf_literal by done. by rewrite IH.
Qed.

Module StrconvFacts.

Example Itoa_samples :
  Itoa 0 = "0" ∧ Itoa 2 = "2" ∧ Itoa (-1) = "-1" ∧ Itoa 4242 = "4242".
Proof. repeat split; reflexivity. Qed.

Example Atoi_samples :
  Atoi "4242" = Ok 4242 ∧ Atoi "+5" = Ok 5 ∧ Atoi "-0" = Ok 0 ∧ Atoi "007" = Ok 7
  ∧ Atoi EmptyString = Err (NumError EmptyString ErrSyntax)
  ∧ Atoi "-" = Err (NumError "-" ErrSyntax)
  ∧ Atoi "12a" = Err (NumError "12a" ErrSyntax)
  ∧ Atoi "9223372036854775808" = Err (NumError "9223372036854775808" ErrRange).
Proof. repeat split; reflexivity. Qed.

Example int32_samples :
  int32 4242 = 4242 ∧ int32 (2 ^ 31) = - 2 ^ 31 ∧ int32 (2 ^ 32 + 1) = 1.
Proof. repeat split; reflexivity. Qed.

Example Split_samples :
  Split "a b  c " (ascii_of_nat 32) = ["a"; "b"; EmptyString; "c"; EmptyString]
  ∧ Split EmptyString (ascii_of_nat 32) = [EmptyString]
  ∧ lastPart (Split "[lxc monitor] /var/lib/lxd/containers c1" (ascii_of_nat 32)) = "c1".
Proof. repeat split; reflexivity. Qed.

Example Sprintf_samples :
  Sprintf "%s=%s" ["HOME"; "/root"] = Some "HOME=/root"
  ∧ Sprintf "/1.0/config/%s" ["user.foo"] = Some "/1.0/config/user.foo"
  ∧ Sprintf "50%% of %v" ["all"] = Some "50% of all"
  ∧ Sprintf "100%" [] = Some "100%!(NOVERB)"
  ∧ Sprintf "load: 50%d" [] = Some "load: 50%!d(MISSING)"
  ∧ Sprintf "%s" ["a"; "b"; "c"] = Some "a%!(EXTRA string=b, string=c)"
  ∧ Sprintf "%5s" ["a"] = None
  ∧ Sprintf "%q" ["a"] = None.
Proof. repeat split; reflexivity. Qed.

Lemma to_int_nonnil (i : Z) : Z.to_int i ≠ Decimal.Pos Decimal.Nil ∧ Z.to_int i ≠ Decimal.Neg Decimal.Nil.
Proof.
  destruct i as [|p|p]; simpl; split; try discriminate;
    intros [= H]; by apply Unsigned.to_uint_nonnil in H.
Qed.

Lemma int_of_string_Itoa (i : Z) : NilZero.int_of_string (Itoa i) = Some (Z.to_int i).
Proof. unfold Itoa. apply NilZero.isi; apply to_int_nonnil. Qed.

Lemma Itoa_inj (i j : Z) : Itoa i = Itoa j → i = j.
Proof.
  intros H. apply DecimalZ.to_int_inj.
  assert (Some (Z.to_int i) = Some (Z.to_int j)) as [= ->]; [|reflexivity].
  by rewrite <- !int_of_string_Itoa, H.
Qed.

Lemma Itoa_not_control (i : Z) : Itoa i ≠ "control".
Proof.
  intros H. pose proof (int_of_string_Itoa i) as Hi. rewrite H in Hi. discriminate.
Qed.

Lemma int_of_string_plus (digits : string) :
  NilZero.int_of_string (String "+" digits) = None.
Proof.
  unfold NilZero.int_of_string. simpl.
  by destruct (NilEmpty.uint_of_string digits).
Qed.

(** Reading back what [Itoa] wrote. *)
Lemma Atoi_Itoa (i : Z) : minInt ≤ i ≤ maxInt → Atoi (Itoa i) = Ok i.
Proof.
  intros Hrange. unfold Atoi.
  pose proof (int_of_string_Itoa i) as Hi.
  destruct (Itoa i) as [|ch digits] eqn:Hs; [discriminate|].
  destruct (Ascii.eqb_spec ch "+") as [->|_].
  - by rewrite int_of_string_plus in Hi.
  - rewrite Hi, DecimalZ.of_to.
    destruct (Z.leb_spec minInt i), (Z.leb_spec i maxInt); simpl; [reflexivity|lia..].
Qed.

End StrconvFacts.

(** ** devlxd: the handlers *)

Module DevLxdFacts.
Import DevLxd Resolver DevLxdServer.

(** What the key handler hands to [hoistReq]. *)
Lemma configKeyGet_cases (ct : lxdContainer) (key : string) :
  (HasPrefix key "user." = false →
     configKeyGet ct key
     = {| resp_content := CString "not authorized"; code := 403; ctype := "raw" |})
  ∧ (HasPrefix key "user." = true → config ct !! key = None →
     configKeyGet ct key
     = {| resp_content := CString "not found"; code := 404; ctype := "raw" |})
  ∧ (∀ value, HasPrefix key "user." = true → config ct !! key = Some value →
     configKeyGet ct key
     = {| resp_content := CString value; code := 200; ctype := "raw" |}).
Proof.
  unfold configKeyGet.
  split; [|split].
  - intros ->. reflexivity.
  - intros -> ->. reflexivity.
  - intros value -> ->. reflexivity.
Qed.

Lemma Sprintf_metadata (n value : string) :
  Sprintf metadataFormat [n; n; value] = Some (header n +:+ value).
Proof.
  unfold header, newline.
  let f := eval vm_compute in metadataFormat in change metadataFormat with f.
  cbn. string_norm. reflexivity.
Qed.

(** What the meta-data handler hands to [hoistReq]: the three lines and
    the value. *)
Lemma metadataGet_content (ct : lxdContainer) :
  metadataGet ct
  = {| resp_content :=
         CString (header (name ct)
                  +:+ default EmptyString (config ct !! "user.meta-data"));
       code := 200; ctype := "raw" |}.
Proof. unfold metadataGet. cbn zeta. by rewrite Sprintf_metadata. Qed.

Lemma header_plain (n : string) : without "%" n → without "%" (header n).
Proof.
  intros Hn. unfold header, newline.
  repeat (apply without_app; [try done; without_literal|]). without_literal.
Qed.

(** The peer 300 of [hostPercent] is in [c1percent]. *)
Lemma hostPercent_300 :
  findContainerForPid hostPercent 10 300 = Some (Ok c1percent).
Proof. vm_compute. reflexivity. Qed.

(** C7.  GET /1.0/config/{key} on a resolved container, as the client
    gets it.  A key that does not begin with [user.] is answered by
    [http.Error] with 403 and [not authorized], a key that begins with
    [user.] and is absent by [http.Error] with 404 and [not found].  A key
    that is present is answered 200, but its value is not written as it
    is: it is given to [fmt.Fprintf] as the format.  A value without a
    percent sign comes out unchanged; the value [100%] of [c1percent] comes
    out as [100%!(NOVERB)] for its peer.  So the value is not served
    raw. *)
Theorem configKeyGet_value_is_the_format :
  (∀ ct key, HasPrefix key "user." = false →
     render (configKeyGet ct key)
     = {| contentType := Some "application/octet-stream";
          body := HttpError "not authorized" 403 |})
  ∧ (∀ ct key, HasPrefix key "user." = true → config ct !! key = None →
     render (configKeyGet ct key)
     = {| contentType := Some "application/octet-stream";
          body := HttpError "not found" 404 |})
  ∧ (∀ ct key value, HasPrefix key "user." = true → config ct !! key = Some value →
     render (configKeyGet ct key)
     = {| contentType := Some "application/octet-stream"; body := Fprintf value |}
     ∧ printed (render (configKeyGet ct key)) = Sprintf value []
     ∧ (without "%" value → printed (render (configKeyGet ct key)) = Some value))
  ∧ (HasPrefix "user.load" "user." = true
     ∧ config c1percent !! "user.load" = Some "100%"
     ∧ ∀ numErrorText,
         ∃ r, hoistReq numErrorText (λ ct, configKeyGet ct "user.load") hostPercent
                       {[1%nat := 300]} 1 10 = Some r
              ∧ printed r = Some "100%!(NOVERB)")
  ∧ ¬ valueServedRaw.
Proof.
  split; [|split; [|split; [|split]]].
  - intros ct key Hp. by rewrite (proj1 (configKeyGet_cases ct key) Hp).
  - intros ct key Hp Hnone.
    by rewrite (proj1 (proj2 (configKeyGet_cases ct key)) Hp Hnone).
  - intros ct key value Hp Hv.
    rewrite (proj2 (proj2 (configKeyGet_cases ct key)) value Hp Hv).
    split; [reflexivity|]. split; [reflexivity|].
    intros Hplain. by apply Sprintf_plain.
  - split; [reflexivity|]. split; [reflexivity|].
    intros numErrorText. eexists. split.
    + unfold hoistReq. rewrite lookup_singleton_eq, hostPercent_300. reflexivity.
    + reflexivity.
  - intros Hraw.
    specialize (Hraw c1percent "user.load" "100%" eq_refl eq_refl). discriminate.
Qed.

(** C8.  GET /1.0/meta-data on a resolved container named n, as the
    client gets it.  The handler makes the document of the three lines
    [#cloud-config], [instance-id: n], [local-hostname: n] and of the value
    of [user.meta-data], and [hoistReq] gives that document to
    [fmt.Fprintf] as the format.  When neither the name nor the value holds
    a percent sign the document comes out as it is, and the three lines
    alone when the value is absent or empty.  The value
    [password: 100%sure] of [c1percent] comes out as
    [password: 100%!s(MISSING)ure] for its peer.  So the value is not
    served verbatim. *)
Theorem metadataGet_document_is_the_format :
  (∀ ct,
     render (metadataGet ct)
     = {| contentType := Some "application/octet-stream";
          body := Fprintf ("#cloud-config" +:+ newline
                           +:+ "instance-id: " +:+ name ct +:+ newline
                           +:+ "local-hostname: " +:+ name ct +:+ newline
                           +:+ default EmptyString (config ct !! "user.meta-data")) |})
  ∧ (∀ ct value, without "%" (name ct) → without "%" value →
     config ct !! "user.meta-data" = Some value →
     printed (render (metadataGet ct))
     = Some ("#cloud-config" +:+ newline
             +:+ "instance-id: " +:+ name ct +:+ newline
             +:+ "local-hostname: " +:+ name ct +:+ newline +:+ value))
  ∧ (∀ ct, without "%" (name ct) →
     config ct !! "user.meta-data" = None
     ∨ config ct !! "user.meta-data" = Some EmptyString →
     printed (render (metadataGet ct))
     = Some ("#cloud-config" +:+ newline
             +:+ "instance-id: " +:+ name ct +:+ newline
             +:+ "local-hostname: " +:+ name ct +:+ newline))
  ∧ (name c1percent = "c1"
     ∧ config c1percent !! "user.meta-data" = Some "password: 100%sure"
     ∧ ∀ numErrorText,
         ∃ r, hoistReq numErrorText metadataGet hostPercent {[1%nat := 300]} 1 10 = Some r
              ∧ printed r
                = Some ("#cloud-config" +:+ newline +:+ "instance-id: c1" +:+ newline
                        +:+ "local-hostname: c1" +:+ newline
                        +:+ "password: 100%!s(MISSING)ure"))
  ∧ ¬ metadataServedVerbatim.
Proof.
  split; [|split; [|split; [|split]]].
  - intros ct. rewrite metadataGet_content. unfold header. string_norm. reflexivity.
  - intros ct value Hn Hv Hcfg. rewrite metadataGet_content, Hcfg.
    unfold render, printed. cbn.
    rewrite Sprintf_plain by (apply without_app; [by apply header_plain|done]).
    unfold header. string_norm. reflexivity.
  - intros ct Hn Hcfg. rewrite metadataGet_content.
    assert (default EmptyString (config ct !! "user.meta-data") = EmptyString) as ->
      by (by destruct Hcfg as [-> | ->]).
    unfold render, printed. cbn. rewrite append_empty_r.
    rewrite Sprintf_plain by by apply header_plain.
    unfold header. string_norm. reflexivity.
  - split; [reflexivity|]. split; [reflexivity|].
    intros numErrorText. eexists. split.
    + unfold hoistReq. rewrite lookup_singleton_eq, hostPercent_300. reflexivity.
    + vm_compute. reflexivity.
  - intros Hverb. specialize (Hverb c1percent). vm_compute in Hverb. discriminate.
Qed.

End DevLxdFacts.

(** ** Ranging over a map *)

Module RangeFacts.
Import Exec.

Lemma elem_of_rangeMap {V} (m : gmap Z V) (keys : list Z) (k : Z) (v : V) :
  (k, v) ∈ rangeMap m keys ↔ k ∈ keys ∧ m !! k = Some v.
Proof.
  unfold rangeMap. rewrite list_elem_of_omap. split.
  - intros (k' & Hin & Heq). destruct (m !! k') as [v'|] eqn:Hk; simplify_eq/=. done.
  - intros [Hin Hk]. exists k. rewrite Hk. done.
Qed.

Lemma visits_elem {V} (m : gmap Z V) (keys : list Z) (k : Z) :
  visits m keys → (k ∈ keys ↔ is_Some (m !! k)).
Proof.
  unfold visits. intros ->. rewrite list_elem_of_fmap. split.
  - intros ([k' v] & -> & Hin). apply elem_of_map_to_list in Hin. eauto.
  - intros [v Hv]. exists (k, v). split; [done|]. by apply elem_of_map_to_list.
Qed.

Lemma visits_NoDup {V} (m : gmap Z V) (keys : list Z) : visits m keys → NoDup keys.
Proof. unfold visits. intros ->. apply NoDup_fst_map_to_list. Qed.

Lemma rangeMap_cons {V} (m : gmap Z V) (k : Z) (keys : list Z) :
  rangeMap m (k :: keys)
  = match m !! k with
    | Some v => (k, v) :: rangeMap m keys
    | None => rangeMap m keys
    end.
Proof. unfold rangeMap. simpl. by destruct (m !! k). Qed.

Lemma NoDup_rangeMap {V} (m : gmap Z V) (keys : list Z) :
  NoDup keys → NoDup (rangeMap m keys).*1.
Proof.
  induction 1 as [|k keys Hnotin Hnodup IH]; [constructor|].
  rewrite rangeMap_cons. destruct (m !! k) as [v|]; [|done].
  simpl. constructor; [|done].
  intros ([k' v'] & Heq & [Hin _]%elem_of_rangeMap)%list_elem_of_fmap.
  simpl in Heq. by subst.
Qed.

(** Ranging over a map visits its pairs. *)
Lemma rangeMap_visits {V} (m : gmap Z V) (keys : list Z) (k : Z) (v : V) :
  visits m keys → ((k, v) ∈ rangeMap m keys ↔ m !! k = Some v).
Proof.
  intros Hvis. rewrite elem_of_rangeMap, (visits_elem _ _ _ Hvis).
  split; [by intros [_ ?] | eauto].
Qed.

Lemma halfAttached_visits : visits (fds halfAttached) [-1; 0; 1; 2].
Proof.
  unfold visits. vm_compute map_to_list. simpl.
  apply (bool_decide_unpack _). vm_compute. exact I.
Qed.

End RangeFacts.

(** ** The exec session: Connect *)

Module ConnectFacts.
Import Exec RangeFacts.

(** The loop returns [os.ErrPermission], untouched session, when no pair
    carries the secret. *)
Lemma connectLoop_no_match s secret upgrade pairs :
  (∀ k v, (k, v) ∈ pairs → v ≠ secret) →
  connectLoop s secret upgrade pairs
  = {| ret := Return (Some ErrPermission); upgraded := false; session := s |}.
Proof.
  induction pairs as [|[k v] pairs IH]; intros Hno; [reflexivity|]. simpl.
  destruct (String.eqb_spec secret v) as [->|_].
  - exfalso. apply (Hno k v); [left | reflexivity].
  - apply IH. intros k' v' Hin. apply (Hno k' v'). by right.
Qed.

(** The loop upgrades only in [attach], which it enters on a match. *)
Lemma connectLoop_upgraded s secret upgrade pairs :
  upgraded (connectLoop s secret upgrade pairs) = true → ∃ k, (k, secret) ∈ pairs.
Proof.
  induction pairs as [|[k v] pairs IH]; simpl; [discriminate|].
  destruct (String.eqb_spec secret v) as [->|_].
  - intros _. exists k. left.
  - intros H. destruct (IH H) as [k' Hk']. exists k'. by right.
Qed.

(** When one index only carries the secret, the loop attaches to it. *)
Lemma connectLoop_match s secret upgrade pairs fd :
  (fd, secret) ∈ pairs → (∀ k, (k, secret) ∈ pairs → k = fd) →
  connectLoop s secret upgrade pairs = attach s fd upgrade.
Proof.
  induction pairs as [|[k v] pairs IH]; intros Hin Huniq.
  - by apply elem_of_nil in Hin.
  - simpl. destruct (String.eqb_spec secret v) as [->|Hne].
    + rewrite (Huniq k); [reflexivity | left].
    + apply IH.
      * apply elem_of_cons in Hin as [Heq|Hin]; [congruence | done].
      * intros k' Hk'. apply Huniq. by right.
Qed.

Lemma attach_ok_session s fd conn :
  conns (session (attach s fd (Ok conn))) = <[fd := Some conn]> (conns s).
Proof.
  unfold attach. repeat case_match; reflexivity.
Qed.

Lemma attach_ok_ret s fd conn :
  ret (attach s fd (Ok conn)) = Return None ∨ ret (attach s fd (Ok conn)) = BlockedOnSend.
Proof.
  unfold attach. repeat case_match; auto.
Qed.

(** C4.  A connect call whose secret is none of the session's per-fd
    secrets returns [os.ErrPermission], which is answered 403, without
    calling the upgrader and leaving the session as it was; and whenever
    the upgrader is called, the secret is that of some index. *)
Theorem Connect_admission (s : execWs) (keys : list Z) (secret : string)
  (upgrade : sysres Conn) :
  ((∀ fd, fds s !! fd ≠ Some secret) →
     Connect s keys secret upgrade
     = {| ret := Return (Some ErrPermission); upgraded := false; session := s |}
     ∧ httpStatus ErrPermission = 403)
  ∧ (upgraded (Connect s keys secret upgrade) = true →
     ∃ fd, fds s !! fd = Some secret).
Proof.
  unfold Connect. split.
  - intros Hno. split; [|reflexivity].
    apply connectLoop_no_match. intros k v [_ Hk]%elem_of_rangeMap ->.
    by apply (Hno k).
  - intros [k [_ Hk]%elem_of_rangeMap]%connectLoop_upgraded. eauto.
Qed.

Lemma Connect_admission_witness :
  (Connect halfAttached [-1; 0; 1; 2] "guess" (Ok 9%nat)
   = {| ret := Return (Some ErrPermission); upgraded := false; session := halfAttached |}
   ∧ httpStatus ErrPermission = 403)
  ∧ ∃ fd, fds halfAttached !! fd = Some "secret-1".
Proof.
  split.
  - apply (proj1 (Connect_admission halfAttached [-1; 0; 1; 2] "guess" (Ok 9%nat))).
    intros fd. unfold halfAttached, fds.
    rewrite !lookup_insert, lookup_empty. repeat case_decide; discriminate.
  - apply (proj2 (Connect_admission halfAttached [-1; 0; 1; 2] "secret-1" (Ok 9%nat))).
    vm_compute. reflexivity.
Defined.

(** C2, as the code has it.  In a session whose secrets are pairwise
    distinct, a connect call presenting the secret of an index is matched
    to that index alone; when the upgrade succeeds the new connection is
    stored at that index, in place of whatever was attached there, the other
    indices keep theirs, and the call does not fail; when the upgrade fails
    the call returns the upgrader's error and the session is as before. *)
Theorem Connect_attaches (s : execWs) (keys : list Z) (fd : Z) (secret : string) :
  visits (fds s) keys →
  fds s !! fd = Some secret →
  (∀ k, fds s !! k = Some secret → k = fd) →
  (∀ conn,
     conns (session (Connect s keys secret (Ok conn))) = <[fd := Some conn]> (conns s)
     ∧ upgraded (Connect s keys secret (Ok conn)) = true
     ∧ (ret (Connect s keys secret (Ok conn)) = Return None
        ∨ ret (Connect s keys secret (Ok conn)) = BlockedOnSend))
  ∧ (∀ e,
     Connect s keys secret (Err e)
     = {| ret := Return (Some (ErrSys e)); upgraded := true; session := s |}).
Proof.
  intros Hvis Hfd Huniq.
  assert (Hloop : ∀ upgrade, Connect s keys secret upgrade = attach s fd upgrade).
  { intros upgrade. unfold Connect. apply connectLoop_match.
    - apply elem_of_rangeMap. split; [|done].
      apply (visits_elem _ _ _ Hvis). eauto.
    - intros k [_ Hk]%elem_of_rangeMap. by apply Huniq. }
  split.
  - intros conn. rewrite Hloop. split; [apply attach_ok_session|]. split.
    + unfold attach. repeat case_match; reflexivity.
    + apply attach_ok_ret.
  - intros e. rewrite Hloop. reflexivity.
Qed.

Lemma halfAttached_secret0_unique (k : Z) :
  fds halfAttached !! k = Some "secret-0" → k = 0.
Proof.
  unfold halfAttached, fds. rewrite !lookup_insert, lookup_empty.
  repeat case_decide; try discriminate; intros; subst; reflexivity.
Qed.

Lemma Connect_attaches_witness :
  (∀ conn,
     conns (session (Connect halfAttached [-1; 0; 1; 2] "secret-0" (Ok conn)))
     = <[0 := Some conn]> (conns halfAttached)
     ∧ upgraded (Connect halfAttached [-1; 0; 1; 2] "secret-0" (Ok conn)) = true
     ∧ (ret (Connect halfAttached [-1; 0; 1; 2] "secret-0" (Ok conn)) = Return None
        ∨ ret (Connect halfAttached [-1; 0; 1; 2] "secret-0" (Ok conn)) = BlockedOnSend))
  ∧ (∀ e,
     Connect halfAttached [-1; 0; 1; 2] "secret-0" (Err e)
     = {| ret := Return (Some (ErrSys e)); upgraded := true; session := halfAttached |}).
Proof.
  apply (Connect_attaches halfAttached [-1; 0; 1; 2] 0 "secret-0").
  - exact halfAttached_visits.
  - reflexivity.
  - exact halfAttached_secret0_unique.
Defined.

(** C2, as the document has it, fails: index 0 of [halfAttached] holds
    connection 7; a second call with the secret of index 0 returns [nil]
    and leaves connection 9 at index 0. *)
Lemma Connect_second_attach_not_refused :
  ret (Connect halfAttached [-1; 0; 1; 2] "secret-0" (Ok 9%nat)) = Return None
  ∧ conns halfAttached !! 0 = Some (Some 7%nat)
  ∧ conns (session (Connect halfAttached [-1; 0; 1; 2] "secret-0" (Ok 9%nat))) !! 0
    = Some (Some 9%nat)
  ∧ ¬ secondAttachRefused halfAttached [-1; 0; 1; 2] 0 "secret-0" (Ok 9%nat).
Proof.
  assert (Hret : ret (Connect halfAttached [-1; 0; 1; 2] "secret-0" (Ok 9%nat))
                 = Return None) by (vm_compute; reflexivity).
  split; [exact Hret|]. split; [reflexivity|]. split; [vm_compute; reflexivity|].
  intros Hclaim. destruct (Hclaim 7%nat) as [[err Herr] _]; [reflexivity..|].
  rewrite Hret in Herr. discriminate.
Qed.

End ConnectFacts.

(** ** The exec session: Metadata *)

Module MetadataFacts.
Import Exec RangeFacts StrconvFacts.

Global Instance fdKey_inj : Inj (=) (=) fdKey.
Proof.
  intros a b. unfold fdKey.
  destruct (Z.eqb_spec a (-1)), (Z.eqb_spec b (-1)); intros H.
  - congruence.
  - symmetry in H. by apply Itoa_not_control in H.
  - by apply Itoa_not_control in H.
  - by apply Itoa_inj.
Qed.

(** Assigning [m[f k] = v] for the pairs of a list without repeated keys,
    [f] injective: what the result holds. *)
Lemma foldl_insert_lookup (f : Z → string) `{!Inj (=) (=) f}
  (pairs : list (Z * string)) (j v : string) :
  NoDup pairs.*1 →
  foldl (λ (acc : gmap string string) '(k, x), <[f k := x]> acc) ∅ pairs !! j = Some v
  ↔ ∃ k, j = f k ∧ (k, v) ∈ pairs.
Proof.
  induction pairs as [|[k0 v0] pairs IH] using rev_ind; intros Hnodup.
  - simpl. rewrite lookup_empty. split; [discriminate|].
    intros (k & _ & Hin). by apply elem_of_nil in Hin.
  - rewrite foldl_snoc. rewrite fmap_app in Hnodup.
    apply NoDup_app in Hnodup as (Hnodup & Hfresh & _).
    rewrite lookup_insert_Some, (IH Hnodup). split.
    + intros [[<- <-] | [Hne (k & -> & Hin)]].
      * exists k0. split; [done|]. apply elem_of_app. right. left.
      * exists k. split; [done|]. apply elem_of_app. by left.
    + intros (k & -> & [Hin | Hin%list_elem_of_singleton]%elem_of_app).
      * right. split; [|eauto].
        intros Heq%(inj f). subst k0.
        apply (Hfresh k); [|simpl; left].
        apply list_elem_of_fmap. by exists (k, v).
      * left. by simplify_eq.
Qed.

(** The [fds] of the metadata is the secret table with its keys renamed
    by [fdKey], whatever the order of the range. *)
Lemma Metadata_kmap (s : execWs) (keys : list Z) :
  visits (fds s) keys → Metadata s keys = {[ "fds" := kmap fdKey (fds s) ]}.
Proof.
  intros Hvis. unfold Metadata. f_equal.
  apply map_eq. intros j. apply option_eq. intros v.
  rewrite (foldl_insert_lookup fdKey)
    by (apply NoDup_rangeMap; by eapply visits_NoDup).
  rewrite lookup_kmap_Some by apply _.
  by setoid_rewrite (rangeMap_visits _ _ _ _ Hvis).
Qed.

Lemma decodeKey_fdKey (fd : Z) : minInt ≤ fd ≤ maxInt → decodeKey (fdKey fd) = Some fd.
Proof.
  intros Hrange. unfold decodeKey, fdKey.
  destruct (Z.eqb_spec fd (-1)) as [->|Hne]; [reflexivity|].
  destruct (String.eqb_spec (Itoa fd) "control") as [H|_].
  - by apply Itoa_not_control in H.
  - by rewrite Atoi_Itoa.
Qed.

Lemma decodeFds_kmap (m : gmap Z string) :
  (∀ fd, is_Some (m !! fd) → minInt ≤ fd ≤ maxInt) →
  decodeFds (kmap fdKey m) = m.
Proof.
  intros Hrange. unfold decodeFds.
  rewrite <- (list_to_map_to_list m) at 2.
  apply list_to_map_proper.
  - rewrite map_to_list_kmap by apply _.
    assert (Hid : omap (λ '(k, secret), (λ i, (i, secret)) <$> decodeKey k)
                    (prod_map fdKey id <$> map_to_list m) = map_to_list m).
    { assert (Hall : ∀ p, p ∈ map_to_list m → minInt ≤ p.1 ≤ maxInt).
      { intros [k v] Hin%elem_of_map_to_list. apply Hrange. eauto. }
      induction (map_to_list m) as [|[k v] l IH]; [reflexivity|]. simpl.
      rewrite (decodeKey_fdKey k) by (apply (Hall (k, v)); left). simpl.
      f_equal. apply IH. intros p Hp. apply Hall. by right. }
    rewrite Hid. apply NoDup_fst_map_to_list.
  - rewrite map_to_list_kmap by apply _.
    assert (Hall : ∀ p, p ∈ map_to_list m → minInt ≤ p.1 ≤ maxInt).
    { intros [k v] Hin%elem_of_map_to_list. apply Hrange. eauto. }
    induction (map_to_list m) as [|[k v] l IH]; [reflexivity|]. simpl.
    rewrite (decodeKey_fdKey k) by (apply (Hall (k, v)); left). simpl.
    constructor. apply IH. intros p Hp. apply Hall. by right.
Qed.

End MetadataFacts.

(** ** The exec session: containerExecPost *)

Module PostFacts.
Import Exec.

(** What a response with WebSockets tells of the request. *)
Lemma containerExecPost_ws (d : Daemon) (r : Request) (ws : execWs) :
  containerExecPost d r = AsyncResponseWithWs ws →
  ∃ ct buf post secrets,
    newLxdContainer d (varsName r) = Ok ct
    ∧ readBody r = Ok buf
    ∧ Unmarshal d buf = Ok post
    ∧ WaitForWS post = true
    ∧ fillFds (RandomCryptoString d) (size (initialConns (Interactive post))) (-1) 0 ∅
      = Ok secrets
    ∧ interactive ws = Interactive post
    ∧ fds ws = secrets
    ∧ command ws = Command post
    ∧ (rootUid ws, rootGid ws)
      = match idmapset ct with
        | Some idmap => ShiftIntoNs idmap 0 0
        | None => (0, 0)
        end.
Proof.
  unfold containerExecPost. intros H.
  destruct (newLxdContainer d (varsName r)) as [ct|] eqn:Hct; [|discriminate].
  destruct (Running (c ct)); simpl in H; [|discriminate].
  destruct (readBody r) as [buf|] eqn:Hbuf; [|discriminate].
  destruct (Unmarshal d buf) as [post|] eqn:Hpost; [|discriminate].
  destruct (WaitForWS post) eqn:Hws; [|discriminate].
  destruct (match idmapset ct with Some idmap => ShiftIntoNs idmap 0 0 | None => (0, 0) end)
    as [uid gid] eqn:Hids.
  destruct (fillFds _ _ _ _ _) as [secrets|] eqn:Hfill; [|discriminate].
  injection H as <-. exists ct, buf, post, secrets. simpl. auto 10.
Qed.

Lemma size_initialConns (b : bool) : size (initialConns b) = if b then 2%nat else 4%nat.
Proof. destruct b; vm_compute; reflexivity. Qed.

(** The secret table of a new session: indices -1 and 0, and in batch
    mode 1 and 2 as well. *)
Lemma fillFds_initial (rand : nat → sysres string) (b : bool) (secrets : gmap Z string) :
  fillFds rand (size (initialConns b)) (-1) 0 ∅ = Ok secrets →
  ∃ s0 s1, secrets !! (-1) = Some s0 ∧ secrets !! 0 = Some s1
    ∧ if b then ∀ i, i ≠ -1 → i ≠ 0 → secrets !! i = None
      else ∃ s2 s3, secrets !! 1 = Some s2 ∧ secrets !! 2 = Some s3
                    ∧ ∀ i, i ≠ -1 → i ≠ 0 → i ≠ 1 → i ≠ 2 → secrets !! i = None.
Proof.
  rewrite size_initialConns. destruct b; simpl.
  - destruct (rand 0%nat) as [s0|]; [|discriminate].
    destruct (rand 1%nat) as [s1|]; [|discriminate].
    intros [= <-]. exists s0, s1.
    split; [by simplify_map_eq|]. split; [by simplify_map_eq|].
    intros i ? ?. by simplify_map_eq.
  - destruct (rand 0%nat) as [s0|]; [|discriminate].
    destruct (rand 1%nat) as [s1|]; [|discriminate].
    destruct (rand 2%nat) as [s2|]; [|discriminate].
    destruct (rand 3%nat) as [s3|]; [|discriminate].
    intros [= <-]. exists s0, s1.
    split; [by simplify_map_eq|]. split; [by simplify_map_eq|].
    exists s2, s3.
    split; [by simplify_map_eq|]. split; [by simplify_map_eq|].
    intros i ? ? ? ?. by simplify_map_eq.
Qed.

(** The secrets are all drawn when the draws succeed. *)
Lemma fillFds_ok (rand : nat → sysres string) (n : nat) :
  ∀ (i : Z) (call : nat) (acc : gmap Z string),
    (∀ k, (call ≤ k < call + n)%nat → ∃ secret, rand k = Ok secret) →
    ∃ secrets, fillFds rand n i call acc = Ok secrets.
Proof.
  induction n as [|n IH]; intros i call acc Hrand; simpl; [eauto|].
  destruct (Hrand call ltac:(lia)) as [secret ->].
  apply IH. intros k Hk. apply Hrand. lia.
Qed.

(** A request that waits for WebSockets on a running container, whose
    body decodes and whose secrets are drawn, is given a session. *)
Lemma containerExecPost_makes (d : Daemon) (r : Request) (ct : lxdContainer)
  (buf : string) (post : commandPostContent) :
  newLxdContainer d (varsName r) = Ok ct →
  Running (c ct) = true →
  readBody r = Ok buf →
  Unmarshal d buf = Ok post →
  WaitForWS post = true →
  (∀ k, (k < if Interactive post then 2 else 4)%nat →
     ∃ secret, RandomCryptoString d k = Ok secret) →
  ∃ ws, containerExecPost d r = AsyncResponseWithWs ws.
Proof.
  intros Hct Hrun Hbuf Hpost Hws Hrand. unfold containerExecPost.
  rewrite Hct, Hrun, Hbuf, Hpost, Hws. simpl.
  destruct (match idmapset ct with Some idmap => ShiftIntoNs idmap 0 0 | None => (0, 0) end)
    as [uid gid].
  destruct (fillFds_ok (RandomCryptoString d) (size (initialConns (Interactive post)))
              (-1) 0%nat ∅) as [secrets ->]; [|eauto].
  rewrite size_initialConns. intros k Hk. apply Hrand.
  destruct (Interactive post); lia.
Qed.

End PostFacts.

(** ** The exec session: what a new session advertises and owns *)

Module SessionFacts.
Import Exec RangeFacts StrconvFacts MetadataFacts PostFacts.

(** What the metadata of a session made by the handler holds: the keys
    [control] and [0], and the keys [1] and [2] in batch mode and not in
    interactive mode. *)
Lemma Metadata_of_new_session (d : Daemon) (r : Request) (ws : execWs)
  (wkeys : list Z) :
  containerExecPost d r = AsyncResponseWithWs ws →
  visits (fds ws) wkeys →
  ∃ m, Metadata ws wkeys = {[ "fds" := m ]}
    ∧ is_Some (m !! "control") ∧ is_Some (m !! "0")
    ∧ (interactive ws = true → m !! "1" = None ∧ m !! "2" = None)
    ∧ (interactive ws = false → is_Some (m !! "1") ∧ is_Some (m !! "2")).
Proof.
  intros (ct & buf & post & secrets & _ & _ & _ & _ & Hfill & Hint & Hfds & _)
         %containerExecPost_ws Hvis.
  exists (kmap fdKey (fds ws)).
  split; [by apply Metadata_kmap|].
  apply fillFds_initial in Hfill as (s0 & s1 & Hc & H0 & Hrest).
  rewrite <- Hfds in Hc, H0, Hrest. rewrite Hint.
  change "control" with (fdKey (-1)). change "0" with (fdKey 0).
  change "1" with (fdKey 1). change "2" with (fdKey 2).
  rewrite !lookup_kmap by apply _. rewrite Hc, H0.
  split; [eauto|]. split; [eauto|].
  destruct (Interactive post).
  + split; [|discriminate]. intros _. split; by apply Hrest.
  + split; [discriminate|]. intros _.
    destruct Hrest as (s2 & s3 & -> & -> & _). eauto.
Qed.

(** C6.  The advertised metadata holds, under the key [fds], the secret of
    index -1 under [control] and the secret of any other index under its
    decimal string, and nothing else; read back, it gives the secret table
    of the session.  A request that waits for WebSockets on a running
    container, whose body decodes and whose secrets are drawn, is answered
    with a session of its mode, and in the metadata of that session,
    whatever the order of the range, the keys [control] and [0] are there,
    and the keys [1] and [2] are there in batch mode and are not there in
    interactive mode. *)
Theorem Metadata_roundtrip (s : execWs) (keys : list Z)
  (d : Daemon) (r : Request) (ct : lxdContainer) (buf : string)
  (post : commandPostContent) :
  (visits (fds s) keys →
   (∀ fd, is_Some (fds s !! fd) → minInt ≤ fd ≤ maxInt) →
   ∃ m, Metadata s keys = {[ "fds" := m ]}
     ∧ (∀ secret, fds s !! (-1) = Some secret → m !! "control" = Some secret)
     ∧ (∀ i secret, i ≠ -1 → fds s !! i = Some secret → m !! Itoa i = Some secret)
     ∧ (∀ k secret, m !! k = Some secret →
          ∃ fd, fds s !! fd = Some secret
                ∧ k = if fd =? -1 then "control" else Itoa fd)
     ∧ decodeFds m = fds s)
  ∧ (newLxdContainer d (varsName r) = Ok ct →
     Running (c ct) = true →
     readBody r = Ok buf →
     Unmarshal d buf = Ok post →
     WaitForWS post = true →
     (∀ k, (k < if Interactive post then 2 else 4)%nat →
        ∃ secret, RandomCryptoString d k = Ok secret) →
     ∃ ws, containerExecPost d r = AsyncResponseWithWs ws
       ∧ interactive ws = Interactive post
       ∧ (∃ wkeys, visits (fds ws) wkeys)
       ∧ ∀ wkeys, visits (fds ws) wkeys →
           ∃ m, Metadata ws wkeys = {[ "fds" := m ]}
             ∧ is_Some (m !! "control") ∧ is_Some (m !! "0")
             ∧ (Interactive post = true → m !! "1" = None ∧ m !! "2" = None)
             ∧ (Interactive post = false → is_Some (m !! "1") ∧ is_Some (m !! "2"))).
Proof.
  split.
  - intros Hvis Hrange. exists (kmap fdKey (fds s)).
    split; [by apply Metadata_kmap|].
    split; [|split; [|split]].
    + intros secret H. change "control" with (fdKey (-1)).
      by rewrite lookup_kmap by apply _.
    + intros i secret Hne H.
      replace (Itoa i) with (fdKey i)
        by (unfold fdKey; by destruct (Z.eqb_spec i (-1))).
      by rewrite lookup_kmap by apply _.
    + intros k secret (fd & -> & Hfd)%lookup_kmap_Some; [|apply _].
      exists fd. split; [done|reflexivity].
    + by apply decodeFds_kmap.
  - intros Hct Hrun Hbuf Hpost Hws Hrand.
    destruct (containerExecPost_makes d r ct buf post) as [ws Hmade]; [done..|].
    exists ws. split; [done|].
    pose proof Hmade as (ct' & buf' & post' & secrets & _ & Hbuf' & Hpost' & _ & _
                         & Hint & _)%containerExecPost_ws.
    rewrite Hbuf in Hbuf'. injection Hbuf' as <-.
    rewrite Hpost in Hpost'. injection Hpost' as <-.
    split; [done|]. split.
    { exists (map_to_list (fds ws)).*1. by unfold visits. }
    intros wkeys Hvis. rewrite <- Hint.
    by apply (Metadata_of_new_session d r).
Qed.

Lemma halfAttached_fds_range (fd : Z) :
  is_Some (fds halfAttached !! fd) → minInt ≤ fd ≤ maxInt.
Proof.
  unfold halfAttached, fds. rewrite !lookup_insert, lookup_empty.
  repeat case_decide; subst; intros [x Hx]; try discriminate;
    unfold minInt, maxInt; lia.
Qed.

Lemma interactiveSession_made :
  containerExecPost scenarioDaemon (postTo "c1" "interactive cat")
  = AsyncResponseWithWs interactiveSession.
Proof. vm_compute. reflexivity. Qed.

Lemma interactiveSession_visits : visits (fds interactiveSession) [-1; 0].
Proof.
  unfold visits. vm_compute map_to_list. simpl.
  apply (bool_decide_unpack _). vm_compute. exact I.
Qed.

Lemma scenarioDaemon_draws (n k : nat) :
  (k < n)%nat → ∃ secret, RandomCryptoString scenarioDaemon k = Ok secret.
Proof. intros _. simpl. eauto. Qed.

Lemma Metadata_roundtrip_witness :
  (∃ m, Metadata halfAttached [-1; 0; 1; 2] = {[ "fds" := m ]}
        ∧ m !! "control" = Some "secret-control"
        ∧ decodeFds m = fds halfAttached)
  ∧ (∃ ws, containerExecPost scenarioDaemon (postTo "c1" "batch sh")
           = AsyncResponseWithWs ws
       ∧ interactive ws = false
       ∧ (∃ wkeys, visits (fds ws) wkeys)
       ∧ ∀ wkeys, visits (fds ws) wkeys →
           ∃ m, Metadata ws wkeys = {[ "fds" := m ]}
             ∧ is_Some (m !! "control") ∧ is_Some (m !! "0")
             ∧ is_Some (m !! "1") ∧ is_Some (m !! "2"))
  ∧ (∃ ws, containerExecPost scenarioDaemon (postTo "c1" "interactive cat")
           = AsyncResponseWithWs ws
       ∧ interactive ws = true
       ∧ (∃ wkeys, visits (fds ws) wkeys)
       ∧ ∀ wkeys, visits (fds ws) wkeys →
           ∃ m, Metadata ws wkeys = {[ "fds" := m ]}
             ∧ is_Some (m !! "control") ∧ is_Some (m !! "0")
             ∧ m !! "1" = None ∧ m !! "2" = None).
Proof.
  split; [|split].
  - destruct (proj1 (Metadata_roundtrip halfAttached [-1; 0; 1; 2] scenarioDaemon
                       (postTo "c1" "batch sh") DevLxd.c1 "batch sh"
                       {| Command := ["/bin/sh"; "-c"; "echo out; echo err 1>&2"];
                          WaitForWS := true; Interactive := false; Environment := [] |})
                halfAttached_visits halfAttached_fds_range)
      as (m & Hm & Hcontrol & _ & _ & Hdecode).
    exists m. split; [exact Hm|]. split; [|exact Hdecode].
    apply Hcontrol. reflexivity.
  - destruct (proj2 (Metadata_roundtrip halfAttached [-1; 0; 1; 2] scenarioDaemon
                       (postTo "c1" "batch sh") DevLxd.c1 "batch sh"
                       {| Command := ["/bin/sh"; "-c"; "echo out; echo err 1>&2"];
                          WaitForWS := true; Interactive := false; Environment := [] |})
                eq_refl eq_refl eq_refl eq_refl eq_refl (scenarioDaemon_draws 4))
      as (ws & Hmade & Hmode & Hsome & Hkeys).
    exists ws. split; [exact Hmade|]. split; [exact Hmode|]. split; [exact Hsome|].
    intros wkeys Hvis.
    destruct (Hkeys wkeys Hvis) as (m & Hm & Hcontrol & H0 & _ & Hbatch).
    exists m. split; [exact Hm|]. split; [exact Hcontrol|]. split; [exact H0|].
    apply Hbatch. reflexivity.
  - destruct (proj2 (Metadata_roundtrip halfAttached [-1; 0; 1; 2] scenarioDaemon
                       (postTo "c1" "interactive cat") DevLxd.c1 "interactive cat"
                       {| Command := ["/bin/cat"]; WaitForWS := true;
                          Interactive := true; Environment := [] |})
                eq_refl eq_refl eq_refl eq_refl eq_refl (scenarioDaemon_draws 2))
      as (ws & Hmade & Hmode & Hsome & Hkeys).
    exists ws. split; [exact Hmade|]. split; [exact Hmode|]. split; [exact Hsome|].
    intros wkeys Hvis.
    destruct (Hkeys wkeys Hvis) as (m & Hm & Hcontrol & H0 & Hint & _).
    exists m. split; [exact Hm|]. split; [exact Hcontrol|]. split; [exact H0|].
    apply Hint. reflexivity.
Defined.

(** C3, as the code has it.  On a running container, a body that decodes
    with an empty (or missing) argv is not answered BadRequest: the handler
    does not look at the argv and answers as for any other command, with an
    asynchronous operation whose command is empty (or, when the secrets
    cannot be drawn, with an internal error). *)
Theorem containerExecPost_empty_argv (d : Daemon) (r : Request)
  (ct : lxdContainer) (buf : string) (post : commandPostContent) :
  newLxdContainer d (varsName r) = Ok ct →
  Running (c ct) = true →
  readBody r = Ok buf →
  Unmarshal d buf = Ok post →
  Command post = [] →
  (∀ err, containerExecPost d r ≠ BadRequest err)
  ∧ (WaitForWS post = false →
     containerExecPost d r
     = AsyncResponse {| runContainer := c ct; runCommand := [];
                        runOptions := postOptions (DefaultAttachOptions d)
                                                  (Environment post) |})
  ∧ (WaitForWS post = true →
     (∃ ws, containerExecPost d r = AsyncResponseWithWs ws ∧ command ws = [])
     ∨ (∃ err, containerExecPost d r = InternalError err)).
Proof.
  intros Hct Hrun Hbuf Hpost Hcmd. unfold containerExecPost.
  rewrite Hct, Hrun, Hbuf, Hpost, Hcmd. simpl.
  destruct (WaitForWS post).
  - destruct (match idmapset ct with Some idmap => ShiftIntoNs idmap 0 0 | None => (0, 0) end)
      as [uid gid].
    destruct (fillFds _ _ _ _ _) as [secrets|e].
    + split; [discriminate|]. split; [discriminate|]. intros _. left. eauto.
    + split; [discriminate|]. split; [discriminate|]. intros _. right. eauto.
  - split; [discriminate|]. split; [reflexivity|discriminate].
Qed.

Lemma containerExecPost_empty_argv_witness :
  (∀ err, containerExecPost scenarioDaemon (postTo "c1" "empty argv") ≠ BadRequest err)
  ∧ containerExecPost scenarioDaemon (postTo "c1" "empty argv")
    = AsyncResponse {| runContainer := c DevLxd.c1; runCommand := [];
                       runOptions := {| ClearEnv := true; Env := []; Cwd := "/";
                                        StdinFd := 0; StdoutFd := 1; StderrFd := 2 |} |}.
Proof.
  destruct (containerExecPost_empty_argv scenarioDaemon (postTo "c1" "empty argv")
              DevLxd.c1 "empty argv"
              {| Command := []; WaitForWS := false; Interactive := false;
                 Environment := [] |})
    as (Hnot & Hasync & _); try reflexivity.
  split; [exact Hnot|]. apply Hasync. reflexivity.
Defined.

(** C3, as the document has it, fails: the body of the scenario decodes
    with an empty argv, the container runs, and the answer is an
    asynchronous operation, not BadRequest. *)
Lemma empty_argv_is_not_BadRequest :
  Unmarshal scenarioDaemon "empty argv"
  = Ok {| Command := []; WaitForWS := false; Interactive := false; Environment := [] |}
  ∧ ¬ ∃ err, containerExecPost scenarioDaemon (postTo "c1" "empty argv") = BadRequest err.
Proof.
  split; [reflexivity|]. intros [err H]. vm_compute in H. discriminate.
Qed.

(** C10.  A session made for a container without an idmap has [rootUid]
    and [rootGid] 0, and in interactive mode [Do] allocates its PTY by the
    one call [OpenPty(0, 0)]: whatever the kernel, the files [Do] goes on
    with are the two that the kernel answers to that call, the first as
    [ptys[0]] and the second as [ttys[0]], whose descriptor becomes the
    three standard descriptors of the command; and when the kernel refuses
    that call, [Do] goes on with the nil files, since the error is not
    looked at. *)
Theorem interactive_session_root (d : Daemon) (r : Request) (ct : lxdContainer)
  (ws : execWs) (k : Kernel) :
  newLxdContainer d (varsName r) = Ok ct →
  idmapset ct = None →
  containerExecPost d r = AsyncResponseWithWs ws →
  interactive ws = true →
  rootUid ws = 0 ∧ rootGid ws = 0
  ∧ (DoOpen k ws).1 = [CallOpenPty 0 0]
  ∧ (∀ pty tty, OpenPty k 0 0 = Ok (pty, tty) →
       (DoOpen k ws).2
       = Ok {| ptys := [Some pty]; ttys := [Some tty];
               attachOptions := set_fds tty tty tty (options ws) |})
  ∧ (∀ e, OpenPty k 0 0 = Err e →
       (DoOpen k ws).2
       = Ok {| ptys := [None]; ttys := [None];
               attachOptions :=
                 set_fds (2 ^ 64 - 1) (2 ^ 64 - 1) (2 ^ 64 - 1) (options ws) |}).
Proof.
  intros Hct Hnone (ct' & buf & post & secrets & Hct' & _ & _ & _ & _ & _ & _ & _ & Hids)
         %containerExecPost_ws Hint.
  rewrite Hct in Hct'. injection Hct' as <-. rewrite Hnone in Hids.
  injection Hids as Huid Hgid.
  split; [done|]. split; [done|].
  unfold DoOpen. rewrite Hint, Huid, Hgid.
  destruct (OpenPty k 0 0) as [[pty tty]|e0]; cbn [fst snd].
  - split; [reflexivity|]. split; [|discriminate].
    by intros pty' tty' [= <- <-].
  - split; [reflexivity|]. split; [discriminate|].
    by intros e _.
Qed.

Lemma interactive_session_root_witness :
  rootUid interactiveSession = 0 ∧ rootGid interactiveSession = 0
  ∧ (DoOpen rootOnlyKernel interactiveSession).1 = [CallOpenPty 0 0]
  ∧ (DoOpen rootOnlyKernel interactiveSession).2
    = Ok {| ptys := [Some 10]; ttys := [Some 11];
            attachOptions := set_fds 11 11 11 (options interactiveSession) |}.
Proof.
  destruct (interactive_session_root scenarioDaemon (postTo "c1" "interactive cat")
              DevLxd.c1 interactiveSession rootOnlyKernel
              eq_refl eq_refl interactiveSession_made eq_refl)
    as (Huid & Hgid & Hcall & Hfiles & _).
  split; [exact Huid|]. split; [exact Hgid|]. split; [exact Hcall|].
  apply Hfiles. reflexivity.
Defined.

End SessionFacts.

(** ** The exec session: Do in batch mode *)

Module DoFacts.
Import Exec.

(** Once [Do] has returned and closed [ptys[i]], no step delivers a byte
    of stream [i] any more. *)
Lemma step_after_return (i : outIdx) (st st' : batch) (ev : event) :
  main st = Returned → ptyOpen (out i st) = false →
  step st ev = Some st' →
  main st' = Returned ∧ ptyOpen (out i st') = false
  ∧ delivered (out i st') = delivered (out i st).
Proof.
  intros Hmain Hclosed Hstep.
  destruct ev as [j data| | |j|j|j|j| ]; simpl in Hstep; rewrite ?Hmain in Hstep;
    try discriminate.
  - destruct (pc (out j st)); try discriminate.
    destruct i, j; simpl in *; rewrite ?Hclosed in Hstep; try discriminate;
      destruct (ptyOpen _ && _); simplify_eq; simpl; auto.
  - destruct (pc (out j st)); try discriminate.
    destruct i, j; simpl in *; rewrite ?Hclosed in Hstep; try discriminate;
      destruct (ptyOpen _ && _ && _); simplify_eq; simpl; auto.
  - destruct (pc (out j st)); try discriminate.
    destruct (negb (ptyOpen (out j st))); try discriminate.
    destruct i, j; simplify_eq; simpl in *; auto.
Qed.

Lemma run_after_return (i : outIdx) (evs : list event) (st st' : batch) :
  main st = Returned → ptyOpen (out i st) = false →
  run st evs = Some st' →
  delivered (out i st') = delivered (out i st).
Proof.
  revert st. induction evs as [|ev evs IH]; intros st Hmain Hclosed Hrun; simpl in Hrun.
  - by simplify_eq.
  - destruct (step st ev) as [st1|] eqn:Hstep; [|discriminate].
    destruct (step_after_return i st st1 ev Hmain Hclosed Hstep) as (Hm & Hc & <-).
    by apply IH.
Qed.

Lemma step_oneBridgeOver (st st' : batch) (ev : event) :
  oneBridgeOver st → step st ev = Some st' → oneBridgeOver st'.
Proof.
  destruct st as [m [b1 d1 o1 p1] [b2 d2 o2 p2]].
  unfold oneBridgeOver, bridgeOver. simpl. intros Hinv Hstep.
  destruct ev as [j data| | |j|j|j|j| ]; try destruct j;
    destruct m, p1, p2; simpl in *;
    repeat (case_match; simplify_eq; simpl in * );
    simplify_eq; simpl; try done; auto; intuition discriminate.
Qed.

Lemma run_oneBridgeOver (evs : list event) (st st' : batch) :
  oneBridgeOver st → run st evs = Some st' → oneBridgeOver st'.
Proof.
  revert st. induction evs as [|ev evs IH]; intros st Hinv Hrun; simpl in Hrun.
  - by simplify_eq.
  - destruct (step st ev) as [st1|] eqn:Hstep; [|discriminate].
    eapply IH; [|done]. by eapply step_oneBridgeOver.
Qed.

(** C1 on the code.  In the schedule [stdoutFirst] of a batch session [Do]
    returns while the goroutine of index 2 is still copying: the bytes the
    child wrote to stderr are in the pipe, none was sent, the read end is
    closed, and whatever happens next none will be sent.  So [Do] does not
    wait for both output bridges. *)
Theorem Do_returns_before_stderr_bridge :
  ∃ st, run started stdoutFirst = Some st
    ∧ hasReturned st = true
    ∧ bridgeOver Stdout st = true
    ∧ bridgeOver Stderr st = false
    ∧ pipeBuf (out2 st) = "err"
    ∧ delivered (out2 st) = EmptyString
    ∧ (∀ evs st', run st evs = Some st' → delivered (out2 st') = EmptyString)
    ∧ ¬ waitsForBothBridges.
Proof.
  eexists. split; [vm_compute; reflexivity|].
  repeat (split; [reflexivity|]). split.
  - intros evs st' Hrun.
    apply (run_after_return Stderr) in Hrun; [exact Hrun|reflexivity..].
  - intros Hboth.
    destruct (Hboth stdoutFirst _ eq_refl eq_refl) as [_ Hstderr]. discriminate.
Qed.

End DoFacts.

(** ** devlxd: resolving the peer *)

Module ResolverFacts.
Import Resolver.

Example FindStringSubmatch_samples :
  FindStringSubmatch ("PPid:" +:+ tab +:+ "4242") = Some "4242"
  ∧ FindStringSubmatch "Name: PPid:  12 34" = Some "12"
  ∧ FindStringSubmatch "PPid: x" = Some EmptyString
  ∧ FindStringSubmatch "Pid: 7" = None.
Proof. repeat split; reflexivity. Qed.

Example scanStatus_samples :
  scanStatus (Split (statusOf "sh" 4242) lf) = PPidFound 4242
  ∧ scanStatus (Split ("Name: sh" +:+ nl +:+ "Pid: 7" +:+ nl) lf) = PPidAbsent
  ∧ scanStatus (Split ("Name: PPid:" +:+ nl +:+ "PPid: 7" +:+ nl) lf)
    = PPidError (NumError EmptyString ErrSyntax).
Proof. repeat split; reflexivity. Qed.

Section WithDaemon.

Variable d : Daemon.

(** More fuel does not change what the loop has found. *)
Lemma walk_mono (fuel fuel' : nat) (pid : Z) (out : walkOutcome) :
  walk d fuel pid = Some out → (fuel ≤ fuel')%nat → walk d fuel' pid = Some out.
Proof.
  revert fuel' pid. induction fuel as [|fuel IH]; intros fuel' pid H Hle; [discriminate|].
  destruct fuel' as [|fuel']; [lia|]. simpl in *.
  destruct (1 <? pid); [|done].
  destruct (ReadFile d (procPath pid "cmdline")) as [cmdline|]; [|done].
  destruct (HasPrefix cmdline sentinel); [done|].
  destruct (ReadFile d (procPath pid "status")) as [status|]; [|done].
  destruct (scanStatus (Split status lf)); [|done|]; apply IH; (done || lia).
Qed.

(** What the loop finds at the top of a climb, it finds from its foot. *)
Lemma walk_climbs (pid top : Z) (out : walkOutcome) :
  climbs d pid top → (∃ fuel, walk d fuel top = Some out) →
  ∃ fuel, walk d fuel pid = Some out.
Proof.
  induction 1 as [|pid ppid top cmdline status Hpid Hcmd Hmon Hst Hscan _ IH];
    intros Htop; [done|].
  destruct (IH Htop) as [fuel Hfuel]. exists (S fuel). simpl.
  destruct (Z.ltb_spec 1 pid); [|lia].
  by rewrite Hcmd, Hmon, Hst, Hscan.
Qed.

Lemma walk_enough (pid : Z) (out : walkOutcome) :
  (∃ fuel, walk d fuel pid = Some out) →
  ∃ fuel0, ∀ fuel, (fuel0 ≤ fuel)%nat → walk d fuel pid = Some out.
Proof. intros [fuel0 H]. exists fuel0. intros fuel Hle. by eapply walk_mono. Qed.

Lemma walk_monitor (top : Z) (cmdline : string) :
  1 < top → ReadFile d (procPath top "cmdline") = Ok cmdline →
  HasPrefix cmdline sentinel = true →
  walk d 1 top
  = Some (WalkReturn (lift (newLxdContainer d (lastPart (Split cmdline space))))).
Proof.
  intros Htop Hcmd Hmon. simpl.
  destruct (Z.ltb_spec 1 top); [|lia]. by rewrite Hcmd, Hmon.
Qed.

Lemma walk_done (top : Z) : top ≤ 1 → walk d 1 top = Some (WalkDone top).
Proof. intros Htop. simpl. destruct (Z.ltb_spec 1 top); [lia|done]. Qed.

(** The containers that miss are passed over. *)
Lemma scanContainers_misses (origPidNs : string) (before rest : list string) :
  Forall (misses d origPidNs) before →
  scanContainers d origPidNs (before ++ rest) = scanContainers d origPidNs rest.
Proof.
  induction 1 as [|n before (ct & pidNs & Hload & Hlink & Hne) _ IH]; [done|].
  simpl. rewrite Hload, Hlink.
  destruct (String.eqb_spec origPidNs pidNs); [congruence|done].
Qed.

Lemma scanContainers_none (origPidNs : string) (containers : list string) :
  scanContainers d origPidNs containers = Err pidNotInContainerErr
  ↔ Forall (misses d origPidNs) containers.
Proof.
  split.
  - induction containers as [|n containers IH]; simpl; [constructor|].
    destruct (newLxdContainer d n) as [ct|] eqn:Hload; [|discriminate].
    destruct (Readlink d _) as [pidNs|] eqn:Hlink; [|discriminate].
    destruct (String.eqb_spec origPidNs pidNs) as [|Hne]; [discriminate|].
    intros H. constructor; [|by apply IH].
    exists ct, pidNs. auto.
  - intros H. rewrite <- (app_nil_r containers).
    by rewrite scanContainers_misses.
Qed.

(** A [return] inside the loop never carries [pidNotInContainerErr]. *)
Lemma walk_return (fuel : nat) (pid : Z) (r : result lxdContainer) :
  walk d fuel pid = Some (WalkReturn r) → r ≠ Err pidNotInContainerErr.
Proof.
  revert pid. induction fuel as [|fuel IH]; intros pid; simpl; [discriminate|].
  destruct (1 <? pid); [|discriminate].
  destruct (ReadFile d (procPath pid "cmdline")) as [cmdline|]; [|by intros [= <-]].
  destruct (HasPrefix cmdline sentinel).
  { intros [= <-]. by destruct (newLxdContainer d _). }
  destruct (ReadFile d (procPath pid "status")) as [status|]; [|by intros [= <-]].
  destruct (scanStatus (Split status lf)); [apply IH|by intros [= <-]|apply IH].
Qed.

(** From the loop to the whole function. *)
Lemma find_of_walk_return (pid top : Z) (r : result lxdContainer) :
  climbs d pid top → walk d 1 top = Some (WalkReturn r) →
  ∃ fuel0, ∀ fuel, (fuel0 ≤ fuel)%nat → findContainerForPid d fuel pid = Some r.
Proof.
  intros Hclimb Htop.
  destruct (walk_enough pid (WalkReturn r)) as [fuel0 H0];
    [apply (walk_climbs pid top); eauto|].
  exists fuel0. intros fuel Hle. unfold findContainerForPid. by rewrite H0.
Qed.

Lemma find_of_walk_done (pid top : Z) :
  climbs d pid top → top ≤ 1 →
  ∃ fuel0, ∀ fuel, (fuel0 ≤ fuel)%nat →
    findContainerForPid d fuel pid = Some (fallback d pid).
Proof.
  intros Hclimb Htop.
  destruct (walk_enough pid (WalkDone top)) as [fuel0 H0].
  { apply (walk_climbs pid top); [done|]. exists 1%nat. by apply walk_done. }
  exists fuel0. intros fuel Hle. unfold findContainerForPid. by rewrite H0.
Qed.

End WithDaemon.

(** The two steps as the loop takes them.  Let the loop get from the peer
    to [top]: every process on the way is above 1, is no monitor, and has
    a status whose first line that holds the text PPid: gives a number
    that parses, the number the loop goes to next ([climbs]).  If [top] is
    a monitor (its command line begins with the sentinel), the answer is
    what loading the container named by the text after the last space of
    that command line gives; spaces alone separate.  If [top] is not above
    1, the answer is the first listed container whose init has the
    PID-namespace link of the peer, the ones listed before it loading and
    differing; and it is [pidNotInContainerErr] when all listed containers
    load and differ.  In each case the loop needs only finitely many
    rounds. *)
Theorem findContainerForPid_two_steps (d : Daemon) (pid top : Z) :
  climbs d pid top →
  (∀ cmdline,
     1 < top → ReadFile d (procPath top "cmdline") = Ok cmdline →
     HasPrefix cmdline sentinel = true →
     ∃ fuel0, ∀ fuel, (fuel0 ≤ fuel)%nat →
       findContainerForPid d fuel pid
       = Some (lift (newLxdContainer d (lastPart (Split cmdline space)))))
  ∧ (∀ origPidNs (before : list string) n (after : list string) ct,
     top ≤ 1 → Readlink d (procPath pid "ns/pid") = Ok origPidNs →
     dbListContainers d = Ok (before ++ n :: after)%list →
     Forall (misses d origPidNs) before →
     newLxdContainer d n = Ok ct →
     Readlink d (procPath (InitPid (c ct)) "ns/pid") = Ok origPidNs →
     ∃ fuel0, ∀ fuel, (fuel0 ≤ fuel)%nat →
       findContainerForPid d fuel pid = Some (Ok ct))
  ∧ (∀ origPidNs containers,
     top ≤ 1 → Readlink d (procPath pid "ns/pid") = Ok origPidNs →
     dbListContainers d = Ok containers →
     Forall (misses d origPidNs) containers →
     ∃ fuel0, ∀ fuel, (fuel0 ≤ fuel)%nat →
       findContainerForPid d fuel pid = Some (Err pidNotInContainerErr)).
Proof.
  intros Hclimb. split; [|split].
  - intros cmdline Htop Hcmd Hmon.
    apply (find_of_walk_return d pid top); [done|]. by apply walk_monitor.
  - intros origPidNs before n after ct Htop Hns Hdb Hmiss Hload Hlink.
    destruct (find_of_walk_done d pid top Hclimb Htop) as [fuel0 H0].
    exists fuel0. intros fuel Hle. rewrite (H0 fuel Hle). f_equal.
    unfold fallback. rewrite Hns, Hdb, scanContainers_misses by done.
    simpl. by rewrite Hload, Hlink, String.eqb_refl.
  - intros origPidNs containers Htop Hns Hdb Hmiss.
    destruct (find_of_walk_done d pid top Hclimb Htop) as [fuel0 H0].
    exists fuel0. intros fuel Hle. rewrite (H0 fuel Hle). f_equal.
    unfold fallback. rewrite Hns, Hdb. by apply scanContainers_none.
Qed.

Lemma host_climbs_300 : climbs host 300 100.
Proof.
  apply (climbs_up host 300 4242 100 "/bin/sh" (statusOf "sh" 4242));
    [lia|reflexivity..|].
  apply (climbs_up host 4242 100 100 "/sbin/init" (statusOf "init" 100));
    [lia|reflexivity..|].
  apply climbs_here.
Qed.

Lemma host_climbs_400 (d : Daemon) :
  ReadFile d = ReadFile host → climbs d 400 1.
Proof.
  intros Hfs.
  apply (climbs_up d 400 1 1 "/bin/bash" (statusOf "bash" 1));
    [lia|rewrite Hfs; reflexivity|reflexivity|rewrite Hfs; reflexivity|reflexivity|].
  apply climbs_here.
Qed.

Lemma hostAllRunning_c0_misses (origPidNs : string) :
  origPidNs ≠ "pid:[4026532100]" → misses hostAllRunning origPidNs "c0".
Proof.
  intros Hne. eexists _, "pid:[4026532100]".
  split; [reflexivity|]. split; [reflexivity|congruence].
Qed.

Lemma findContainerForPid_two_steps_witness :
  (∃ fuel0, ∀ fuel, (fuel0 ≤ fuel)%nat →
     findContainerForPid host fuel 300 = Some (Ok DevLxd.c1))
  ∧ (∃ fuel0, ∀ fuel, (fuel0 ≤ fuel)%nat →
     findContainerForPid hostAllRunning fuel 400 = Some (Ok DevLxd.c1))
  ∧ (∃ fuel0, ∀ fuel, (fuel0 ≤ fuel)%nat →
     findContainerForPid hostAllRunning fuel 1 = Some (Err pidNotInContainerErr)).
Proof.
  split; [|split].
  - apply (proj1 (findContainerForPid_two_steps host 300 100 host_climbs_300)
             "[lxc monitor] /var/lib/lxd/containers c1"); [lia|reflexivity..].
  - apply (proj1 (proj2 (findContainerForPid_two_steps hostAllRunning 400 1
                           (host_climbs_400 hostAllRunning eq_refl)))
             "pid:[4026532201]" ["c0"] "c1" [] DevLxd.c1);
      [lia|reflexivity|reflexivity| |reflexivity|reflexivity].
    constructor; [|constructor]. by apply hostAllRunning_c0_misses.
  - apply (proj2 (proj2 (findContainerForPid_two_steps hostAllRunning 1 1
                           (climbs_here hostAllRunning 1)))
             "pid:[4026531836]" ["c0"; "c1"]); [lia|reflexivity|reflexivity|].
    constructor; [by apply hostAllRunning_c0_misses|].
    constructor; [|constructor].
    exists DevLxd.c1, "pid:[4026532201]".
    split; [reflexivity|]. split; [reflexivity|discriminate].
Defined.

(** The name of a monitor is not its last piece between white space: on
    [hostTab] the monitor's command line ends in a tab and [c1]; its last
    piece between white space is [c1], which loads, but the code looks for
    a container named by all the text after the last space, tab included,
    and finds none. *)
Lemma findContainerForPid_not_whitespace_token :
  finalWhitespaceToken ("[lxc monitor] /var/lib/lxd/containers" +:+ tab +:+ "c1") = "c1"
  ∧ newLxdContainer hostTab "c1" = Ok DevLxd.c1
  ∧ findContainerForPid hostTab 1 100 = Some (Err (ErrSys (SysErr "no such container")))
  ∧ ¬ monitorStepAsDocumented hostTab 100.
Proof.
  split; [reflexivity|]. split; [reflexivity|]. split; [vm_compute; reflexivity|].
  intros Hdoc.
  destruct (Hdoc 100 ("[lxc monitor] /var/lib/lxd/containers" +:+ tab +:+ "c1"))
    as [fuel Hfuel]; [apply climbs_here|lia|reflexivity..|].
  destruct fuel as [|fuel]; [discriminate|].
  vm_compute in Hfuel. discriminate.
Qed.

Lemma hostSpoof_chain : parentChain hostSpoof 500 1.
Proof.
  apply (chain_up hostSpoof 500 1 1 "/bin/sh" (statusOf "PPid:100" 1));
    [lia|reflexivity..|].
  apply chain_here.
Qed.

Lemma hostSpoof_climbs : climbs hostSpoof 500 100.
Proof.
  apply (climbs_up hostSpoof 500 100 100 "/bin/sh" (statusOf "PPid:100" 1));
    [lia|reflexivity..|].
  apply climbs_here.
Qed.

(** [findContainerForPid] has one answer. *)
Lemma resolves_functional (d : Daemon) (pid : Z) (r r' : result lxdContainer) :
  resolves d pid r → resolves d pid r' → r = r'.
Proof.
  intros [fuel0 H0] [fuel1 H1].
  specialize (H0 (fuel0 `max` fuel1)%nat ltac:(lia)).
  specialize (H1 (fuel0 `max` fuel1)%nat ltac:(lia)).
  congruence.
Qed.

(** C5.  The first step does not walk the parent chain.  On [hostSpoof]
    process 500 is a child of process 1 and no process of its parent chain
    is a monitor; its PID-namespace link is that of the init of [c0], the
    first container listed, so the two steps of the document give [c0].
    But the name of process 500 is PPid:100, the kernel writes the name on
    the first line of the status, and the loop takes its number from the
    first line that holds PPid: anywhere: it goes to process 100, the
    monitor of [c1], and the answer is [c1]. *)
Theorem findContainerForPid_follows_name_line :
  parentChain hostSpoof 500 1
  ∧ Readlink hostSpoof (procPath 500 "ns/pid") = Ok "pid:[4026532100]"
  ∧ dbListContainers hostSpoof = Ok ["c0"; "c1"]
  ∧ newLxdContainer hostSpoof "c0" = Ok c0
  ∧ Readlink hostSpoof (procPath (InitPid (c c0)) "ns/pid") = Ok "pid:[4026532100]"
  ∧ parentOf (Split (statusOf "PPid:100" 1) lf) = PPidFound 1
  ∧ scanStatus (Split (statusOf "PPid:100" 1) lf) = PPidFound 100
  ∧ resolves hostSpoof 500 (Ok DevLxd.c1)
  ∧ ¬ resolves hostSpoof 500 (Ok c0)
  ∧ ¬ fallbackStepAsDocumented hostSpoof 500.
Proof.
  assert (resolves hostSpoof 500 (Ok DevLxd.c1)) as Hc1.
  { apply (find_of_walk_return hostSpoof 500 100 _ hostSpoof_climbs).
    vm_compute. reflexivity. }
  assert (¬ resolves hostSpoof 500 (Ok c0)) as Hc0.
  { intros H. pose proof (resolves_functional _ _ _ _ Hc1 H) as Heq.
    vm_compute in Heq. discriminate. }
  split; [exact hostSpoof_chain|]. do 6 (split; [reflexivity|]).
  split; [exact Hc1|]. split; [exact Hc0|].
  intros Hdoc. apply Hc0.
  apply (Hdoc 1 "pid:[4026532100]" [] "c0" ["c1"] c0);
    [exact hostSpoof_chain|lia|reflexivity|reflexivity|constructor|reflexivity..].
Qed.

(** C9.  In the fallback, when the containers listed before one load and
    differ from the peer, and that one fails to load or the link of its
    init fails to read, the answer is that error, whatever is listed
    after it; and [pidNotInContainerErr] is the answer only when the link
    of the peer reads, the list is had, and every listed container loads,
    has its link read and differs. *)
Theorem fallback_aborts (d : Daemon) (pid : Z) :
  (∀ top origPidNs (before : list string) n (after : list string) e,
     climbs d pid top → top ≤ 1 →
     Readlink d (procPath pid "ns/pid") = Ok origPidNs →
     dbListContainers d = Ok (before ++ n :: after)%list →
     Forall (misses d origPidNs) before →
     (newLxdContainer d n = Err e
      ∨ ∃ ct, newLxdContainer d n = Ok ct
              ∧ Readlink d (procPath (InitPid (c ct)) "ns/pid") = Err e) →
     ∃ fuel0, ∀ fuel, (fuel0 ≤ fuel)%nat →
       findContainerForPid d fuel pid = Some (Err (ErrSys e)))
  ∧ (∀ fuel,
     findContainerForPid d fuel pid = Some (Err pidNotInContainerErr) →
     ∃ origPidNs containers,
       Readlink d (procPath pid "ns/pid") = Ok origPidNs
       ∧ dbListContainers d = Ok containers
       ∧ Forall (misses d origPidNs) containers).
Proof.
  split.
  - intros top origPidNs before n after e Hclimb Htop Hns Hdb Hmiss Hfail.
    destruct (find_of_walk_done d pid top Hclimb Htop) as [fuel0 H0].
    exists fuel0. intros fuel Hle. rewrite (H0 fuel Hle). f_equal.
    unfold fallback. rewrite Hns, Hdb, scanContainers_misses by done. simpl.
    destruct Hfail as [-> | (ct & -> & ->)]; reflexivity.
  - intros fuel. unfold findContainerForPid.
    destruct (walk d fuel pid) as [[r|top]|] eqn:Hwalk; [| |discriminate].
    { intros [= ->]. by apply walk_return in Hwalk. }
    intros [= Hfb]. unfold fallback in Hfb.
    destruct (Readlink d (procPath pid "ns/pid")) as [origPidNs|]; [|discriminate].
    destruct (dbListContainers d) as [containers|]; [|discriminate].
    exists origPidNs, containers. split; [done|]. split; [done|].
    by apply scanContainers_none.
Qed.

Lemma fallback_aborts_witness :
  (∃ fuel0, ∀ fuel, (fuel0 ≤ fuel)%nat →
     findContainerForPid host fuel 400 = Some (Err (ErrSys noent)))
  ∧ (∃ origPidNs containers,
       Readlink hostAllRunning (procPath 1 "ns/pid") = Ok origPidNs
       ∧ dbListContainers hostAllRunning = Ok containers
       ∧ Forall (misses hostAllRunning origPidNs) containers).
Proof.
  split.
  - apply (proj1 (fallback_aborts host 400) 1 "pid:[4026532201]" [] "c0" ["c1"] noent);
      [apply (host_climbs_400 host eq_refl)|lia|reflexivity|reflexivity|constructor|].
    right. exists (stoppedContainer "c0"). split; reflexivity.
  - apply (proj2 (fallback_aborts hostAllRunning 1) 1%nat). vm_compute. reflexivity.
Defined.

End ResolverFacts.

(** ** devlxd: more on resolving the peer *)

Module ResolverMore.
Import Resolver ResolverFacts.

(** A loop that cannot leave the top of a climb cannot leave its foot. *)
Lemma walk_stuck_climbs (d : Daemon) (pid top : Z) :
  climbs d pid top → (∀ fuel, walk d fuel top = None) → ∀ fuel, walk d fuel pid = None.
Proof.
  induction 1 as [|pid ppid top cmdline status Hpid Hcmd Hmon Hst Hscan _ IH];
    intros Htop; [done|].
  intros [|fuel]; [done|]. simpl.
  destruct (Z.ltb_spec 1 pid); [|lia].
  rewrite Hcmd, Hmon, Hst, Hscan. by apply IH.
Qed.

(** The loop never ends on a process above 1 that is no monitor and whose
    status has no parent line: the walk from any process below it is given
    no answer, whatever the number of rounds. *)
Theorem walk_never_returns (d : Daemon) (pid top : Z) (cmdline status : string) :
  climbs d pid top →
  1 < top →
  ReadFile d (procPath top "cmdline") = Ok cmdline →
  HasPrefix cmdline sentinel = false →
  ReadFile d (procPath top "status") = Ok status →
  scanStatus (Split status lf) = PPidAbsent →
  ∀ fuel, findContainerForPid d fuel pid = None.
Proof.
  intros Hclimb Htop Hcmd Hmon Hst Hscan fuel.
  unfold findContainerForPid.
  rewrite (walk_stuck_climbs d pid top Hclimb); [done|].
  clear fuel. intros fuel. induction fuel as [|fuel IH]; [done|]. simpl.
  destruct (Z.ltb_spec 1 top); [|lia].
  by rewrite Hcmd, Hmon, Hst, Hscan.
Qed.

Lemma hostBroken_climbs_604 : climbs hostBroken 604 603.
Proof.
  apply (climbs_up hostBroken 604 603 603 "/bin/d" (statusOf "d" 603));
    [lia|reflexivity..|].
  apply climbs_here.
Qed.

Lemma walk_never_returns_witness :
  findContainerForPid hostBroken 2 604 = None
  ∧ findContainerForPid hostBroken 5000 604 = None.
Proof.
  split;
    apply (walk_never_returns hostBroken 604 603 "/bin/c" ("Name:" +:+ tab +:+ "c" +:+ nl)).
  all: try reflexivity; try lia.
  - exact hostBroken_climbs_604.
  - exact hostBroken_climbs_604.
Defined.

(** A failed read on the way up is the answer: the command line that does
    not read, the status that does not read, and the first parent line whose
    number does not parse each end the resolution with that error, and the
    fallback is not tried. *)
Theorem walk_errors (d : Daemon) (pid top : Z) :
  climbs d pid top →
  1 < top →
  (∀ e, ReadFile d (procPath top "cmdline") = Err e →
     resolves d pid (Err (ErrSys e)))
  ∧ (∀ cmdline e,
     ReadFile d (procPath top "cmdline") = Ok cmdline →
     HasPrefix cmdline sentinel = false →
     ReadFile d (procPath top "status") = Err e →
     resolves d pid (Err (ErrSys e)))
  ∧ (∀ cmdline status e,
     ReadFile d (procPath top "cmdline") = Ok cmdline →
     HasPrefix cmdline sentinel = false →
     ReadFile d (procPath top "status") = Ok status →
     scanStatus (Split status lf) = PPidError e →
     resolves d pid (Err (ErrSys e))).
Proof.
  intros Hclimb Htop.
  assert (Hlt : (1 <? top) = true) by (by apply Z.ltb_lt).
  split; [|split].
  - intros e Hcmd. apply (find_of_walk_return d pid top); [done|].
    simpl. by rewrite Hlt, Hcmd.
  - intros cmdline e Hcmd Hmon Hst. apply (find_of_walk_return d pid top); [done|].
    simpl. by rewrite Hlt, Hcmd, Hmon, Hst.
  - intros cmdline status e Hcmd Hmon Hst Hscan.
    apply (find_of_walk_return d pid top); [done|].
    simpl. by rewrite Hlt, Hcmd, Hmon, Hst, Hscan.
Qed.

Lemma walk_errors_witness :
  resolves hostBroken 600 (Err (ErrSys noent))
  ∧ resolves hostBroken 601 (Err (ErrSys noent))
  ∧ resolves hostBroken 602 (Err (ErrSys (NumError EmptyString ErrSyntax))).
Proof.
  split; [|split].
  - apply (proj1 (walk_errors hostBroken 600 600 (climbs_here _ _) ltac:(lia))).
    reflexivity.
  - apply (proj1 (proj2 (walk_errors hostBroken 601 601 (climbs_here _ _) ltac:(lia)))
             "/bin/a"); reflexivity.
  - apply (proj2 (proj2 (walk_errors hostBroken 602 602 (climbs_here _ _) ltac:(lia)))
             "/bin/b"
             ("Name:" +:+ tab +:+ "PPid:" +:+ nl +:+ "PPid:" +:+ tab +:+ "1" +:+ nl));
      reflexivity.
Defined.

Lemma prefix_split (pre s : string) :
  String.prefix pre s = true → s = pre +:+ dropChars (String.length pre) s.
Proof.
  revert s. induction pre as [|a pre IH]; intros s H; [reflexivity|].
  destruct s as [|b s]; [discriminate|]. simpl in H.
  destruct (ascii_dec a b) as [->|]; [|discriminate].
  rewrite append_cons. simpl. f_equal. by apply IH.
Qed.

Lemma prefix_append (pre s : string) : String.prefix pre (pre +:+ s) = true.
Proof.
  induction pre as [|a pre IH]; [by destruct s|].
  rewrite append_cons. simpl. by destruct (ascii_dec a a).
Qed.

Lemma takeDigits_allDigits (s : string) : allDigits (takeDigits s).
Proof.
  unfold allDigits. induction s as [|ch s IH]; simpl; [constructor|].
  destruct (isDigit ch) eqn:Hd; simpl; [by constructor|constructor].
Qed.

Lemma FindStringSubmatch_Some (line digits : string) :
  FindStringSubmatch line = Some digits →
  ∃ a rest, line = a +:+ "PPid:" +:+ rest ∧ digits = takeDigits (skipSpaces rest).
Proof.
  induction line as [|ch line IH].
  - simpl. discriminate.
  - intros H. cbn [FindStringSubmatch] in H.
    destruct (HasPrefix (String ch line) "PPid:") eqn:Hpre.
    + injection H as <-. exists EmptyString, (dropChars 5 (String ch line)).
      split; [|reflexivity]. rewrite append_empty_l.
      by apply (prefix_split "PPid:").
    + destruct (IH H) as (a & rest & -> & ->).
      exists (String ch a), rest. by rewrite append_cons.
Qed.

Lemma FindStringSubmatch_occurrence (a b : string) :
  FindStringSubmatch (a +:+ "PPid:" +:+ b) ≠ None.
Proof.
  induction a as [|ch a IH].
  - rewrite append_empty_l. destruct b; discriminate.
  - rewrite append_cons. cbn [FindStringSubmatch].
    by destruct (HasPrefix _ _).
Qed.

Lemma FindStringSubmatch_Some_digits (line digits : string) :
  FindStringSubmatch line = Some digits →
  (∃ a rest, line = a +:+ "PPid:" +:+ rest ∧ digits = takeDigits (skipSpaces rest))
  ∧ allDigits digits.
Proof.
  intros H. split; [by apply FindStringSubmatch_Some|].
  apply FindStringSubmatch_Some in H as (a & rest & _ & ->).
  apply takeDigits_allDigits.
Qed.

(** The pattern is searched anywhere in the line: a line gives no match
    exactly when the text PPid: occurs nowhere in it; and the group of a
    match is what follows some PPid: of the line and the white space after
    it, cut at the first character that is not a digit, so it holds digits
    only. *)
Theorem FindStringSubmatch_unanchored (line : string) :
  (FindStringSubmatch line = None ↔ ∀ a b, line ≠ a +:+ "PPid:" +:+ b)
  ∧ (∀ digits, FindStringSubmatch line = Some digits →
       (∃ a rest, line = a +:+ "PPid:" +:+ rest
                  ∧ digits = takeDigits (skipSpaces rest))
       ∧ allDigits digits).
Proof.
  split.
  - split.
    + intros Hnone a b ->. by apply (FindStringSubmatch_occurrence a b).
    + intros Hno. destruct (FindStringSubmatch line) as [digits|] eqn:H; [|done].
      apply FindStringSubmatch_Some in H as (a & rest & -> & _).
      by destruct (Hno a rest).
  - intros digits H. split; [by apply FindStringSubmatch_Some|].
    apply FindStringSubmatch_Some in H as (a & rest & _ & ->).
    apply takeDigits_allDigits.
Qed.

Lemma FindStringSubmatch_unanchored_witness :
  (∃ a rest, "Name: PPid:  12 34" = a +:+ "PPid:" +:+ rest
             ∧ "12" = takeDigits (skipSpaces rest))
  ∧ allDigits "12".
Proof.
  apply (proj2 (FindStringSubmatch_unanchored "Name: PPid:  12 34") "12").
  reflexivity.
Defined.

Lemma int32_range (x : Z) : - 2 ^ 31 ≤ int32 x < 2 ^ 31.
Proof.
  unfold int32. pose proof (Z.mod_pos_bound (x + 2 ^ 31) (2 ^ 32) ltac:(lia)). lia.
Qed.

Lemma int32_small (x : Z) : - 2 ^ 31 ≤ x < 2 ^ 31 → int32 x = x.
Proof. intros H. unfold int32. rewrite Z.mod_small; lia. Qed.

Lemma isDigit_not_sign (ch : ascii) :
  isDigit ch = true → Ascii.eqb ch "+" = false ∧ Ascii.eqb ch "-" = false.
Proof.
  intros H. split.
  - destruct (Ascii.eqb_spec ch "+") as [->|]; [discriminate|done].
  - destruct (Ascii.eqb_spec ch "-") as [->|]; [discriminate|done].
Qed.

(** A string of digits has no sign: what [Atoi] makes of it is not
    negative. *)
Lemma Atoi_digits (digits : string) (v : Z) :
  allDigits digits → Atoi digits = Ok v → 0 ≤ v ≤ maxInt.
Proof.
  unfold allDigits, Atoi. destruct digits as [|ch rest]; [discriminate|].
  simpl list_ascii_of_string. intros Hall. inversion Hall as [|? ? Hch _]; subst.
  destruct (isDigit_not_sign ch Hch) as [-> Hminus].
  unfold NilZero.int_of_string. rewrite Hminus.
  destruct (NilZero.uint_of_string (String ch rest)) as [u|]; simpl; [|discriminate].
  destruct (Z.leb_spec minInt (Z.of_uint u)); simpl; [|discriminate].
  destruct (Z.leb_spec (Z.of_uint u) maxInt); simpl; [|discriminate].
  intros [= <-]. split; [|done]. unfold Z.of_uint. apply N2Z.is_nonneg.
Qed.

(** The parent the inner loop finds: it comes from the first line of the
    status that holds PPid: anywhere, it is the number written there
    brought into [int32], so it is that number when the number is below
    2^31, and in any case it is within [int32]. *)
Theorem scanStatus_found (lines : list string) (p : Z) :
  scanStatus lines = PPidFound p →
  - 2 ^ 31 ≤ p < 2 ^ 31
  ∧ ∃ (before : list string) line (after : list string) digits v,
      lines = (before ++ line :: after)%list
      ∧ Forall (λ l, FindStringSubmatch l = None) before
      ∧ FindStringSubmatch line = Some digits
      ∧ Atoi digits = Ok v
      ∧ 0 ≤ v ≤ maxInt
      ∧ p = int32 v
      ∧ (v < 2 ^ 31 → p = v).
Proof.
  induction lines as [|l lines IH]; simpl; [discriminate|].
  destruct (FindStringSubmatch l) as [digits|] eqn:Hfind.
  - destruct (Atoi digits) as [v|] eqn:Hatoi; [|discriminate].
    intros [= <-]. split; [apply int32_range|].
    exists [], l, lines, digits, v.
    assert (Hv : 0 ≤ v ≤ maxInt).
    { apply (Atoi_digits digits); [|done].
      by apply (proj2 (FindStringSubmatch_Some_digits l digits Hfind)). }
    repeat split; try done; try lia.
    intros Hsmall. apply int32_small. lia.
  - intros H. destruct (IH H) as (Hrange & before & line & after & digits & v & -> & Hb & Hrest).
    split; [done|].
    exists (l :: before), line, after, digits, v. split; [done|].
    split; [by constructor|done].
Qed.

Lemma scanStatus_found_witness :
  - 2 ^ 31 ≤ 4242 < 2 ^ 31
  ∧ ∃ (before : list string) line (after : list string) digits v,
      Split (statusOf "sh" 4242) lf = (before ++ line :: after)%list
      ∧ Forall (λ l, FindStringSubmatch l = None) before
      ∧ FindStringSubmatch line = Some digits
      ∧ Atoi digits = Ok v
      ∧ 0 ≤ v ≤ maxInt
      ∧ 4242 = int32 v
      ∧ (v < 2 ^ 31 → 4242 = v).
Proof.
  apply (scanStatus_found (Split (statusOf "sh" 4242) lf) 4242). reflexivity.
Defined.

End ResolverMore.

(** ** The exec session: more on Connect *)

Module ConnectMore.
Import Exec RangeFacts ConnectFacts.

(** [Connect] either finds no index for the secret and leaves the session,
    or runs the attachment of an index that has the secret. *)
Lemma Connect_cases (s : execWs) (keys : list Z) (secret : string) (upgrade : sysres Conn) :
  Connect s keys secret upgrade
  = {| ret := Return (Some ErrPermission); upgraded := false; session := s |}
  ∨ ∃ fd, fds s !! fd = Some secret ∧ Connect s keys secret upgrade = attach s fd upgrade.
Proof.
  unfold Connect.
  assert (Hin : ∀ k v, (k, v) ∈ rangeMap (fds s) keys → fds s !! k = Some v).
  { intros k v [_ H]%elem_of_rangeMap. done. }
  induction (rangeMap (fds s) keys) as [|[k v] pairs IH]; [by left|]. simpl.
  destruct (String.eqb_spec secret v) as [->|_].
  - right. exists k. split; [apply Hin; left|reflexivity].
  - apply IH. intros k' v' H. apply Hin. by right.
Qed.

Lemma Connect_unique (s : execWs) (keys : list Z) (fd : Z) (secret : string)
  (upgrade : sysres Conn) :
  visits (fds s) keys → fds s !! fd = Some secret →
  (∀ k, fds s !! k = Some secret → k = fd) →
  Connect s keys secret upgrade = attach s fd upgrade.
Proof.
  intros Hvis Hfd Huniq. unfold Connect. apply connectLoop_match.
  - apply elem_of_rangeMap. split; [|done]. apply (visits_elem _ _ _ Hvis). eauto.
  - intros k [_ Hk]%elem_of_rangeMap. by apply Huniq.
Qed.

Lemma attach_fields (s : execWs) (fd : Z) (upgrade : sysres Conn) :
  fds (session (attach s fd upgrade)) = fds s
  ∧ command (session (attach s fd upgrade)) = command s
  ∧ container (session (attach s fd upgrade)) = container s
  ∧ rootUid (session (attach s fd upgrade)) = rootUid s
  ∧ rootGid (session (attach s fd upgrade)) = rootGid s
  ∧ options (session (attach s fd upgrade)) = options s
  ∧ interactive (session (attach s fd upgrade)) = interactive s.
Proof. unfold attach. repeat case_match; simpl; auto 10. Qed.

Lemma attach_conns (s : execWs) (fd : Z) (upgrade : sysres Conn) :
  conns (session (attach s fd upgrade))
  = match upgrade with
    | Ok conn => <[fd := Some conn]> (conns s)
    | Err _ => conns s
    end.
Proof. unfold attach. repeat case_match; simpl; auto. Qed.

(** Whatever the secret, the range order and the upgrader's answer,
    [Connect] leaves the secret table, the command, the container, the root
    ids, the options and the mode of the session as they were, and in a
    session whose secrets are all for indices of [conns] it leaves the set
    of indices of [conns] as it was. *)
Theorem Connect_keeps (s : execWs) (keys : list Z) (secret : string)
  (upgrade : sysres Conn) :
  dom (fds s) ⊆ dom (conns s) →
  fds (session (Connect s keys secret upgrade)) = fds s
  ∧ command (session (Connect s keys secret upgrade)) = command s
  ∧ container (session (Connect s keys secret upgrade)) = container s
  ∧ rootUid (session (Connect s keys secret upgrade)) = rootUid s
  ∧ rootGid (session (Connect s keys secret upgrade)) = rootGid s
  ∧ options (session (Connect s keys secret upgrade)) = options s
  ∧ interactive (session (Connect s keys secret upgrade)) = interactive s
  ∧ dom (conns (session (Connect s keys secret upgrade))) = dom (conns s).
Proof.
  intros Hdom.
  destruct (Connect_cases s keys secret upgrade) as [-> | (fd & Hfd & ->)]; simpl.
  { auto 10. }
  destruct (attach_fields s fd upgrade) as (-> & -> & -> & -> & -> & -> & ->).
  repeat (split; [reflexivity|]).
  rewrite attach_conns. destruct upgrade as [conn|e]; [|done].
  rewrite dom_insert_L.
  apply subseteq_union_1_L, singleton_subseteq_l.
  apply Hdom. apply elem_of_dom. eauto.
Qed.

Lemma halfAttached_dom : dom (fds halfAttached) ⊆ dom (conns halfAttached).
Proof.
  apply (bool_decide_unpack _). vm_compute. exact I.
Qed.

Lemma Connect_keeps_witness :
  fds (session (Connect halfAttached [2; 1; 0; -1] "secret-2" (Ok 5%nat)))
  = fds halfAttached
  ∧ dom (conns (session (Connect halfAttached [2; 1; 0; -1] "secret-2" (Ok 5%nat))))
    = dom (conns halfAttached).
Proof.
  destruct (Connect_keeps halfAttached [2; 1; 0; -1] "secret-2" (Ok 5%nat)
              halfAttached_dom) as (H1 & _ & _ & _ & _ & _ & _ & H2).
  split; [exact H1|exact H2].
Defined.

Lemma someUnattached_spec (cs : gmap Z (option Conn)) :
  someUnattached cs = true ↔ ∃ i, i ≠ -1 ∧ cs !! i = Some None.
Proof.
  unfold someUnattached. rewrite existsb_exists. split.
  - intros ([i cn] & Hin & Hf). apply list_elem_of_In, elem_of_map_to_list in Hin.
    apply andb_true_iff in Hf as [Hi Hcn].
    apply negb_true_iff, Z.eqb_neq in Hi. apply bool_decide_eq_true in Hcn. subst.
    eauto.
  - intros (i & Hi & Hcs). exists (i, None). split.
    + by apply list_elem_of_In, elem_of_map_to_list.
    + apply andb_true_iff. split.
      * by apply negb_true_iff, Z.eqb_neq.
      * by apply bool_decide_eq_true.
Qed.

Lemma someUnattached_insert (cs : gmap Z (option Conn)) (fd : Z) (conn : Conn) :
  someUnattached (<[fd := Some conn]> cs) = true
  ↔ ∃ i, i ≠ -1 ∧ i ≠ fd ∧ cs !! i = Some None.
Proof.
  rewrite someUnattached_spec. split.
  - intros (i & Hi & Hl). exists i. split; [done|].
    destruct (decide (fd = i)) as [->|Hne].
    + rewrite lookup_insert_eq in Hl. discriminate.
    + rewrite lookup_insert_ne in Hl by done. auto.
  - intros (i & Hi & Hne & Hl). exists i. split; [done|].
    by rewrite lookup_insert_ne.
Qed.

Lemma chanSend_cases (ch : chan) :
  (ch = 0%nat ∧ chanSend ch = Some 1%nat) ∨ (ch ≠ 0%nat ∧ chanSend ch = None).
Proof. destruct ch as [|ch]; [left|right]; done. Qed.

(** Attaching a standard stream (an index other than -1) with a secret of
    its own and a successful upgrade never touches [controlConnected].
    While another standard stream has no connection the call returns [nil]
    and sends nothing.  When it was the last one, the call sends on
    [allConnected]: it returns [nil] if the channel was empty, and stays
    blocked in the send if the channel still held a value. *)
Theorem Connect_signals_all (s : execWs) (keys : list Z) (fd : Z) (secret : string)
  (conn : Conn) :
  visits (fds s) keys →
  fds s !! fd = Some secret →
  (∀ k, fds s !! k = Some secret → k = fd) →
  fd ≠ -1 →
  controlConnected (session (Connect s keys secret (Ok conn))) = controlConnected s
  ∧ ((∃ i, i ≠ -1 ∧ i ≠ fd ∧ conns s !! i = Some None) →
     ret (Connect s keys secret (Ok conn)) = Return None
     ∧ allConnected (session (Connect s keys secret (Ok conn))) = allConnected s)
  ∧ ((∀ i, i ≠ -1 → i ≠ fd → conns s !! i ≠ Some None) →
     (allConnected s = 0%nat →
        ret (Connect s keys secret (Ok conn)) = Return None
        ∧ allConnected (session (Connect s keys secret (Ok conn))) = 1%nat)
     ∧ (allConnected s ≠ 0%nat →
        ret (Connect s keys secret (Ok conn)) = BlockedOnSend
        ∧ allConnected (session (Connect s keys secret (Ok conn))) = allConnected s)).
Proof.
  intros Hvis Hfd Huniq Hne.
  rewrite (Connect_unique s keys fd secret (Ok conn) Hvis Hfd Huniq).
  unfold attach. apply Z.eqb_neq in Hne. rewrite Hne. simpl.
  destruct (someUnattached (<[fd:=Some conn]> (conns s))) eqn:Hsome.
  - apply someUnattached_insert in Hsome.
    split; [reflexivity|]. split; [done|].
    intros Hall. destruct Hsome as (i & Hi & Hif & Hl). by destruct (Hall i Hi Hif).
  - assert (Hnone : ¬ ∃ i, i ≠ -1 ∧ i ≠ fd ∧ conns s !! i = Some None).
    { intros H. apply (proj2 (someUnattached_insert (conns s) fd conn)) in H.
      congruence. }
    destruct (chanSend_cases (allConnected s)) as [[H0 ->] | [H0 ->]]; simpl.
    + split; [reflexivity|]. split; [by intros ?|]. intros _. split; [done|].
      intros ?. done.
    + split; [reflexivity|]. split; [by intros ?|]. intros _. split; [|done].
      intros ?. done.
Qed.

Lemma halfAttached_secret_unique (fd : Z) (secret : string) :
  fds halfAttached !! fd = Some secret →
  ∀ k, fds halfAttached !! k = Some secret → k = fd.
Proof.
  unfold halfAttached, fds. rewrite !lookup_insert, !lookup_empty.
  intros H k. rewrite !lookup_insert, !lookup_empty.
  repeat case_decide; subst; try discriminate; simplify_eq; try done.
Qed.

Lemma Connect_signals_all_witness :
  controlConnected (session (Connect halfAttached [-1; 0; 1; 2] "secret-1" (Ok 8%nat)))
  = controlConnected halfAttached
  ∧ ret (Connect halfAttached [-1; 0; 1; 2] "secret-1" (Ok 8%nat)) = Return None
  ∧ allConnected (session (Connect halfAttached [-1; 0; 1; 2] "secret-1" (Ok 8%nat)))
    = allConnected halfAttached.
Proof.
  destruct (Connect_signals_all halfAttached [-1; 0; 1; 2] 1 "secret-1" 8%nat)
    as (Hcontrol & Hsome & _).
  - exact halfAttached_visits.
  - reflexivity.
  - by apply halfAttached_secret_unique.
  - lia.
  - split; [exact Hcontrol|]. apply Hsome. exists 2. repeat split; try lia.
Defined.

(** Attaching the control channel (index -1) with a secret of its own and
    a successful upgrade stores the connection and never touches
    [allConnected], whatever the standard streams; it sends on
    [controlConnected], returning [nil] if that channel was empty and
    staying blocked in the send, the connection already replaced, if it
    still held a value. *)
Theorem Connect_control (s : execWs) (keys : list Z) (secret : string) (conn : Conn) :
  visits (fds s) keys →
  fds s !! (-1) = Some secret →
  (∀ k, fds s !! k = Some secret → k = -1) →
  allConnected (session (Connect s keys secret (Ok conn))) = allConnected s
  ∧ conns (session (Connect s keys secret (Ok conn))) = <[-1 := Some conn]> (conns s)
  ∧ (controlConnected s = 0%nat →
     ret (Connect s keys secret (Ok conn)) = Return None
     ∧ controlConnected (session (Connect s keys secret (Ok conn))) = 1%nat)
  ∧ (controlConnected s ≠ 0%nat →
     ret (Connect s keys secret (Ok conn)) = BlockedOnSend
     ∧ controlConnected (session (Connect s keys secret (Ok conn))) = controlConnected s).
Proof.
  intros Hvis Hfd Huniq.
  rewrite (Connect_unique s keys (-1) secret (Ok conn) Hvis Hfd Huniq).
  unfold attach. simpl.
  destruct (chanSend_cases (controlConnected s)) as [[H0 ->] | [H0 ->]]; simpl.
  - repeat split; try done.
  - repeat split; try done.
Qed.

Lemma Connect_control_witness :
  allConnected (session (Connect halfAttached [-1; 0; 1; 2] "secret-control" (Ok 6%nat)))
  = allConnected halfAttached
  ∧ ret (Connect halfAttached [-1; 0; 1; 2] "secret-control" (Ok 6%nat)) = Return None
  ∧ controlConnected
      (session (Connect halfAttached [-1; 0; 1; 2] "secret-control" (Ok 6%nat))) = 1%nat.
Proof.
  destruct (Connect_control halfAttached [-1; 0; 1; 2] "secret-control" 6%nat)
    as (Hall & _ & Hfirst & _).
  - exact halfAttached_visits.
  - reflexivity.
  - by apply halfAttached_secret_unique.
  - split; [exact Hall|]. by apply Hfirst.
Defined.

Lemma unattached_insert (s : execWs) (fd : Z) (conn : Conn) (i : Z) :
  unattached (set_conns (<[fd := Some conn]> (conns s)) s) i
  ↔ unattached s i ∧ i ≠ fd.
Proof.
  unfold unattached. simpl. split.
  - intros [Hi Hl]. destruct (decide (fd = i)) as [->|Hne].
    + rewrite lookup_insert_eq in Hl. discriminate.
    + rewrite lookup_insert_ne in Hl by done. auto.
  - intros [[Hi Hl] Hne]. split; [done|]. by rewrite lookup_insert_ne.
Qed.

(** One admitted call keeps the signal in step. *)
Lemma attach_in_step (s : execWs) (fd : Z) (conn : Conn) :
  signalInStep s →
  signalInStep (session (attach s fd (Ok conn)))
  ∧ ∀ i, unattached (session (attach s fd (Ok conn))) i ↔ unattached s i ∧ i ≠ fd.
Proof.
  intros Hstep. unfold attach.
  pose proof (unattached_insert s fd conn) as Hun.
  set (s1 := set_conns (<[fd:=Some conn]> (conns s)) s) in *.
  destruct (Z.eqb_spec fd (-1)) as [->|Hfd].
  - assert (Hsame : ∀ i, unattached s1 i ↔ unattached s i).
    { intros i. rewrite Hun. unfold unattached. split; [by intros [? _]|].
      intros [Hi Hl]. split; [done|]. exact Hi. }
    assert (Hs1 : signalInStep s1).
    { unfold signalInStep in *. change (allConnected s1) with (allConnected s).
      destruct Hstep as [[H0 [i Hi]] | [H1 Hnone]].
      - left. split; [done|]. exists i. by apply Hsame.
      - right. split; [done|]. intros i Hi. apply (Hnone i). by apply Hsame. }
    destruct (chanSend (controlConnected s1)); simpl; split; try done.
  - destruct (someUnattached (conns s1)) eqn:Hsome; simpl.
    + split; [|done].
      apply someUnattached_spec in Hsome as (i & Hi & Hl).
      assert (Hui : unattached s1 i) by done.
      unfold signalInStep. change (allConnected s1) with (allConnected s).
      destruct Hstep as [[H0 _] | [H1 Hnone]].
      * left. eauto.
      * destruct (Hnone i). by apply Hun in Hui as [? _].
    + assert (Hnone : ∀ i, ¬ unattached s1 i).
      { intros i [Hi Hl].
        assert (someUnattached (conns s1) = true); [|congruence].
        apply someUnattached_spec. eauto. }
      change (allConnected s1) with (allConnected s).
      destruct (chanSend_cases (allConnected s)) as [[H0 ->] | [H0 ->]]; simpl.
      * split; [|done]. right. split; [done|]. exact Hnone.
      * split; [|done]. right. split; [|exact Hnone].
        change (allConnected s1) with (allConnected s).
        destruct Hstep as [[? _] | [? _]]; [lia|done].
Qed.

Lemma attachAll_in_step (calls : list attachment) (s : execWs) :
  signalInStep s → distinctSecrets s → Forall (admitted s) calls →
  signalInStep (attachAll s calls)
  ∧ fds (attachAll s calls) = fds s
  ∧ ∀ i, unattached (attachAll s calls) i
         ↔ unattached s i ∧ ∀ a, a ∈ calls → fds s !! i ≠ Some (presented a).
Proof.
  revert s. induction calls as [|a calls IH]; intros s Hstep Hdist Hadm; simpl.
  - split; [done|]. split; [done|]. intros i. split; [|by intros [? _]].
    intros Hi. split; [done|]. intros a Ha. by apply elem_of_nil in Ha.
  - apply Forall_cons in Hadm as [[Hvis [fd Hfd]] Hadm].
    assert (Huniq : ∀ k, fds s !! k = Some (presented a) → k = fd).
    { intros k Hk. by apply (Hdist k fd (presented a)). }
    rewrite (Connect_unique s (rangeOrder a) fd (presented a) _ Hvis Hfd Huniq).
    destruct (attach_in_step s fd (answered a) Hstep) as [Hstep' Hun'].
    destruct (attach_fields s fd (Ok (answered a))) as (Hfds & _).
    set (s' := session (attach s fd (Ok (answered a)))) in *.
    destruct (IH s') as (Hfinal & Hfdsfinal & Hunfinal).
    + done.
    + unfold distinctSecrets. by rewrite Hfds.
    + unfold admitted. by rewrite Hfds.
    + split; [done|]. split; [congruence|].
      intros i. rewrite Hunfinal, Hun', Hfds. split.
      * intros [[Hi Hne] Hrest]. split; [done|].
        intros a' [->|Ha']%elem_of_cons; [|by apply Hrest].
        intros Heq. apply Hne. by apply (Hdist i fd (presented a)).
      * intros [Hi Hall]. split; [split; [done|]|].
        -- intros ->. apply (Hall a); [left|done].
        -- intros a' Ha'. apply Hall. by right.
Qed.

(** In a session whose secrets are pairwise distinct and whose signal is in
    step (as in a new session), after any run of admitted calls with
    successful upgrades the signal is still in step, and [allConnected]
    holds its value exactly when every standard stream that had no
    connection has been attached by one of the calls: attaching the control
    channel is neither needed nor enough, and attaching a stream twice does
    not count twice. *)
Theorem attachAll_signals (s : execWs) (calls : list attachment) :
  signalInStep s →
  distinctSecrets s →
  Forall (admitted s) calls →
  signalInStep (attachAll s calls)
  ∧ (allConnected (attachAll s calls) = 1%nat
     ↔ ∀ i, unattached s i → ∃ a, a ∈ calls ∧ fds s !! i = Some (presented a)).
Proof.
  intros Hstep Hdist Hadm.
  destruct (attachAll_in_step calls s Hstep Hdist Hadm) as (Hfinal & _ & Hun).
  split; [done|]. split.
  - intros H1 i Hi.
    destruct (decide (Exists (λ a, fds s !! i = Some (presented a)) calls))
      as [Hex|Hnex].
    + apply Exists_exists in Hex as (a & Ha & Heq). eauto.
    + destruct Hfinal as [[H0 _] | [_ Hnone]]; [congruence|].
      destruct (Hnone i). apply Hun. split; [done|].
      intros a Ha Heq. apply Hnex. apply Exists_exists. eauto.
  - intros Hcover. destruct Hfinal as [[_ [i Hi]] | [H1 _]]; [|done].
    apply Hun in Hi as [Hi Hno].
    destruct (Hcover i Hi) as (a & Ha & Heq). by destruct (Hno a Ha).
Qed.

Lemma batchSession_in_step : signalInStep batchSession.
Proof.
  left. split; [reflexivity|]. exists 0. split; [lia|reflexivity].
Qed.

Lemma batchSession_distinct : distinctSecrets batchSession.
Proof.
  intros i j secret. unfold batchSession, fds.
  rewrite !lookup_insert, !lookup_empty.
  repeat case_decide; subst; try discriminate; intros; simplify_eq; done.
Qed.

Lemma batchSession_unattached (i : Z) :
  unattached batchSession i → i = 0 ∨ i = 1 ∨ i = 2.
Proof.
  intros [Hi Hl]. unfold batchSession, conns, initialConns in Hl.
  rewrite !lookup_insert, !lookup_empty in Hl.
  repeat case_decide; subst; try discriminate; try lia; auto.
Qed.

Lemma batchSession_visits (keys : list Z) :
  bool_decide (keys ≡ₚ [-1; 0; 1; 2]) = true → visits (fds batchSession) keys.
Proof.
  intros H%bool_decide_eq_true. unfold visits. rewrite H.
  vm_compute map_to_list. simpl. apply (bool_decide_unpack _). vm_compute. exact I.
Qed.

Lemma threeAttachments_admitted : Forall (admitted batchSession) threeAttachments.
Proof.
  unfold threeAttachments.
  apply Forall_cons. split.
  { split; [by apply batchSession_visits|by exists 2]. }
  apply Forall_cons. split.
  { split; [by apply batchSession_visits|by exists 0]. }
  apply Forall_cons. split.
  { split; [by apply batchSession_visits|by exists 1]. }
  constructor.
Qed.

Lemma attachAll_signals_witness :
  signalInStep (attachAll batchSession threeAttachments)
  ∧ allConnected (attachAll batchSession threeAttachments) = 1%nat.
Proof.
  destruct (attachAll_signals batchSession threeAttachments
              batchSession_in_step batchSession_distinct threeAttachments_admitted)
    as [Hstep Hiff].
  split; [exact Hstep|]. apply Hiff.
  intros i [-> | [-> | ->]]%batchSession_unattached.
  - eexists. split; [right; left|reflexivity].
  - eexists. split; [right; right; left|reflexivity].
  - eexists. split; [left|reflexivity].
Defined.

End ConnectMore.

(** ** The exec session: more on containerExecPost *)

Module PostMore.
Import Exec PostFacts.

Lemma Sprintf_pair (k v : string) : Sprintf "%s=%s" [k; v] = Some (k +:+ "=" +:+ v).
Proof. cbn. string_norm. reflexivity. Qed.

(** The loop over the environment, from any options on. *)
Lemma postOptions_fold (env : list (string * string)) (acc : AttachOptions) :
  let r :=
    foldl (λ opts '(k, v),
             {| ClearEnv := ClearEnv opts;
                Env := Env opts ++ [default EmptyString (Sprintf "%s=%s" [k; v])];
                Cwd := if String.eqb k "HOME" then v else Cwd opts;
                StdinFd := StdinFd opts; StdoutFd := StdoutFd opts;
                StderrFd := StderrFd opts |}) acc env in
  ClearEnv r = ClearEnv acc
  ∧ Env r = (Env acc ++ ((λ p, p.1 +:+ "=" +:+ p.2) <$> env))%list
  ∧ StdinFd r = StdinFd acc ∧ StdoutFd r = StdoutFd acc ∧ StderrFd r = StderrFd acc
  ∧ ("HOME" ∉ env.*1 → Cwd r = Cwd acc)
  ∧ (∀ v, NoDup env.*1 → ("HOME", v) ∈ env → Cwd r = v).
Proof.
  revert acc. induction env as [|[k v] env IH]; intros acc; cbn [foldl].
  - cbn zeta. rewrite fmap_nil, app_nil_r. repeat split; try done.
    intros v _ H. by apply elem_of_nil in H.
  - match goal with |- context [foldl ?f ?a env] =>
      set (acc' := a);
      destruct (IH acc') as (Hc & He & H0 & H1 & H2 & Hno & Hyes) end.
    cbn zeta in *. rewrite Hc, He, H0, H1, H2, fmap_cons.
    split; [reflexivity|]. split.
    { unfold acc'. cbn [Env fst snd]. by rewrite Sprintf_pair, <- app_assoc. }
    do 3 (split; [reflexivity|]). split.
    + intros Hnotin. rewrite fmap_cons in Hnotin.
      apply not_elem_of_cons in Hnotin as [Hk Hnotin].
      rewrite (Hno Hnotin). unfold acc'. cbn [Cwd fst] in *.
      destruct (String.eqb_spec k "HOME"); [congruence|done].
    + intros v' Hnodup Hin. rewrite fmap_cons in Hnodup.
      apply NoDup_cons in Hnodup as [Hfresh Hnodup].
      apply elem_of_cons in Hin as [[= <- <-] | Hin].
      * rewrite (Hno Hfresh). unfold acc'. cbn [Cwd]. by rewrite String.eqb_refl.
      * by apply Hyes.
Qed.

(** The options of the command: the environment is cleared and holds one
    entry K=V for each pair of the request, in the order of the range; the
    three descriptors are the default ones; the working directory is the
    default one when the request has no HOME, and the value of HOME when it
    has one. *)
Theorem postOptions_shape (dflt : AttachOptions) (env : list (string * string)) :
  ClearEnv (postOptions dflt env) = true
  ∧ Env (postOptions dflt env) = (λ p, p.1 +:+ "=" +:+ p.2) <$> env
  ∧ StdinFd (postOptions dflt env) = StdinFd dflt
  ∧ StdoutFd (postOptions dflt env) = StdoutFd dflt
  ∧ StderrFd (postOptions dflt env) = StderrFd dflt
  ∧ ("HOME" ∉ env.*1 → Cwd (postOptions dflt env) = Cwd dflt)
  ∧ (∀ v, NoDup env.*1 → ("HOME", v) ∈ env → Cwd (postOptions dflt env) = v).
Proof.
  unfold postOptions.
  match goal with |- context [foldl ?f ?a env] =>
    destruct (postOptions_fold env a) as (Hc & He & H0 & H1 & H2 & Hno & Hyes) end.
  simpl in *. auto 10.
Qed.

Lemma postOptions_shape_witness :
  Cwd (postOptions (DefaultAttachOptions scenarioDaemon) [("PATH", "/bin"); ("TERM", "xterm")])
  = "/"
  ∧ Cwd (postOptions (DefaultAttachOptions scenarioDaemon) [("PATH", "/bin"); ("HOME", "/root")])
    = "/root".
Proof.
  split.
  - destruct (postOptions_shape (DefaultAttachOptions scenarioDaemon)
                [("PATH", "/bin"); ("TERM", "xterm")]) as (_ & _ & _ & _ & _ & Hno & _).
    apply Hno. apply (bool_decide_unpack _). vm_compute. exact I.
  - destruct (postOptions_shape (DefaultAttachOptions scenarioDaemon)
                [("PATH", "/bin"); ("HOME", "/root")]) as (_ & _ & _ & _ & _ & _ & Hyes).
    apply Hyes.
    + apply (bool_decide_unpack _). vm_compute. exact I.
    + right. left.
Defined.

(** What the loop over the indices leaves in the table: from index [i] on,
    [n] indices get the strings drawn by the calls [call], [call + 1], ...,
    the others keep what they had. *)
Lemma fillFds_lookup (rand : nat → sysres string) (n : nat) :
  ∀ (i : Z) (call : nat) (acc m : gmap Z string),
    fillFds rand n i call acc = Ok m →
    ∀ j, (i ≤ j < i + Z.of_nat n →
            ∃ secret, rand (call + Z.to_nat (j - i))%nat = Ok secret
                      ∧ m !! j = Some secret)
         ∧ (¬ (i ≤ j < i + Z.of_nat n) → m !! j = acc !! j).
Proof.
  induction n as [|n IH]; intros i call acc m H j; simpl in H.
  - injection H as <-. split; [lia|done].
  - destruct (rand call) as [secret|] eqn:Hrand; [|discriminate].
    destruct (IH _ _ _ _ H j) as [Hin Hout]. split.
    + intros Hj. destruct (decide (j = i)) as [->|Hne].
      * exists secret. replace (call + Z.to_nat (i - i))%nat with call by lia.
        split; [done|]. rewrite Hout by lia. apply lookup_insert_eq.
      * destruct Hin as (sec & Hsec & Hm); [lia|]. exists sec. split; [|done].
        replace (call + Z.to_nat (j - i))%nat
          with (S call + Z.to_nat (j - (i + 1)))%nat by lia.
        done.
    + intros Hj. rewrite Hout by lia. apply lookup_insert_ne. lia.
Qed.

Lemma fillFds_err (rand : nat → sysres string) (n : nat) :
  ∀ (i : Z) (call : nat) (acc : gmap Z string) e,
    fillFds rand n i call acc = Err e →
    ∃ k, (call ≤ k < call + n)%nat ∧ rand k = Err e.
Proof.
  induction n as [|n IH]; intros i call acc e H; simpl in H; [discriminate|].
  destruct (rand call) as [secret|e'] eqn:Hrand.
  - destruct (IH _ _ _ _ H) as (k & Hk & Hrk). exists k. split; [lia|done].
  - injection H as <-. exists call. split; [lia|done].
Qed.

Lemma initialConns_lookup (b : bool) (i : Z) :
  initialConns b !! i
  = if decide (-1 ≤ i ≤ if b then 0 else 2) then Some None else None.
Proof.
  unfold initialConns. destruct b; rewrite !lookup_insert, lookup_empty;
    repeat case_decide; try done; lia.
Qed.

(** The session the handler makes: its indices are -1 and 0, and 1 and 2
    as well in batch mode; each has no connection and has the secret drawn
    by the call of its rank, index -1 first; no other index has a secret or
    an entry in [conns]; both channels are empty, the environment is
    cleared, and the signal is in step. *)
Theorem containerExecPost_session (d : Daemon) (r : Request) (ws : execWs) :
  containerExecPost d r = AsyncResponseWithWs ws →
  (∀ i, -1 ≤ i ≤ (if interactive ws then 0 else 2) →
     conns ws !! i = Some None
     ∧ ∃ secret, RandomCryptoString d (Z.to_nat (i + 1)) = Ok secret
                 ∧ fds ws !! i = Some secret)
  ∧ (∀ i, ¬ (-1 ≤ i ≤ (if interactive ws then 0 else 2)) →
     conns ws !! i = None ∧ fds ws !! i = None)
  ∧ allConnected ws = 0%nat
  ∧ controlConnected ws = 0%nat
  ∧ ClearEnv (options ws) = true
  ∧ signalInStep ws.
Proof.
  unfold containerExecPost. intros H.
  destruct (newLxdContainer d (varsName r)) as [ct|]; [|discriminate].
  destruct (Running (c ct)); simpl in H; [|discriminate].
  destruct (readBody r) as [buf|]; [|discriminate].
  destruct (Unmarshal d buf) as [post|]; [|discriminate].
  destruct (WaitForWS post); [|discriminate].
  destruct (match idmapset ct with Some idmap => ShiftIntoNs idmap 0 0 | None => (0, 0) end)
    as [uid gid].
  destruct (fillFds _ _ _ _ _) as [secrets|] eqn:Hfill; [|discriminate].
  injection H as <-. cbn [conns fds allConnected controlConnected options interactive].
  pose proof (fillFds_lookup _ _ _ _ _ _ Hfill) as Hlook.
  rewrite size_initialConns in Hlook.
  assert (Hn : ∀ i, (-1 ≤ i < -1 + Z.of_nat (if Interactive post then 2%nat else 4%nat))
                    ↔ -1 ≤ i ≤ (if Interactive post then 0 else 2)).
  { intros i. destruct (Interactive post); lia. }
  split; [|split; [|split; [|split; [|split]]]]; try reflexivity.
  - intros i Hi. split.
    + rewrite initialConns_lookup. by case_decide.
    + destruct (proj1 (Hlook i)) as (secret & Hrand & Hm); [by apply Hn|].
      exists secret. split; [|done].
      replace (Z.to_nat (i + 1)) with (0 + Z.to_nat (i - -1))%nat by lia. done.
  - intros i Hi. split.
    + rewrite initialConns_lookup. by case_decide.
    + rewrite (proj2 (Hlook i)); [apply lookup_empty|]. by rewrite Hn.
  - unfold postOptions.
    match goal with |- context [foldl ?f ?a _] =>
      by destruct (postOptions_fold (Environment post) a) as [-> _] end.
  - left. split; [reflexivity|]. exists 0. split; [lia|]. simpl.
    rewrite initialConns_lookup. case_decide; [done|]. destruct (Interactive post); lia.
Qed.

Lemma batchSession_made :
  containerExecPost scenarioDaemon (postTo "c1" "batch sh")
  = AsyncResponseWithWs batchSession.
Proof. vm_compute. reflexivity. Qed.

Lemma containerExecPost_session_witness :
  (∀ i, -1 ≤ i ≤ 2 →
     conns batchSession !! i = Some None
     ∧ ∃ secret, RandomCryptoString scenarioDaemon (Z.to_nat (i + 1)) = Ok secret
                 ∧ fds batchSession !! i = Some secret)
  ∧ signalInStep batchSession.
Proof.
  destruct (containerExecPost_session scenarioDaemon (postTo "c1" "batch sh")
              batchSession batchSession_made) as (Hin & _ & _ & _ & _ & Hstep).
  split; [exact Hin|exact Hstep].
Defined.

(** The ways through the handler. *)
Lemma containerExecPost_cases (d : Daemon) (r : Request) :
  (∃ e, newLxdContainer d (varsName r) = Err e
        ∧ containerExecPost d r = SmartError (ErrSys e))
  ∨ (∃ ct, newLxdContainer d (varsName r) = Ok ct ∧ Running (c ct) = false
           ∧ containerExecPost d r = BadRequest (Errorf "Container is not running."))
  ∨ (∃ ct e, newLxdContainer d (varsName r) = Ok ct ∧ Running (c ct) = true
             ∧ readBody r = Err e
             ∧ containerExecPost d r = BadRequest (ErrSys e))
  ∨ (∃ ct buf e, newLxdContainer d (varsName r) = Ok ct ∧ Running (c ct) = true
                 ∧ readBody r = Ok buf ∧ Unmarshal d buf = Err e
                 ∧ containerExecPost d r = BadRequest (ErrSys e))
  ∨ (∃ ct buf post,
       newLxdContainer d (varsName r) = Ok ct ∧ Running (c ct) = true
       ∧ readBody r = Ok buf ∧ Unmarshal d buf = Ok post
       ∧ ((WaitForWS post = false
           ∧ containerExecPost d r
             = AsyncResponse {| runContainer := c ct; runCommand := Command post;
                                runOptions := postOptions (DefaultAttachOptions d)
                                                          (Environment post) |})
          ∨ (WaitForWS post = true
             ∧ ((∃ ws, containerExecPost d r = AsyncResponseWithWs ws)
                ∨ (∃ k e, (k < if Interactive post then 2 else 4)%nat
                          ∧ RandomCryptoString d k = Err e
                          ∧ containerExecPost d r = InternalError (ErrSys e)))))).
Proof.
  unfold containerExecPost.
  destruct (newLxdContainer d (varsName r)) as [ct|e0]; [|left; eauto].
  right. destruct (Running (c ct)) eqn:Hrun; simpl; [|left; eauto].
  right. destruct (readBody r) as [buf|e1]; [|left; eauto 10].
  right. destruct (Unmarshal d buf) as [post|e2] eqn:Hpost; [|left; eauto 10].
  right. exists ct, buf, post. do 4 (split; [done|]).
  destruct (WaitForWS post); [right|left; done]. split; [done|].
  destruct (match idmapset ct with Some idmap => ShiftIntoNs idmap 0 0 | None => (0, 0) end)
    as [uid gid].
  destruct (fillFds _ _ _ _ _) as [secrets|e3] eqn:Hfill; [left; eauto|].
  right. apply fillFds_err in Hfill as (k & Hk & Hrand).
  rewrite size_initialConns in Hk. exists k, e3.
  split; [destruct (Interactive post); lia|done].
Qed.

(** Which requests are refused, and in which order the handler looks: a
    container that does not load is a [SmartError] whatever the body; a
    loaded container that is not running is a [BadRequest] before the body
    is read; otherwise a [BadRequest] is a body that does not read or does
    not decode, and nothing else; an [InternalError] is a secret that
    could not be drawn, among the first two draws (interactive) or four
    (batch) of a request that waits for WebSockets. *)
Theorem containerExecPost_errors (d : Daemon) (r : Request) :
  (∀ err, containerExecPost d r = SmartError err
          ↔ ∃ e, newLxdContainer d (varsName r) = Err e ∧ err = ErrSys e)
  ∧ (∀ err, containerExecPost d r = BadRequest err
            ↔ ∃ ct, newLxdContainer d (varsName r) = Ok ct
                    ∧ ((Running (c ct) = false
                        ∧ err = Errorf "Container is not running.")
                       ∨ (Running (c ct) = true
                          ∧ ((∃ e, readBody r = Err e ∧ err = ErrSys e)
                             ∨ (∃ buf e, readBody r = Ok buf
                                         ∧ Unmarshal d buf = Err e
                                         ∧ err = ErrSys e)))))
  ∧ (∀ err, containerExecPost d r = InternalError err →
            ∃ ct buf post k e,
              newLxdContainer d (varsName r) = Ok ct
              ∧ Running (c ct) = true
              ∧ readBody r = Ok buf
              ∧ Unmarshal d buf = Ok post
              ∧ WaitForWS post = true
              ∧ (k < if Interactive post then 2 else 4)%nat
              ∧ RandomCryptoString d k = Err e
              ∧ err = ErrSys e).
Proof.
  destruct (containerExecPost_cases d r)
    as [(e0 & Hct & ->)
       | [(ct & Hct & Hrun & ->)
         | [(ct & e1 & Hct & Hrun & Hbuf & ->)
           | [(ct & buf & e2 & Hct & Hrun & Hbuf & Hpost & ->)
             | (ct & buf & post & Hct & Hrun & Hbuf & Hpost & Hresp)]]]].
  - split; [|split].
    + intros err. split; [intros [= <-]; eauto|]. intros (e & He & ->). congruence.
    + intros err. split; [discriminate|]. intros (ct & Hc & _). congruence.
    + discriminate.
  - split; [|split].
    + intros err. split; [discriminate|]. intros (e & He & _). congruence.
    + intros err. split.
      * intros [= <-]. exists ct. split; [done|]. by left.
      * intros (ct' & Hc & [[_ ->] | [Hr _]]); [done|]. congruence.
    + discriminate.
  - split; [|split].
    + intros err. split; [discriminate|]. intros (e & He & _). congruence.
    + intros err. split.
      * intros [= <-]. exists ct. split; [done|]. right. split; [done|]. left. eauto.
      * intros (ct' & Hc & [[Hr _] | [_ [(e & He & ->) | (b & e & Hb & _)]]]);
          congruence.
    + discriminate.
  - split; [|split].
    + intros err. split; [discriminate|]. intros (e & He & _). congruence.
    + intros err. split.
      * intros [= <-]. exists ct. split; [done|]. right. split; [done|]. right. eauto.
      * intros (ct' & Hc & [[Hr _] | [_ [(e & He & _) | (b & e & Hb & He & ->)]]]);
          congruence.
    + discriminate.
  - assert (Hnobad : ∀ err,
      ¬ ∃ ct0, newLxdContainer d (varsName r) = Ok ct0
               ∧ ((Running (c ct0) = false ∧ err = Errorf "Container is not running.")
                  ∨ (Running (c ct0) = true
                     ∧ ((∃ e, readBody r = Err e ∧ err = ErrSys e)
                        ∨ (∃ buf0 e, readBody r = Ok buf0 ∧ Unmarshal d buf0 = Err e
                                     ∧ err = ErrSys e))))).
    { intros err (ct' & Hc & [[Hr _] | [_ [(e & He & _) | (b & e & Hb & He & _)]]]);
        congruence. }
    destruct Hresp as [[Hws ->] | [Hws [(ws & ->) | (k & e & Hk & Hrand & ->)]]].
    + split; [|split].
      * intros err. split; [discriminate|]. intros (e & He & _). congruence.
      * intros err. split; [discriminate|]. intros H. by destruct (Hnobad err).
      * discriminate.
    + split; [|split].
      * intros err. split; [discriminate|]. intros (e & He & _). congruence.
      * intros err. split; [discriminate|]. intros H. by destruct (Hnobad err).
      * discriminate.
    + split; [|split].
      * intros err. split; [discriminate|]. intros (e' & He & _). congruence.
      * intros err. split; [discriminate|]. intros H. by destruct (Hnobad err).
      * intros err [= <-]. exists ct, buf, post, k, e. auto 10.
Qed.

End PostMore.

(** ** The exec session: more on Do *)

Module DoMore.
Import Exec DoFacts.

Section WithTerminal.

Variable unmarshal : string → sysres ContainerExecControl.
Variable setSize : Z → Z → Z → sysres unit.
Variable fd : Z.

(** The loop over two runs of frames: the second run is reached only if
    the first did not end the loop. *)
Lemma controlLoop_app (pre post : list frame) :
  controlLoop unmarshal setSize fd (pre ++ post)
  = if ended (controlLoop unmarshal setSize fd pre)
    then controlLoop unmarshal setSize fd pre
    else {| resizes := resizes (controlLoop unmarshal setSize fd pre)
                       ++ resizes (controlLoop unmarshal setSize fd post);
            ended := ended (controlLoop unmarshal setSize fd post) |}.
Proof.
  induction pre as [|f pre IH]; simpl.
  - by destruct (controlLoop unmarshal setSize fd post).
  - destruct (messageType f =? CloseMessage); [done|].
    destruct (nextReaderErr f); [done|].
    destruct (readAll f) as [buf|]; [|done].
    destruct (unmarshal buf) as [cmd|]; [|done].
    destruct (String.eqb (ControlCommand cmd) "window-resize"); [|done].
    destruct (dimension cmd "width") as [width|]; [|done].
    destruct (dimension cmd "height") as [height|]; [|done].
    rewrite IH.
    destruct (setSize fd width height); unfold resized;
      destruct (ended (controlLoop unmarshal setSize fd pre)) eqn:Hpre;
      simpl; rewrite ?Hpre; reflexivity.
Qed.

Lemma controlLoop_nothing (f : frame) (post : list frame) :
  asksNothing unmarshal f →
  controlLoop unmarshal setSize fd (f :: post) = controlLoop unmarshal setSize fd post.
Proof.
  intros (Hmt & Herr & buf & Hbuf & Hask). simpl.
  apply Z.eqb_neq in Hmt. rewrite Hmt, Herr, Hbuf.
  destruct Hask as [[e ->] | (cmd & -> & Hcmd)]; [done|].
  destruct (String.eqb_spec (ControlCommand cmd) "window-resize") as [Heq|]; [|done].
  destruct Hcmd as [Hne | [[e ->] | [e He]]]; [done|done|].
  destruct (dimension cmd "width"); [|done]. by rewrite He.
Qed.

(** A control message that does not decode, or whose command is not
    window-resize, or whose width or height is not a number, is passed
    over: wherever it stands among the frames, the reader does what it
    would do without it. *)
Theorem controlLoop_skips (pre post : list frame) (f : frame) :
  asksNothing unmarshal f →
  controlLoop unmarshal setSize fd (pre ++ f :: post)
  = controlLoop unmarshal setSize fd (pre ++ post).
Proof.
  intros Hask. by rewrite !controlLoop_app, controlLoop_nothing.
Qed.

(** A well-formed window-resize message that the reader gets to is turned
    into the call of [SetSize] with its numbers, after the calls of the
    frames before it and before those of the frames after it, and the
    reader goes on with the frames after it: whatever [SetSize] answers. *)
Theorem controlLoop_resizes (pre post : list frame) (f : frame) (width height : Z) :
  asksResize unmarshal f width height →
  ended (controlLoop unmarshal setSize fd pre) = false →
  resizes (controlLoop unmarshal setSize fd (pre ++ f :: post))
  = (resizes (controlLoop unmarshal setSize fd pre)
     ++ Resize fd width height :: resizes (controlLoop unmarshal setSize fd post))%list
  ∧ ended (controlLoop unmarshal setSize fd (pre ++ f :: post))
    = ended (controlLoop unmarshal setSize fd post).
Proof.
  intros (Hmt & Herr & buf & cmd & Hbuf & Hcmd & Hname & Hw & Hh) Hpre.
  rewrite controlLoop_app, Hpre. simpl.
  apply Z.eqb_neq in Hmt. rewrite Hmt, Herr, Hbuf, Hcmd, Hname, Hw, Hh. simpl.
  by destruct (setSize fd width height).
Qed.

(** A close message, or an error of [NextReader] or of [ReadAll], ends the
    reader: the frames after it are never read, and the calls made are
    those of the frames before it. *)
Theorem controlLoop_closes (pre post : list frame) (f : frame) :
  closing f →
  ended (controlLoop unmarshal setSize fd (pre ++ f :: post)) = true
  ∧ resizes (controlLoop unmarshal setSize fd (pre ++ f :: post))
    = resizes (controlLoop unmarshal setSize fd pre).
Proof.
  intros Hclose. rewrite controlLoop_app.
  destruct (ended (controlLoop unmarshal setSize fd pre)) eqn:Hpre; [done|].
  assert (Hf : controlLoop unmarshal setSize fd (f :: post)
               = {| resizes := []; ended := true |}).
  { simpl. destruct (Z.eqb_spec (messageType f) CloseMessage) as [|Hmt]; [done|].
    destruct Hclose as [Hc | [[e ->] | [e ->]]]; [done|done|].
    by destruct (nextReaderErr f). }
  rewrite Hf. simpl. by rewrite app_nil_r.
Qed.

End WithTerminal.

Lemma controlLoop_skips_witness :
  controlLoop scenarioControl noTerminal 10
    ([textFrame "resize 80x24"] ++ textFrame "resize wide" :: [textFrame "resize 132x43"])
  = controlLoop scenarioControl noTerminal 10
      ([textFrame "resize 80x24"] ++ [textFrame "resize 132x43"]).
Proof.
  apply (controlLoop_skips scenarioControl noTerminal 10).
  split; [discriminate|]. split; [reflexivity|].
  exists "resize wide". split; [reflexivity|]. right.
  eexists. split; [reflexivity|]. right. left. eexists. reflexivity.
Defined.

Lemma controlLoop_resizes_witness :
  resizes (controlLoop scenarioControl noTerminal 10
             ([textFrame "garbage"] ++ textFrame "resize 80x24"
                :: [textFrame "resize 132x43"]))
  = [Resize 10 80 24; Resize 10 132 43]
  ∧ ended (controlLoop scenarioControl noTerminal 10
             ([textFrame "garbage"] ++ textFrame "resize 80x24"
                :: [textFrame "resize 132x43"]))
    = false.
Proof.
  apply (controlLoop_resizes scenarioControl noTerminal 10
           [textFrame "garbage"] [textFrame "resize 132x43"]
           (textFrame "resize 80x24") 80 24).
  - split; [discriminate|]. split; [reflexivity|].
    eexists _, _. repeat split; reflexivity.
  - reflexivity.
Defined.

Lemma controlLoop_closes_witness :
  ended (controlLoop scenarioControl noTerminal 10
           ([textFrame "resize 80x24"] ++ closeFrame :: [textFrame "resize 132x43"]))
  = true
  ∧ resizes (controlLoop scenarioControl noTerminal 10
               ([textFrame "resize 80x24"] ++ closeFrame :: [textFrame "resize 132x43"]))
    = [Resize 10 80 24].
Proof.
  apply (controlLoop_closes scenarioControl noTerminal 10
           [textFrame "resize 80x24"] [textFrame "resize 132x43"] closeFrame).
  left. reflexivity.
Defined.

(** One step keeps the account of the one receive. *)
Lemma step_oneSignalTaken (st st' : batch) (ev : event) :
  oneSignalTaken st → step st ev = Some st' → oneSignalTaken st'.
Proof.
  destruct st as [m [b1 d1 o1 p1] [b2 d2 o2 p2]].
  unfold oneSignalTaken, bridgeOver. simpl. intros Hinv Hstep.
  destruct ev as [j data| | |j|j|j|j| ]; try destruct j;
    destruct m, p1, p2; simpl in *;
    repeat (case_match; simplify_eq; simpl in * );
    simplify_eq; simpl; try done; auto; intuition discriminate.
Qed.

Lemma run_oneSignalTaken (evs : list event) (st st' : batch) :
  oneSignalTaken st → run st evs = Some st' → oneSignalTaken st'.
Proof.
  revert st. induction evs as [|ev evs IH]; intros st Hinv Hrun; simpl in Hrun.
  - by simplify_eq.
  - destruct (step st ev) as [st1|] eqn:Hstep; [|discriminate].
    eapply IH; [|done]. by eapply step_oneSignalTaken.
Qed.

Lemma step_returned (i : outIdx) (st st' : batch) (ev : event) :
  hasReturned st = true → bridgeOver i st = false → step st ev = Some st' →
  hasReturned st' = true ∧ bridgeOver i st' = false.
Proof.
  destruct st as [m [b1 d1 o1 p1] [b2 d2 o2 p2]].
  unfold hasReturned, bridgeOver. simpl. intros Hret Hover Hstep.
  destruct ev as [j data| | |j|j|j|j| ]; try destruct j; destruct i;
    destruct m, p1, p2; simpl in *;
    repeat (case_match; simplify_eq; simpl in * );
    simplify_eq; simpl; try done; auto.
Qed.

Lemma run_returned (i : outIdx) (evs : list event) (st st' : batch) :
  hasReturned st = true → bridgeOver i st = false → run st evs = Some st' →
  bridgeOver i st' = false.
Proof.
  revert st. induction evs as [|ev evs IH]; intros st Hret Hover Hrun; simpl in Hrun.
  - by simplify_eq.
  - destruct (step st ev) as [st1|] eqn:Hstep; [|discriminate].
    destruct (step_returned i st st1 ev Hret Hover Hstep) as [Hret1 Hover1].
    by apply (IH st1).
Qed.

(** In a batch session the one receive of [Do] serves one goroutine: in
    every state the session can reach, the goroutines of the two output
    indices are never both over, exactly one is over once [Do] is past its
    receive, and when [Do] has returned the other one never gets over,
    whatever happens next: its send on [stdEOF] finds no receiver. *)
Theorem one_receive_one_goroutine (evs : list event) (st : batch) :
  run started evs = Some st →
  oneSignalTaken st
  ∧ ¬ (bridgeOver Stdout st = true ∧ bridgeOver Stderr st = true)
  ∧ (hasReturned st = true →
     ∃ i, bridgeOver i st = false
          ∧ ∀ evs' st', run st evs' = Some st' → bridgeOver i st' = false).
Proof.
  intros Hrun.
  assert (Hinv : oneSignalTaken st).
  { apply (run_oneSignalTaken evs started); [|done]. by split. }
  assert (Hnot : ¬ (bridgeOver Stdout st = true ∧ bridgeOver Stderr st = true)).
  { intros [H1 H2]. unfold oneSignalTaken in Hinv.
    destruct (main st); intuition congruence. }
  split; [done|]. split; [done|].
  intros Hret.
  destruct (bridgeOver Stdout st) eqn:H1.
  - destruct (bridgeOver Stderr st) eqn:H2; [by destruct Hnot|].
    exists Stderr. split; [done|]. intros evs' st' Hrun'.
    by apply (run_returned Stderr evs' st).
  - exists Stdout. split; [done|]. intros evs' st' Hrun'.
    by apply (run_returned Stdout evs' st).
Qed.

Lemma one_receive_one_goroutine_witness :
  ∃ st, run started bothDrained = Some st
    ∧ oneSignalTaken st
    ∧ ¬ (bridgeOver Stdout st = true ∧ bridgeOver Stderr st = true)
    ∧ ∃ i, bridgeOver i st = false
           ∧ ∀ evs' st', run st evs' = Some st' → bridgeOver i st' = false.
Proof.
  eexists. split; [vm_compute; reflexivity|].
  match goal with |- oneSignalTaken ?st ∧ _ =>
    destruct (one_receive_one_goroutine bothDrained st) as (Hinv & Hnot & Hret) end.
  - vm_compute. reflexivity.
  - split; [exact Hinv|]. split; [exact Hnot|]. apply Hret. reflexivity.
Defined.

End DoMore.

(** ** devlxd: more on the handlers *)

Module DevLxdMore.
Import DevLxd.

Lemma Sprintf_config_path (k : string) :
  Sprintf "/1.0/config/%s" [k] = Some ("/1.0/config/" +:+ k).
Proof. cbn. string_norm. reflexivity. Qed.

(** What the key handler answers 200 to. *)
Lemma configKeyGet_ok (ct : lxdContainer) (key value : string) :
  configKeyGet ct key = {| resp_content := CString value; code := 200; ctype := "raw" |}
  ↔ HasPrefix key "user." = true ∧ config ct !! key = Some value.
Proof.
  unfold configKeyGet. destruct (HasPrefix key "user."); simpl.
  - destruct (config ct !! key) as [v|].
    + split; [by intros [= ->]|]. by intros [_ [= ->]].
    + split; [discriminate|]. by intros [_ ?].
  - split; [discriminate|]. by intros [? _].
Qed.

Lemma visitsConfig_elem (ct : lxdContainer) (keys : list string) (k : string) :
  visitsConfig ct keys → (k ∈ keys ↔ is_Some (config ct !! k)).
Proof.
  unfold visitsConfig. intros ->. rewrite list_elem_of_fmap. split.
  - intros ([k' v] & -> & Hin). apply elem_of_map_to_list in Hin. eauto.
  - intros [v Hv]. exists (k, v). split; [done|]. by apply elem_of_map_to_list.
Qed.

Lemma NoDup_omap_inj {A B} (f : A → option B) (l : list A) :
  (∀ x y z, f x = Some z → f y = Some z → x = y) → NoDup l → NoDup (omap f l).
Proof.
  intros Hinj. induction 1 as [|x l Hx Hl IH]; simpl; [constructor|].
  destruct (f x) as [z|] eqn:Hfx; [|done]. constructor; [|done].
  intros (y & Hy & Hfy)%list_elem_of_omap.
  by rewrite (Hinj x y z Hfx Hfy) in Hx.
Qed.

(** The listing and the key handler agree: GET /1.0/config answers 200 with
    a JSON list without repetition whose entries are exactly the paths
    /1.0/config/K of the keys K that GET /1.0/config/K answers 200 to, that
    is, the keys of the config that begin with [user.]; no other key is
    ever listed. *)
Theorem configGet_lists (ct : lxdContainer) (keys : list string) :
  visitsConfig ct keys →
  ∃ paths,
    configGet ct keys = {| resp_content := CStrings paths; code := 200; ctype := "json" |}
    ∧ NoDup paths
    ∧ ∀ path, path ∈ paths
        ↔ ∃ key value,
            path = "/1.0/config/" +:+ key
            ∧ configKeyGet ct key
              = {| resp_content := CString value; code := 200; ctype := "raw" |}.
Proof.
  intros Hvis. eexists. split; [reflexivity|]. split.
  - apply NoDup_omap_inj.
    + intros x y z Hx Hy.
      destruct (config ct !! x), (HasPrefix x "user."); try discriminate.
      destruct (config ct !! y), (HasPrefix y "user."); try discriminate.
      rewrite Sprintf_config_path in Hx, Hy.
      apply (inj (String.app "/1.0/config/")). congruence.
    + unfold visitsConfig in Hvis. rewrite Hvis. apply NoDup_fst_map_to_list.
  - intros path. rewrite list_elem_of_omap. split.
    + intros (k & Hk & Hf).
      destruct (config ct !! k) as [v|] eqn:Hv; [|discriminate].
      destruct (HasPrefix k "user.") eqn:Hp; [|discriminate].
      rewrite Sprintf_config_path in Hf. injection Hf as <-.
      exists k, v. split; [reflexivity|].
      by apply configKeyGet_ok.
    + intros (k & v & -> & [Hp Hv]%configKeyGet_ok). exists k. split.
      * apply (visitsConfig_elem ct keys k Hvis). eauto.
      * by rewrite Hv, Hp, Sprintf_config_path.
Qed.

Lemma c1_visits : visitsConfig c1 ["limits.memory"; "user.foo"].
Proof.
  unfold visitsConfig. vm_compute map_to_list. simpl.
  apply (bool_decide_unpack _). vm_compute. exact I.
Qed.

Lemma configGet_lists_witness :
  ∃ paths,
    configGet c1 ["limits.memory"; "user.foo"]
    = {| resp_content := CStrings paths; code := 200; ctype := "json" |}
    ∧ NoDup paths
    ∧ ∀ path, path ∈ paths
        ↔ ∃ key value,
            path = "/1.0/config/" +:+ key
            ∧ configKeyGet c1 key
              = {| resp_content := CString value; code := 200; ctype := "raw" |}.
Proof.
  apply (configGet_lists c1 ["limits.memory"; "user.foo"]). exact c1_visits.
Defined.

Example configGet_c1 :
  configGet c1 ["limits.memory"; "user.foo"]
  = {| resp_content := CStrings ["/1.0/config/user.foo"]; code := 200; ctype := "json" |}.
Proof. reflexivity. Qed.

End DevLxdMore.

(** ** devlxd: more on connections and requests *)

Module ServerMore.
Import DevLxd Resolver ConnPid DevLxdServer.

Lemma serve_app (m : gmap nat Z) (ts1 ts2 : list transition) :
  serve m (ts1 ++ ts2) = serve (serve m ts1) ts2.
Proof. unfold serve. apply foldl_app. Qed.

Lemma ConnStateHandler_quiet (m : gmap nat Z) (conn : nat) (t : transition) :
  quiet conn t →
  ConnStateHandler m (onConn t) (toState t) (peerCred t) !! conn = m !! conn.
Proof.
  unfold ConnStateHandler.
  intros [Hne | [-> | [-> | [-> | [-> [e ->]]]]]]; try done.
  destruct (toState t); try done.
  - destruct (peerCred t); [by apply lookup_insert_ne|done].
  - by apply lookup_delete_ne.
  - by apply lookup_delete_ne.
Qed.

Lemma serve_quiet (conn : nat) (ts : list transition) (m : gmap nat Z) :
  Forall (quiet conn) ts → serve m ts !! conn = m !! conn.
Proof.
  intros Hq. revert m. induction Hq as [|t ts Ht _ IH]; intros m; [done|].
  unfold serve in *. simpl. rewrite IH. by apply ConnStateHandler_quiet.
Qed.

(** After a transition of a connection and quiet ones, the entry of the
    connection is what that transition made it. *)
Lemma serve_after (m : gmap nat Z) (pre post : list transition) (t : transition) :
  Forall (quiet (onConn t)) post →
  serve m (pre ++ t :: post) !! onConn t
  = ConnStateHandler (serve m pre) (onConn t) (toState t) (peerCred t) !! onConn t.
Proof.
  intros Hq. rewrite serve_app. change (t :: post) with ([t] ++ post)%list.
  by rewrite serve_app, serve_quiet.
Qed.

Lemma serve_after_gone (m : gmap nat Z) (pre post : list transition) (t : transition) :
  gone t → Forall (quiet (onConn t)) post →
  serve m (pre ++ t :: post) !! onConn t = None.
Proof.
  intros Hgone Hq. rewrite serve_after by done. unfold ConnStateHandler.
  destruct Hgone as [-> | ->]; apply lookup_delete_eq.
Qed.

Lemma serve_after_new (m : gmap nat Z) (pre post : list transition) (t : transition)
  (pid : Z) :
  toState t = StateNew → peerCred t = Ok pid → Forall (quiet (onConn t)) post →
  serve m (pre ++ t :: post) !! onConn t = Some pid.
Proof.
  intros Hnew Hpid Hq. rewrite serve_after by done. unfold ConnStateHandler.
  rewrite Hnew, Hpid. apply lookup_insert_eq.
Qed.

(** Once a connection is reported closed or hijacked it has no entry in the
    map, whatever the map held and whatever the server reports afterwards
    about other connections. *)
Theorem serve_gone (m : gmap nat Z) (pre post : list transition) (t : transition) :
  gone t →
  Forall (quiet (onConn t)) post →
  serve m (pre ++ t :: post) !! onConn t = None.
Proof. apply serve_after_gone. Qed.

Lemma serve_gone_witness : serve ∅ day !! 1%nat = None.
Proof.
  apply (serve_gone ∅
           [{| onConn := 1; toState := StateNew; peerCred := Ok 300 |};
            {| onConn := 1; toState := StateActive; peerCred := Ok 300 |};
            {| onConn := 2; toState := StateNew; peerCred := Ok 400 |};
            {| onConn := 3; toState := StateNew;
               peerCred := Err (SysErr "bad file descriptor") |};
            {| onConn := 1; toState := StateIdle; peerCred := Ok 300 |};
            {| onConn := 2; toState := StateActive; peerCred := Ok 400 |};
            {| onConn := 1; toState := StateActive; peerCred := Ok 300 |}]
           [{| onConn := 2; toState := StateIdle; peerCred := Ok 400 |}]
           {| onConn := 1; toState := StateClosed; peerCred := Ok 300 |}).
  - left. reflexivity.
  - constructor; [|constructor]. left. simpl. lia.
Defined.

(** The PID looked up for a connection is the one read when the connection
    was reported new: the requests it serves since (active, idle), what
    happens on other connections, and a later failed reading of its
    credentials do not change it. *)
Theorem serve_new (m : gmap nat Z) (pre post : list transition) (t : transition)
  (pid : Z) :
  toState t = StateNew →
  peerCred t = Ok pid →
  Forall (quiet (onConn t)) post →
  serve m (pre ++ t :: post) !! onConn t = Some pid.
Proof. apply serve_after_new. Qed.

Lemma day_conn2_quiet :
  Forall (quiet 2)
    [{| onConn := 3; toState := StateNew; peerCred := Err (SysErr "bad file descriptor") |};
     {| onConn := 1; toState := StateIdle; peerCred := Ok 300 |};
     {| onConn := 2; toState := StateActive; peerCred := Ok 400 |};
     {| onConn := 1; toState := StateActive; peerCred := Ok 300 |};
     {| onConn := 1; toState := StateClosed; peerCred := Ok 300 |};
     {| onConn := 2; toState := StateIdle; peerCred := Ok 400 |}].
Proof.
  repeat (apply Forall_cons; split); try apply Forall_nil_2;
    try (left; simpl; lia); unfold quiet; simpl; auto.
Qed.

Lemma serve_new_witness : serve ∅ day !! 2%nat = Some 400.
Proof.
  apply (serve_new ∅
           [{| onConn := 1; toState := StateNew; peerCred := Ok 300 |};
            {| onConn := 1; toState := StateActive; peerCred := Ok 300 |}]
           _ {| onConn := 2; toState := StateNew; peerCred := Ok 400 |} 400).
  - reflexivity.
  - reflexivity.
  - exact day_conn2_quiet.
Defined.

(** The map never holds a PID that was not read from the credentials of
    the connection: starting from the empty map, an entry for a connection
    comes from a report of that connection as new with that PID. *)
Theorem serve_provenance (ts : list transition) (conn : nat) (pid : Z) :
  serve ∅ ts !! conn = Some pid →
  ∃ t, t ∈ ts ∧ onConn t = conn ∧ toState t = StateNew ∧ peerCred t = Ok pid.
Proof.
  induction ts as [|t ts IH] using rev_ind.
  - unfold serve. simpl. by rewrite lookup_empty.
  - rewrite serve_app. unfold serve at 1. simpl. unfold ConnStateHandler.
    intros H.
    assert (Hold : serve ∅ ts !! conn = Some pid →
                   ∃ t0, t0 ∈ (ts ++ [t])%list ∧ onConn t0 = conn ∧ toState t0 = StateNew
                         ∧ peerCred t0 = Ok pid).
    { intros (t0 & Hin & Hrest)%IH. exists t0. split; [|done].
      apply elem_of_app. by left. }
    destruct (toState t) eqn:Hstate; try by apply Hold.
    + destruct (peerCred t) as [pid'|] eqn:Hcred; [|by apply Hold].
      destruct (decide (onConn t = conn)) as [Heq|Hne].
      * rewrite Heq, lookup_insert_eq in H. injection H as ->.
        exists t. split; [|done]. apply elem_of_app. right. left.
      * rewrite lookup_insert_ne in H by done. by apply Hold.
    + apply lookup_delete_Some in H as [_ H]. by apply Hold.
    + apply lookup_delete_Some in H as [_ H]. by apply Hold.
Qed.

Lemma serve_provenance_witness :
  ∃ t, t ∈ day ∧ onConn t = 2%nat ∧ toState t = StateNew ∧ peerCred t = Ok 400.
Proof.
  apply (serve_provenance day 2 400). vm_compute. reflexivity.
Defined.

(** A request is answered by the record of its connection.  On a
    connection that was closed or hijacked the answer is the 500 of an
    unknown peer, before any handler or any read of [/proc]; on a
    connection reported new with a PID, the peer is resolved from that PID
    and the handler is given the container found, or the answer is the 500
    of the resolution's error, with the text of that error. *)
Theorem hoistReq_by_record (numErrorText : string → numCause → string)
  (f : lxdContainer → DevLxdResponse) (d : Daemon)
  (m : gmap nat Z) (pre post : list transition) (t : transition) (fuel : nat) :
  Forall (quiet (onConn t)) post →
  (gone t →
     hoistReq numErrorText f d (serve m (pre ++ t :: post)) (onConn t) fuel
     = Some {| contentType := None; body := HttpError "pid not in container?" 500 |})
  ∧ (∀ pid, toState t = StateNew → peerCred t = Ok pid →
     hoistReq numErrorText f d (serve m (pre ++ t :: post)) (onConn t) fuel
     = match findContainerForPid d fuel pid with
       | None => None
       | Some (Err err) =>
           Some {| contentType := None;
                   body := HttpError (errorText numErrorText err) 500 |}
       | Some (Ok ct) => Some (render (f ct))
       end).
Proof.
  intros Hq. unfold hoistReq. split.
  - intros Hgone. by rewrite serve_after_gone.
  - intros pid Hnew Hpid. by rewrite (serve_after_new m pre post t pid).
Qed.

Lemma day_conn1_quiet :
  Forall (quiet 1) [{| onConn := 2; toState := StateIdle; peerCred := Ok 400 |}].
Proof. constructor; [|constructor]. left. simpl. lia. Qed.

Lemma hoistReq_by_record_witness :
  (∀ numErrorText,
     hoistReq numErrorText metadataGet hostAllRunning (serve ∅ day) 1 10
     = Some {| contentType := None; body := HttpError "pid not in container?" 500 |})
  ∧ (∀ numErrorText,
     hoistReq numErrorText metadataGet hostAllRunning (serve ∅ day) 2 10
     = Some (render (metadataGet c1))).
Proof.
  split; intros numErrorText.
  - apply (proj1 (hoistReq_by_record numErrorText metadataGet hostAllRunning ∅
                    [{| onConn := 1; toState := StateNew; peerCred := Ok 300 |};
                     {| onConn := 1; toState := StateActive; peerCred := Ok 300 |};
                     {| onConn := 2; toState := StateNew; peerCred := Ok 400 |};
                     {| onConn := 3; toState := StateNew;
                        peerCred := Err (SysErr "bad file descriptor") |};
                     {| onConn := 1; toState := StateIdle; peerCred := Ok 300 |};
                     {| onConn := 2; toState := StateActive; peerCred := Ok 400 |};
                     {| onConn := 1; toState := StateActive; peerCred := Ok 300 |}]
                    [{| onConn := 2; toState := StateIdle; peerCred := Ok 400 |}]
                    {| onConn := 1; toState := StateClosed; peerCred := Ok 300 |}
                    10 day_conn1_quiet)).
    left. reflexivity.
  - rewrite (proj2 (hoistReq_by_record numErrorText metadataGet hostAllRunning ∅
                      [{| onConn := 1; toState := StateNew; peerCred := Ok 300 |};
                       {| onConn := 1; toState := StateActive; peerCred := Ok 300 |}]
                      _ {| onConn := 2; toState := StateNew; peerCred := Ok 400 |}
                      10 day_conn2_quiet) 400 eq_refl eq_refl).
    vm_compute. reflexivity.
Defined.

End ServerMore.

(** ** shared: more on the logger *)

Module LogMore.
Import Log.

Lemma named_spec (opens : Sink → bool) (debug : bool) (name : string)
  (mk : string → Sink) (hs : list Handler) :
  named opens debug name mk = Some hs →
  hs = if isEmptyName name then [] else [handlerFor debug (mk name)].
Proof.
  unfold named. destruct name as [|ch name]; simpl; [by intros [= <-]|].
  destruct (opens _); [by intros [= <-]|discriminate].
Qed.

(** What the logger is made of. *)
Lemma SetLogger_handlers (opens : Sink → bool) (syslog logfile : string)
  (verbose debug : bool) (hs : list Handler) :
  SetLogger opens syslog logfile verbose debug = Some hs →
  hs = handlerFor debug <$> sinksOf syslog logfile (verbose || debug).
Proof.
  unfold SetLogger, sinksOf.
  destruct (named opens debug syslog SyslogSink) as [sys|] eqn:Hsys; [|discriminate].
  destruct (named opens debug logfile FileSink) as [file|] eqn:Hfile; [|discriminate].
  intros [= <-]. apply named_spec in Hsys, Hfile. subst.
  rewrite !fmap_app.
  by destruct (isEmptyName syslog), (isEmptyName logfile), (verbose || debug).
Qed.

Lemma emit_unfiltered (sinks : list Sink) (l : Lvl) (msg : string) :
  emit (Some (handlerFor true <$> sinks)) l msg = (λ s, (s, msg)) <$> sinks.
Proof.
  unfold emit. induction sinks as [|s sinks IH]; [done|].
  rewrite !fmap_cons. cbn [List.filter]. unfold passes at 1. cbn [maxLvl handlerFor].
  rewrite fmap_cons. cbn [sink handlerFor]. f_equal. exact IH.
Qed.

Lemma emit_filtered (sinks : list Sink) (l : Lvl) (msg : string) :
  emit (Some (handlerFor false <$> sinks)) l msg
  = if (lvlRank l <=? 1)%nat then (λ s, (s, msg)) <$> sinks else [].
Proof.
  unfold emit. induction sinks as [|s sinks IH].
  - by destruct (lvlRank l <=? 1)%nat.
  - rewrite !fmap_cons. cbn [List.filter]. unfold passes at 1.
    cbn [maxLvl handlerFor lvlRank].
    destruct (lvlRank l <=? 1)%nat eqn:Hl.
    + rewrite fmap_cons. cbn [sink handlerFor]. f_equal. exact IH.
    + exact IH.
Qed.

(** Without [debug] the logger is silent for [Logf] and [Debugf]: every
    handler it is given is behind the error filter, the one of stderr that
    [verbose] adds included, so what these two functions send is written
    nowhere, whatever the format, the operands and the text [fmt.Sprintf]
    makes of them; a record at error level is written once to each sink. *)
Theorem SetLogger_quiet (opens : Sink → bool) (syslog logfile : string)
  (verbose : bool) (hs : list Handler) :
  SetLogger opens syslog logfile verbose false = Some hs →
  (∀ A (sprintf : string → list A → string) format args,
     Logf sprintf (Some hs) format args = [])
  ∧ (∀ A (sprintf : string → list A → string) format args,
     Debugf sprintf (Some hs) format args = [])
  ∧ (∀ msg, emit (Some hs) LvlError msg
            = (λ s, (s, msg)) <$> sinksOf syslog logfile verbose).
Proof.
  intros ->%SetLogger_handlers. rewrite orb_false_r.
  split; [|split]; intros; unfold Logf, Debugf; by rewrite emit_filtered.
Qed.

Lemma SetLogger_quiet_witness :
  (∀ A (sprintf : string → list A → string) format args,
     Logf sprintf
          (Some [handlerFor false (FileSink "/var/log/lxd.log"); handlerFor false StderrSink])
          format args = [])
  ∧ (∀ A (sprintf : string → list A → string) format args,
     Debugf sprintf
            (Some [handlerFor false (FileSink "/var/log/lxd.log"); handlerFor false StderrSink])
            format args = [])
  ∧ (∀ msg,
     emit (Some [handlerFor false (FileSink "/var/log/lxd.log"); handlerFor false StderrSink])
          LvlError msg
     = [(FileSink "/var/log/lxd.log", msg); (StderrSink, msg)]).
Proof.
  apply (SetLogger_quiet (λ _, true) EmptyString "/var/log/lxd.log" true).
  reflexivity.
Defined.

(** With [debug] every line of [Logf] and of [Debugf] is written once to
    each sink, to syslog and to the file when they are named and to stderr,
    which [debug] implies; the text written is the one [fmt.Sprintf] makes
    of the format and the operands, whatever it is, and nothing is added
    to it or taken from it. *)
Theorem SetLogger_debug (opens : Sink → bool) (syslog logfile : string)
  (verbose : bool) (hs : list Handler) :
  SetLogger opens syslog logfile verbose true = Some hs →
  (∀ A (sprintf : string → list A → string) format args,
     Logf sprintf (Some hs) format args
     = (λ s, (s, sprintf format args)) <$> sinksOf syslog logfile true)
  ∧ (∀ A (sprintf : string → list A → string) format args,
     Debugf sprintf (Some hs) format args
     = (λ s, (s, sprintf format args)) <$> sinksOf syslog logfile true).
Proof.
  intros ->%SetLogger_handlers. rewrite orb_true_r.
  split; intros; unfold Logf, Debugf; by rewrite emit_unfiltered.
Qed.

Lemma SetLogger_debug_witness :
  (∀ A (sprintf : string → list A → string) format args,
     Logf sprintf (Some [handlerFor true (SyslogSink "lxd"); handlerFor true StderrSink])
          format args
     = [(SyslogSink "lxd", sprintf format args); (StderrSink, sprintf format args)])
  ∧ (∀ A (sprintf : string → list A → string) format args,
     Debugf sprintf (Some [handlerFor true (SyslogSink "lxd"); handlerFor true StderrSink])
            format args
     = [(SyslogSink "lxd", sprintf format args); (StderrSink, sprintf format args)]).
Proof.
  apply (SetLogger_debug (λ _, true) "lxd" EmptyString false). reflexivity.
Defined.

End LogMore.

(** ** devlxd: the monitor and the fallback *)

Module ResolverLast.
Import Resolver ResolverFacts ResolverMore.

(** [Split] either finds no separator and gives the string itself, or
    gives at least two pieces, the last of which is what follows the last
    separator. *)
Lemma Split_last (s : string) (sep : ascii) :
  (Split s sep = [s] ∧ without sep s)
  ∨ (∃ front name,
       s = front +:+ String sep name ∧ without sep name
       ∧ lastPart (Split s sep) = name
       ∧ ∃ p q ps, Split s sep = p :: q :: ps).
Proof.
  induction s as [|x s IH].
  - left. split; [done|constructor].
  - simpl. destruct (Ascii.eqb_spec x sep) as [->|Hne].
    + right. destruct IH as [[Heq Hno] | (front & name & -> & Hno & Hlast & p & q & ps & Heq)].
      * exists EmptyString, s. rewrite Heq. repeat split; try done. by exists EmptyString, s, [].
      * exists (String sep front), name. rewrite Heq in *. repeat split; try done.
        by exists EmptyString, p, (q :: ps).
    + destruct IH as [[Heq Hno] | (front & name & -> & Hno & Hlast & p & q & ps & Heq)].
      * left. rewrite Heq. split; [done|]. by apply without_cons.
      * right. exists (String x front), name. rewrite Heq in *. repeat split; try done.
        by exists (String x p), q, ps.
Qed.

(** The name a monitor gives: the command line of a monitor ends with a
    space and the name, and the name holds no space. *)
Theorem monitor_name (cmdline : string) :
  HasPrefix cmdline sentinel = true →
  without space (lastPart (Split cmdline space))
  ∧ ∃ front, cmdline = front +:+ String space (lastPart (Split cmdline space)).
Proof.
  intros Hpre.
  destruct (Split_last cmdline space)
    as [[Heq Hno] | (front & name & Hcmd & Hno & Hlast & _)].
  - exfalso. apply (prefix_split sentinel) in Hpre. rewrite Hpre in Hno.
    apply without_app_l in Hno. unfold without, sentinel in Hno. simpl in Hno.
    do 4 apply Forall_cons in Hno as [_ Hno].
    apply Forall_cons in Hno as [Hsp _]. by apply Hsp.
  - rewrite Hlast. split; [done|]. by exists front.
Qed.

Lemma monitor_name_witness :
  without space (lastPart (Split "[lxc monitor] /var/lib/lxd/containers c1" space))
  ∧ ∃ front, "[lxc monitor] /var/lib/lxd/containers c1"
             = front +:+ String space
                 (lastPart (Split "[lxc monitor] /var/lib/lxd/containers c1" space)).
Proof.
  apply (monitor_name "[lxc monitor] /var/lib/lxd/containers c1"). reflexivity.
Defined.

Lemma climbs_same_files (d d' : Daemon) (pid top : Z) :
  (∀ path, ReadFile d' path = ReadFile d path) → climbs d pid top → climbs d' pid top.
Proof.
  intros Hfs. induction 1 as [|pid ppid top cmdline status Hpid Hcmd Hmon Hst Hscan _ IH].
  - apply climbs_here.
  - apply (climbs_up d' pid ppid top cmdline status); try done; by rewrite Hfs.
Qed.

(** A monitor is believed on its word.  When the walk from the peer meets
    a process whose command line begins with the sentinel, the answer is
    what loading the container it names gives, and nothing else is asked:
    a daemon that reads the same files and loads the same containers gives
    the same answer whatever the namespace links and the database say. *)
Theorem monitor_believed (d d' : Daemon) (pid top : Z) (cmdline : string) :
  (∀ path, ReadFile d' path = ReadFile d path) →
  (∀ n, newLxdContainer d' n = newLxdContainer d n) →
  climbs d pid top →
  1 < top →
  ReadFile d (procPath top "cmdline") = Ok cmdline →
  HasPrefix cmdline sentinel = true →
  resolves d pid (lift (newLxdContainer d (lastPart (Split cmdline space))))
  ∧ resolves d' pid (lift (newLxdContainer d (lastPart (Split cmdline space)))).
Proof.
  intros Hfs Hload Hclimb Htop Hcmd Hmon. split.
  - apply (find_of_walk_return d pid top); [done|]. by apply walk_monitor.
  - apply (find_of_walk_return d' pid top); [by apply (climbs_same_files d)|].
    rewrite <- Hload. apply walk_monitor; [done| |done]. by rewrite Hfs.
Qed.

Lemma monitor_believed_witness :
  resolves host 300 (Ok DevLxd.c1) ∧ resolves hostBlind 300 (Ok DevLxd.c1).
Proof.
  apply (monitor_believed host hostBlind 300 100
           "[lxc monitor] /var/lib/lxd/containers c1").
  - reflexivity.
  - reflexivity.
  - exact host_climbs_300.
  - lia.
  - reflexivity.
  - reflexivity.
Defined.

(** The fallback fails early: when the walk ends without a monitor and the
    namespace link of the peer does not read, or the list of containers is
    not had, the answer is that error and no container is loaded. *)
Theorem fallback_first_errors (d : Daemon) (pid top : Z) :
  climbs d pid top →
  top ≤ 1 →
  (∀ e, Readlink d (procPath pid "ns/pid") = Err e →
     resolves d pid (Err (ErrSys e)))
  ∧ (∀ origPidNs e,
     Readlink d (procPath pid "ns/pid") = Ok origPidNs →
     dbListContainers d = Err e →
     resolves d pid (Err (ErrSys e))).
Proof.
  intros Hclimb Htop.
  destruct (find_of_walk_done d pid top Hclimb Htop) as [fuel0 H0].
  split.
  - intros e Hns. exists fuel0. intros fuel Hle. rewrite (H0 fuel Hle).
    unfold fallback. by rewrite Hns.
  - intros origPidNs e Hns Hdb. exists fuel0. intros fuel Hle. rewrite (H0 fuel Hle).
    unfold fallback. by rewrite Hns, Hdb.
Qed.

Lemma fallback_first_errors_witness :
  resolves hostBlind 400 (Err (ErrSys (SysErr "permission denied")))
  ∧ resolves hostNoDb 400 (Err (ErrSys (SysErr "database is locked"))).
Proof.
  split.
  - apply (proj1 (fallback_first_errors hostBlind 400 1
                    (host_climbs_400 hostBlind eq_refl) ltac:(lia))).
    reflexivity.
  - apply (proj2 (fallback_first_errors hostNoDb 400 1
                    (host_climbs_400 hostNoDb eq_refl) ltac:(lia))
             "pid:[4026532201]"); reflexivity.
Defined.

End ResolverLast.

(** ** The exec session: what is advertised is what is admitted *)

Module AdvertisedMore.
Import Exec RangeFacts ConnectFacts MetadataFacts.

Lemma attach_upgraded (s : execWs) (fd : Z) (upgrade : sysres Conn) :
  upgraded (attach s fd upgrade) = true.
Proof. unfold attach. repeat case_match; reflexivity. Qed.

Lemma connectLoop_found (s : execWs) (secret : string) (upgrade : sysres Conn)
  (pairs : list (Z * string)) (fd : Z) :
  (fd, secret) ∈ pairs → upgraded (connectLoop s secret upgrade pairs) = true.
Proof.
  induction pairs as [|[k v] pairs IH]; intros Hin; [by apply elem_of_nil in Hin|].
  simpl. destruct (String.eqb_spec secret v) as [->|Hne]; [apply attach_upgraded|].
  apply IH. apply elem_of_cons in Hin as [[= _ ?]|Hin]; [congruence|done].
Qed.

(** The secrets the metadata shows are the secrets [Connect] takes: a
    call reaches the upgrader exactly when its secret is a value of the
    advertised [fds], whatever the orders of the two ranges; any other
    secret is refused without an upgrade. *)
Theorem advertised_admitted (s : execWs) (keys keys' : list Z) (secret : string)
  (upgrade : sysres Conn) :
  visits (fds s) keys →
  visits (fds s) keys' →
  upgraded (Connect s keys' secret upgrade) = true
  ↔ ∃ m key, Metadata s keys !! "fds" = Some m ∧ m !! key = Some secret.
Proof.
  intros Hvis Hvis'. rewrite (Metadata_kmap s keys Hvis), lookup_singleton_eq.
  unfold Connect. split.
  - intros [fd [_ Hfd]%elem_of_rangeMap]%connectLoop_upgraded.
    exists (kmap fdKey (fds s)), (fdKey fd). split; [done|].
    by rewrite lookup_kmap by apply _.
  - intros (m & key & [= <-] & (fd & -> & Hfd)%lookup_kmap_Some); [|apply _].
    apply (connectLoop_found s secret upgrade _ fd).
    by apply (rangeMap_visits _ _ _ _ Hvis').
Qed.

Lemma advertised_admitted_witness :
  upgraded (Connect halfAttached [-1; 0; 1; 2] "secret-2" (Ok 9%nat)) = true
  ↔ ∃ m key, Metadata halfAttached [-1; 0; 1; 2] !! "fds" = Some m
             ∧ m !! key = Some "secret-2".
Proof.
  apply (advertised_admitted halfAttached [-1; 0; 1; 2] [-1; 0; 1; 2] "secret-2"
           (Ok 9%nat) halfAttached_visits halfAttached_visits).
Defined.

End AdvertisedMore.
